(** * Outlier classification of SAR sea-ice drift vectors

    A shallow embedding of [circular_mean], [circular_std] and
    [outlier_search] (src/util.py) and the properties of the
    classification engine proved about them, followed by the code around
    the engine: [read_json_config] and the file list of [main]
    (src/sar_drift_converter.py), [_parse_pair_times] and the loop of
    [create_netcdf] that maps the table to the grid (src/util.py).

    Numbers are binary64 values ([PrimFloat.float]); the pandas table is a
    list of rows whose position is its index label (the table carries a
    [RangeIndex] after [reset_index(drop=True)]).  The functions of the C
    math library reached through numpy ([np.sin], [np.cos], [np.arctan2],
    [np.log]) and the closed-ball test of scipy's [cKDTree] are not code of
    this repository: they are the fields of a record [Extern], and every
    general theorem holds for all of them.  The same is done for the
    functions of [os], [os.path] and [glob] that the configuration reader
    and [main] call (record [OS]), and for the command line: how
    [parser.parse_args()] ends is an argument of [read_json_config].
    [np.sum] is numpy's pairwise summation.  Exits and exceptions are
    outcomes: those of [util.error_msg], argparse, [os.makedirs] and
    [json.load] in the configuration reader, and the ValueError of
    [cKDTree] in [loop_checked]. *)

From Stdlib Require Import String Ascii.
From Stdlib Require Import Floats ZArith List Bool Arith Lia.
From Stdlib Require Import Permutation Sorted.
Import ListNotations.

Set Warnings "-inexact-float".
Local Open Scope float_scope.

(** ** Binary64 helpers *)

Definition float_of_Z (z : Z) : float :=
  if (z <? 0)%Z then - of_uint63 (Uint63.of_Z (- z)) else of_uint63 (Uint63.of_Z z).

Definition float_of_nat (n : nat) : float := float_of_Z (Z.of_nat n).

Definition is_finite (x : float) : bool :=
  negb (is_nan x) && negb (is_infinity x).

(** [x > y] of IEEE 754: false as soon as one side is NaN. *)
Definition gtb (x y : float) : bool := y <? x.

(** Round to nearest integer, ties to even (C's [rint]). *)
Definition rint (x : float) : float :=
  if abs x <? 0x1p52 then
    let r := (abs x + 0x1p52) - 0x1p52 in
    if x <? 0 then - r else r
  else x.

(** ** numpy *)

(** [np.round(x, 3)]: scale, round to the nearest integer, scale back. *)
Definition np_round3 (x : float) : float := rint (x * 1000) / 1000.

(** [np.deg2rad]: multiplication by the binary64 nearest to pi/180. *)
Definition np_deg2rad (x : float) : float := x * 0x1.1df46a2529d39p-6.

(** [np.sum] of a one-dimensional float array is [np.add.reduce], whose
    inner loop is numpy's pairwise summation ([DOUBLE_pairwise_sum]):
    - fewer than 8 entries are added from left to right;
    - up to 128 entries are added into eight accumulators, entry [i] into
      accumulator [i mod 8]; the accumulators are added as
      [((r0 + r1) + (r2 + r3)) + ((r4 + r5) + (r6 + r7))] and the entries
      after the last full block of eight are added to that, one by one;
    - a longer array is split at half its length, rounded down to a
      multiple of 8, and the sums of the two parts are added. *)
Fixpoint accumulate (r0 r1 r2 r3 r4 r5 r6 r7 : float) (xs : list float)
    : float :=
  match xs with
  | a0 :: a1 :: a2 :: a3 :: a4 :: a5 :: a6 :: a7 :: xs' =>
    accumulate (r0 + a0) (r1 + a1) (r2 + a2) (r3 + a3)
               (r4 + a4) (r5 + a5) (r6 + a6) (r7 + a7) xs'
  | _ =>
    fold_left add xs (((r0 + r1) + (r2 + r3)) + ((r4 + r5) + (r6 + r7)))
  end.

(** At most 128 entries.  (The loop over fewer than 8 entries starts from
    [-0.0]; earlier versions of numpy start it from [0.0], which gives the
    same [np_sum] below, see [np_sum_short].) *)
Definition block_sum (xs : list float) : float :=
  match xs with
  | a0 :: a1 :: a2 :: a3 :: a4 :: a5 :: a6 :: a7 :: xs' =>
    accumulate a0 a1 a2 a3 a4 a5 a6 a7 xs'
  | _ => fold_left add xs (-0)
  end.

(** The recursion of the C function, on a bound of the depth: a list no
    longer than [fuel] never runs out ([pairwise_sum_fuel]). *)
Fixpoint pairwise_sum (fuel : nat) (xs : list float) : float :=
  match fuel with
  | O => block_sum xs
  | S fuel' =>
    if (length xs <=? 128)%nat then block_sum xs
    else
      let n2 := (length xs / 2)%nat in
      let n2 := (n2 - n2 mod 8)%nat in
      pairwise_sum fuel' (firstn n2 xs) + pairwise_sum fuel' (skipn n2 xs)
  end.

(** The reduction starts from the identity of addition, 0, and adds the
    pairwise sum of the whole (contiguous) array to it. *)
Definition np_sum (xs : list float) : float :=
  0 + pairwise_sum (length xs) xs.

(** NaN entries are replaced by 0 and left out of the count, as numpy's
    nan-functions do. *)
Definition replace_nan (xs : list float) : list float :=
  map (fun x => if is_nan x then 0 else x) xs.

Definition count_not_nan (xs : list float) : nat :=
  length (filter (fun x => negb (is_nan x)) xs).

(** [np.nanmean]: an all-NaN (or empty) input gives 0/0 = NaN. *)
Definition np_nanmean (xs : list float) : float :=
  np_sum (replace_nan xs) / float_of_nat (count_not_nan xs).

(** [np.mean], the mean of all entries: what [np.nanmean] is compared
    with. *)
Definition np_mean (xs : list float) : float :=
  np_sum xs / float_of_nat (length xs).

(** [np.nanstd] (ddof = 0): square root of the mean squared deviation of
    the non-NaN entries from their mean. *)
Definition np_nanstd (xs : list float) : float :=
  let cnt := float_of_nat (count_not_nan xs) in
  let avg := np_sum (replace_nan xs) / cnt in
  let dev := map (fun x => if is_nan x then 0 else x - avg) xs in
  sqrt (np_sum (map (fun d => d * d) dev) / cnt).

(** [np.clip(x, lo, hi)] = minimum(maximum(x, lo), hi); a NaN goes through. *)
Definition np_maximum (a b : float) : float :=
  if is_nan a || (b <? a) then a else b.
Definition np_minimum (a b : float) : float :=
  if is_nan a || (a <? b) then a else b.
Definition np_clip (x lo hi : float) : float :=
  np_minimum (np_maximum x lo) hi.

(** ** External functions *)

Record Extern : Type := {
  np_sin : float -> float;
  np_cos : float -> float;
  np_arctan2 : float -> float -> float;
  np_log : float -> float;
  (** [in_ball r p q]: scipy's test that [q] lies in the closed ball of
      radius [r] around [p]. *)
  in_ball : float -> float * float -> float * float -> bool
}.

(** ** Circular statistics (util.py, circular_mean and circular_std) *)

Section CircularStatistics.
Variable E : Extern.

Definition circular_mean (a : list float) : float :=
  np_arctan2 E (np_nanmean (map (np_sin E) a)) (np_nanmean (map (np_cos E) a)).

(** The mean resultant length [R] of circular_std. *)
Definition resultant_length (a : list float) : float :=
  let s := np_nanmean (map (np_sin E) a) in
  let c := np_nanmean (map (np_cos E) a) in
  sqrt (s * s + c * c).

Definition circular_std (a : list float) : float :=
  let s := np_nanmean (map (np_sin E) a) in
  let c := np_nanmean (map (np_cos E) a) in
  let R := sqrt (s * s + c * c) in
  sqrt (-2 * np_log E (np_clip R 1e-12 1)).
End CircularStatistics.

(** ** A reference math library

    Implementations of the four math-library functions with binary64
    arithmetic only, accurate to about one unit in the last place on the
    arguments used below.  They instantiate [Extern] where a theorem is
    applied to concrete data.  They are not the math library of a
    platform: on many arguments the two differ in the last place, so a
    value computed here is the value of the program run with this
    library, and a bound computed here holds for another library as far
    as it leaves room for such differences. *)

Module RefLibm.

(** Horner evaluation; coefficients from the highest degree down. *)
Definition horner (cs : list float) (z : float) : float :=
  fold_left (fun acc c => (acc + c) * z) cs 0.

Fixpoint fact (n : nat) : Z :=
  match n with O => 1%Z | S k => (Z.of_nat n * fact k)%Z end.

Definition alt_sign (k : nat) : float := if Nat.even k then 1 else -1.

(** (-1)^k / (2k+1)!  for k = 10 .. 1 *)
Definition sin_coeffs : list float :=
  map (fun k => alt_sign k / float_of_Z (fact (2 * k + 1))) (rev (seq 1 10)).
(** (-1)^k / (2k)!  for k = 10 .. 1 *)
Definition cos_coeffs : list float :=
  map (fun k => alt_sign k / float_of_Z (fact (2 * k))) (rev (seq 1 10)).
(** (-1)^k / (2k+1)  for k = 26 .. 1 *)
Definition atan_coeffs : list float :=
  map (fun k => alt_sign k / float_of_nat (2 * k + 1)) (rev (seq 1 26)).
(** 1 / (2k+1)  for k = 14 .. 1 *)
Definition atanh_coeffs : list float :=
  map (fun k => 1 / float_of_nat (2 * k + 1)) (rev (seq 1 14)).

Definition ksin (r : float) : float :=
  if r =? 0 then r else r + r * horner sin_coeffs (r * r).
Definition kcos (r : float) : float := 1 + horner cos_coeffs (r * r).

(** pi/2 split in two parts, and 2/pi. *)
Definition pio2_hi : float := 0x1.921fb54400000p+0.
Definition pio2_lo : float := 0x1.0b4611a626331p-34.
Definition two_over_pi : float := 0x1.45f306dc9c883p-1.
Definition pi : float := 0x1.921fb54442d18p+1.
Definition pio2 : float := 0x1.921fb54442d18p+0.
Definition pio4 : float := 0x1.921fb54442d18p-1.

(** Quadrant (0, 1, 2 or 3) and remainder of [x] modulo pi/2. *)
Definition reduce (x : float) : float * float :=
  let k := rint (x * two_over_pi) in
  let r := (x - k * pio2_hi) - k * pio2_lo in
  (k - 4 * rint (k / 4 - 0.375), r).

Definition sin (x : float) : float :=
  if is_nan x || is_infinity x then nan else
  let (q, r) := reduce x in
  if q =? 0 then ksin r else if q =? 1 then kcos r
  else if q =? 2 then - ksin r else - kcos r.

Definition cos (x : float) : float :=
  if is_nan x || is_infinity x then nan else
  let (q, r) := reduce x in
  if q =? 0 then kcos r else if q =? 1 then - ksin r
  else if q =? 2 then - kcos r else ksin r.

Definition katan (t : float) : float :=
  if t =? 0 then t else t + t * horner atan_coeffs (t * t).

Definition atan_pos (x : float) : float :=
  if 0x1.3504f333f9de6p+1 <? x then pio2 - katan (1 / x)
  else if 0x1.a827999fcef32p-2 <? x then pio4 + katan ((x - 1) / (x + 1))
  else katan x.

Definition atan (x : float) : float :=
  if is_nan x then nan else if x <? 0 then - atan_pos (- x) else atan_pos x.

(** The sign bit, which also tells -0 from +0. *)
Definition sign_bit (x : float) : bool := (1 / x <? 0) || (x <? 0).

Definition arctan2 (y x : float) : float :=
  if is_nan x || is_nan y then nan
  else if 0 <? x then atan (y / x)
  else if x <? 0 then
    (if sign_bit y then atan (y / x) - pi else atan (y / x) + pi)
  else if 0 <? y then pio2
  else if y <? 0 then - pio2
  else if sign_bit x then (if sign_bit y then - pi else pi)
  else y.

Definition ln2_hi : float := 0x1.62e42fee00000p-1.
Definition ln2_lo : float := 0x1.a39ef35793c76p-33.
Definition sqrt_half : float := 0x1.6a09e667f3bcdp-1.

Definition log (x : float) : float :=
  if is_nan x || (x <? 0) then nan
  else if x =? 0 then neg_infinity
  else if is_infinity x then infinity
  else
    let (m0, e0) := Z.frexp x in
    let (m, e) := if m0 <? sqrt_half then (m0 * 2, (e0 - 1)%Z) else (m0, e0) in
    let s := (m - 1) / (m + 1) in
    let series := s + s * horner atanh_coeffs (s * s) in
    float_of_Z e * ln2_hi + (2 * series + float_of_Z e * ln2_lo).

(** scipy compares squared distances with the squared radius. *)
Definition ball (r : float) (p q : float * float) : bool :=
  let dx := fst p - fst q in
  let dy := snd p - snd q in
  dx * dx + dy * dy <=? r * r.

Definition ext : Extern :=
  {| np_sin := sin; np_cos := cos; np_arctan2 := arctan2; np_log := log;
     in_ball := ball |}.

End RefLibm.


(** ** The observation table *)

(** The columns of the input table that the engine reads.  Every other
    column of the loader's table is carried along like [dx] and [dy]. *)
Record Row : Type := {
    File1 : string;
    File2 : string;
    X1 : float;
    Y1 : float;
    dx : float;
    dy : float;
    total_distance_km : float;
    Bear_deg : float
  }.

(** A row of [out_df]: the input columns and the columns added by
    outlier_search. *)
Record ORow : Type := {
    base : Row;
    bearing_rad : float;
    b_sin : float;
    b_cos : float;
    outlier_category : string;
    neighbor_indices : option (list nat);
    neighbor_count : nat;
    distance_z_score : float;
    bearing_z_score : float;
    scene : nat
  }.

Definition xy (r : ORow) : float * float := (X1 (base r), Y1 (base r)).

(** The four [.at] writes of one pass of the inner loop. *)
Definition set_stats (r : ORow) (ni : option (list nat)) (nc : nat)
    (dz bz : float) : ORow :=
  {| base := base r; bearing_rad := bearing_rad r; b_sin := b_sin r;
     b_cos := b_cos r; outlier_category := outlier_category r;
     neighbor_indices := ni; neighbor_count := nc;
     distance_z_score := dz; bearing_z_score := bz; scene := scene r |}.

Definition set_category (r : ORow) (c : string) : ORow :=
  {| base := base r; bearing_rad := bearing_rad r; b_sin := b_sin r;
     b_cos := b_cos r; outlier_category := c;
     neighbor_indices := neighbor_indices r;
     neighbor_count := neighbor_count r;
     distance_z_score := distance_z_score r;
     bearing_z_score := bearing_z_score r; scene := scene r |}.

(** ** pandas *)

(** A frame with its index labels; after [reset_index(drop=True)] the
    label of a row is its position. *)
Definition indexed {A : Type} (l : list A) : list (nat * A) :=
  combine (seq 0 (length l)) l.

(** [frame.at[i, col] = v] for a label [i] of the frame. *)
Fixpoint update_at {A : Type} (i : nat) (f : A -> A) (l : list A) : list A :=
  match l, i with
  | [], _ => []
  | x :: l', O => f x :: l'
  | x :: l', S i' => x :: update_at i' f l'
  end.

(** [frame.iloc[idxs]]: the rows at the given positions, in that order. *)
Definition iloc {A : Type} (l : list A) (idxs : list nat) : list A :=
  flat_map (fun j => match nth_error l j with Some x => [x] | None => [] end) idxs.

(** [series.isin(values)] on one entry. *)
Definition isin (s : string) (values : list string) : bool :=
  existsb (String.eqb s) values.

(** Order of the pairs (File1, File2): by File1, then by File2. *)
Definition key_le (a b : Row) : bool :=
  match String.compare (File1 a) (File1 b) with
  | Lt => true
  | Gt => false
  | Eq => String.leb (File2 a) (File2 b)
  end.

Definition key_eqb (a b : Row) : bool :=
  String.eqb (File1 a) (File1 b) && String.eqb (File2 a) (File2 b).

(** [sort_values(by=['File1', 'File2'])]: a stable sort on the pair. *)
Fixpoint insert_row (x : Row) (l : list Row) : list Row :=
  match l with
  | [] => [x]
  | y :: l' => if key_le x y then x :: y :: l' else y :: insert_row x l'
  end.

Definition sort_values (df : list Row) : list Row :=
  fold_right insert_row [] df.

(** The distinct keys of a frame in order of first appearance
    ([groupby(..., sort=False)]). *)
Definition first_seen {A : Type} (eqb : A -> A -> bool) (l : list A) : list A :=
  fold_left (fun acc k => if existsb (eqb k) acc then acc else acc ++ [k]) l [].

Fixpoint index_of {A : Type} (eqb : A -> A -> bool) (k : A) (l : list A) : nat :=
  match l with
  | [] => O
  | x :: l' => if eqb k x then O else S (index_of eqb k l')
  end.

(** [groupby(['File1', 'File2'], sort=False).ngroup()] of one row. *)
Definition ngroup (df : list Row) (r : Row) : nat :=
  index_of key_eqb r (first_seen key_eqb df).

(** A frame whose labels start at [k]. *)
Definition indexed_from {T : Type} (k : nat) (l : list T) : list (nat * T) :=
  combine (seq k (length l)) l.

(** ** read_json_config *)

Local Close Scope float_scope.

(** A value as [json.load] returns it. *)
#[warnings="-register-all"]
Inductive json : Type :=
  | JNull
  | JBool (b : bool)
  | JInt (z : Z)
  | JFloat (f : float)
  | JStr (s : string)
  | JList (l : list json)
  | JDict (d : list (string * json)).

(** A dict with string keys, in insertion order; a key occurs once. *)
Definition dict : Type := list (string * json).

Fixpoint lookup (k : string) (d : dict) : option json :=
  match d with
  | [] => None
  | (k', v) :: d' => if String.eqb k k' then Some v else lookup k d'
  end.

(** [d[k] = v] for a key of the dict. *)
Fixpoint assign (k : string) (v : json) (d : dict) : dict :=
  match d with
  | [] => []
  | (k', v') :: d' =>
    if String.eqb k k' then (k', v) :: d' else (k', v') :: assign k v d'
  end.

Inductive exn : Type :=
  | KeyError
  | TypeError
  | AttributeError
  | UnicodeError
  | OSError
  | JSONDecodeError.

(** How a call ends: it returns, the interpreter exits with a status
    ([exit(rc)] in [util.error_msg]), or an exception is left uncaught. *)
Inductive outcome (A : Type) : Type :=
  | Return (a : A)
  | SystemExit (rc : Z)
  | Raised (e : exn).
Arguments Return {A} a.
Arguments SystemExit {A} rc.
Arguments Raised {A} e.

(** The functions of [os] and [os.path] and the codec the validation
    calls.  [unicode_escape s] is [s.encode().decode('unicode_escape')],
    [None] when it raises; [makedirs_raises p] tells whether
    [os.makedirs(p, exist_ok=True)] raises [OSError] (no permission, a
    file of that name, ...). *)
Record OS : Type := {
    normpath : string -> string;
    path_exists : string -> bool;
    path_join : string -> string -> string;
    unicode_escape : string -> option string;
    makedirs_raises : string -> bool
  }.

(** A computation that may exit or raise, over the list of directories
    created so far by [os.makedirs]. *)
Definition M (A : Type) : Type := list string -> outcome A * list string.

Definition ret {A : Type} (a : A) : M A := fun fs => (Return a, fs).

Definition bind {A B : Type} (m : M A) (k : A -> M B) : M B :=
  fun fs =>
    match m fs with
    | (Return a, fs') => k a fs'
    | (SystemExit rc, fs') => (SystemExit rc, fs')
    | (Raised e, fs') => (Raised e, fs')
    end.

Declare Scope py_scope.
Delimit Scope py_scope with py.
Notation "x <- m ;; k" := (bind m (fun x => k))
  (at level 61, m at next level, right associativity) : py_scope.
Notation "m ;; k" := (bind m (fun _ => k))
  (at level 61, right associativity) : py_scope.

(** [util.error_msg(msg, rc)]: prints the message and exits with [rc]. *)
Definition error_msg {A : Type} (rc : Z) : M A := fun fs => (SystemExit rc, fs).

Definition raise {A : Type} (e : exn) : M A := fun fs => (Raised e, fs).

(** [sys.exit(rc)], as argparse calls it. *)
Definition sys_exit {A : Type} (rc : Z) : M A := fun fs => (SystemExit rc, fs).

(** [os.makedirs(p, exist_ok=True)]: the directory is created, or
    [OSError] is raised. *)
Definition makedirs (os : OS) (p : string) : M unit :=
  fun fs =>
    if makedirs_raises os p then (Raised OSError, fs)
    else (Return tt, fs ++ [p]).

(** [if cond: util.error_msg(..., rc)] *)
Definition exit_if (cond : bool) (rc : Z) : M unit :=
  if cond then error_msg rc else ret tt.

(** [config[k]] *)
Definition getitem (config : dict) (k : string) : M json :=
  match lookup k config with
  | Some v => ret v
  | None => raise KeyError
  end.

(** [isinstance(v, int)]: a bool is an int. *)
Definition isinstance_int (v : json) : bool :=
  match v with JBool _ | JInt _ => true | _ => false end.

(** [v = config[k]; if not isinstance(v, bool): error_msg(..., rc);
    v = bool(v)] *)
Definition get_bool (config : dict) (k : string) (rc : Z) : M bool :=
  (v <- getitem config k ;;
   match v with
   | JBool b => ret b
   | _ => error_msg rc
   end)%py.

(** [v = config[k]; if not isinstance(v, int): error_msg(..., rc);
    v = int(v)] *)
Definition get_int (config : dict) (k : string) (rc : Z) : M Z :=
  (v <- getitem config k ;;
   match v with
   | JInt z => ret z
   | JBool b => ret (if b then 1%Z else 0%Z)
   | _ => error_msg rc
   end)%py.

(** [v = config[k]; if not isinstance(v, float): error_msg(..., rc)] *)
Definition get_float (config : dict) (k : string) (rc : Z) : M float :=
  (v <- getitem config k ;;
   match v with
   | JFloat f => ret f
   | _ => error_msg rc
   end)%py.

(** [os.path.normpath(os.path.join(config[k]))]; [join] raises TypeError
    on what is not a string. *)
Definition get_path (os : OS) (config : dict) (k : string) : M string :=
  (v <- getitem config k ;;
   match v with
   | JStr s => ret (normpath os s)
   | _ => raise TypeError
   end)%py.

(** [config['delimiter'].encode().decode('unicode_escape')]; what is not a
    string has no [encode]. *)
Definition get_delimiter (os : OS) (config : dict) : M string :=
  (v <- getitem config "delimiter" ;;
   match v with
   | JStr s =>
     match unicode_escape os s with
     | Some t => ret t
     | None => raise UnicodeError
     end
   | _ => raise AttributeError
   end)%py.

Definition required_json_keys : list string :=
  [ "sar_drift_directory"; "sar_drift_filename"; "sar_geotiff_filename";
    "netcdf_cdl_file"; "output_dir"; "batch_process"; "delimiter";
    "skip_rows_before_header"; "detect_outliers"; "ignore_vector_threshold";
    "use_geotiff"; "create_region_plot"; "vector_stride";
    "inlier_vector_stride"; "quiver_scale_small_area";
    "quiver_scale_large_area"; "precision"; "verbose" ]%string.

(** [a - b] on sets of keys. *)
Definition set_minus (a b : list string) : list string :=
  filter (fun k => negb (existsb (String.eqb k) b)) a.

Definition is_empty {A : Type} (l : list A) : bool :=
  match l with [] => true | _ :: _ => false end.

(** The check that the keys are the required ones and no other. *)
Definition check_keys (config : dict) : M unit :=
  let config_keys := map fst config in
  let missing := set_minus required_json_keys config_keys in
  let extra := set_minus config_keys required_json_keys in
  if is_empty missing && is_empty extra then ret tt
  else (exit_if (negb (is_empty missing)) 2 ;;
        exit_if (negb (is_empty extra)) 3)%py.

(** The dict that [read_json_config] returns. *)
Record Config : Type := {
    sar_drift_directory : string;
    sar_drift_file : string;
    sar_geotiff_file : string;
    netcdf_cdl_file : string;
    output_dir : string;
    formatted_data_dir : string;
    gpkg_dir : string;
    nc_dir : string;
    png_dir : string;
    batch_process : bool;
    delimiter : string;
    skip_rows_before_header : Z;
    detect_outliers : bool;
    ignore_vector_threshold : Z;
    use_geotiff : bool;
    create_region_plot : bool;
    vector_stride : Z;
    inlier_vector_stride : json;
    quiver_scale_small_area : float;
    quiver_scale_large_area : float;
    precision : Z;
    verbose : bool
  }.

(** [read_json_config] from the loaded dict on: the checks in the order
    of the source, each with its exit status.  The text of the messages
    and the parameters printed when 'verbose' is true are left out. *)
Definition validate (os : OS) (config : dict) : M Config :=
  (check_keys config ;;
   batch_process <- get_bool config "batch_process" 4 ;;
   sar_drift_directory <- get_path os config "sar_drift_directory" ;;
   exit_if (negb (path_exists os sar_drift_directory) && batch_process) 5 ;;
   sar_drift_file <- get_path os config "sar_drift_filename" ;;
   exit_if (negb (path_exists os sar_drift_file) && negb batch_process) 6 ;;
   use_geotiff <- get_bool config "use_geotiff" 7 ;;
   sar_geotiff_file <- get_path os config "sar_geotiff_filename" ;;
   exit_if (negb (path_exists os sar_geotiff_file) && use_geotiff) 8 ;;
   netcdf_cdl_file <- get_path os config "netcdf_cdl_file" ;;
   exit_if (negb (path_exists os netcdf_cdl_file)) 9 ;;
   output_dir <- get_path os config "output_dir" ;;
   exit_if (negb (path_exists os output_dir)) 10 ;;
   let formatted_data_dir := path_join os output_dir "formatted_data" in
   makedirs os formatted_data_dir ;;
   let gpkg_dir := path_join os output_dir "gpkg" in
   makedirs os gpkg_dir ;;
   let nc_dir := path_join os output_dir "nc" in
   makedirs os nc_dir ;;
   let png_dir := path_join os output_dir "png" in
   makedirs os png_dir ;;
   delimiter <- get_delimiter os config ;;
   skip_rows_before_header <- get_int config "skip_rows_before_header" 11 ;;
   exit_if (skip_rows_before_header <? 0)%Z 12 ;;
   detect_outliers <- get_bool config "detect_outliers" 13 ;;
   ignore_vector_threshold <- get_int config "ignore_vector_threshold" 14 ;;
   exit_if (ignore_vector_threshold <? 1)%Z 15 ;;
   create_region_plot <- get_bool config "create_region_plot" 16 ;;
   vector_stride <- get_int config "vector_stride" 17 ;;
   exit_if (vector_stride <? 1)%Z 18 ;;
   inlier_vector_stride <- getitem config "inlier_vector_stride" ;;
   exit_if (negb (isinstance_int inlier_vector_stride)) 19 ;;
   exit_if (vector_stride <? 1)%Z 20 ;;
   quiver_scale_small_area <- get_float config "quiver_scale_small_area" 21 ;;
   quiver_scale_large_area <- get_float config "quiver_scale_large_area" 22 ;;
   precision <- get_int config "precision" 23 ;;
   verbose <- get_bool config "verbose" 24 ;;
   ret {| sar_drift_directory := sar_drift_directory;
          sar_drift_file := sar_drift_file;
          sar_geotiff_file := sar_geotiff_file;
          netcdf_cdl_file := netcdf_cdl_file;
          output_dir := output_dir;
          formatted_data_dir := formatted_data_dir;
          gpkg_dir := gpkg_dir;
          nc_dir := nc_dir;
          png_dir := png_dir;
          batch_process := batch_process;
          delimiter := delimiter;
          skip_rows_before_header := skip_rows_before_header;
          detect_outliers := detect_outliers;
          ignore_vector_threshold := ignore_vector_threshold;
          use_geotiff := use_geotiff;
          create_region_plot := create_region_plot;
          vector_stride := vector_stride;
          inlier_vector_stride := inlier_vector_stride;
          quiver_scale_small_area := quiver_scale_small_area;
          quiver_scale_large_area := quiver_scale_large_area;
          precision := precision;
          verbose := verbose |})%py.

(** How [parser.parse_args()] ends on the command line of the process:
    argparse prints the help and exits with status 0 on [-h] or [--help],
    prints the usage and exits with status 2 on a command line it cannot
    parse (an unknown option, [-c] without a value, a positional
    argument), and returns the namespace otherwise; its [config_file] is
    [None] when the option is not given. *)
Inductive parsed : Type :=
  | Help
  | UsageError
  | Namespace (config_file : option string).

(** [read_json_config].  [args] is how [parser.parse_args()] ends;
    [load] stands for opening the file and [json.load], with the
    exception it raises if any; a loaded value that is not a dict has no
    [keys]. *)
Definition read_json_config (os : OS) (load : string -> exn + json)
    (args : parsed) : M Config :=
  match args with
  | Help => sys_exit 0
  | UsageError => sys_exit 2
  | Namespace config_file =>
    match config_file with
    | None | Some EmptyString => error_msg 1
    | Some f =>
      match load (normpath os f) with
      | inl e => raise e
      | inr (JDict config) => validate os config
      | inr _ => raise AttributeError
      end
    end
  end.

(** *** Vocabulary and examples *)

(** The exit status is one of [l], when the call exits. *)
Definition status_in {A : Type} (l : list Z) (o : outcome A) : bool :=
  match o with
  | SystemExit rc => existsb (Z.eqb rc) l
  | _ => true
  end.

(** The returned dict with another value under 'inlier_vector_stride'. *)
Definition with_inlier_vector_stride (v : json)
    (r : outcome Config * list string) : outcome Config * list string :=
  match r with
  | (Return c, fs) =>
    (Return {| sar_drift_directory := sar_drift_directory c;
               sar_drift_file := sar_drift_file c;
               sar_geotiff_file := sar_geotiff_file c;
               netcdf_cdl_file := netcdf_cdl_file c;
               output_dir := output_dir c;
               formatted_data_dir := formatted_data_dir c;
               gpkg_dir := gpkg_dir c;
               nc_dir := nc_dir c;
               png_dir := png_dir c;
               batch_process := batch_process c;
               delimiter := delimiter c;
               skip_rows_before_header := skip_rows_before_header c;
               detect_outliers := detect_outliers c;
               ignore_vector_threshold := ignore_vector_threshold c;
               use_geotiff := use_geotiff c;
               create_region_plot := create_region_plot c;
               vector_stride := vector_stride c;
               inlier_vector_stride := v;
               quiver_scale_small_area := quiver_scale_small_area c;
               quiver_scale_large_area := quiver_scale_large_area c;
               precision := precision c;
               verbose := verbose c |}, fs)
  | _ => r
  end.

(** The keys read as integers and converted with [int]. *)
Definition converted_int_keys : list string :=
  [ "skip_rows_before_header"; "ignore_vector_threshold"; "vector_stride";
    "precision" ]%string.

(** The four subfolders of the output directory, in order of creation. *)
Definition subfolders (os : OS) (out : string) : list string :=
  map (path_join os out) [ "formatted_data"; "gpkg"; "nc"; "png" ]%string.

(** A file system with a data file, a CDL file and an output directory. *)
Definition example_os : OS :=
  {| normpath := fun p => p;
     path_exists := fun p =>
       existsb (String.eqb p) [ "/data/drift.txt"; "/data/meta.cdl"; "/out" ]%string;
     path_join := fun a b => (a ++ "/" ++ b)%string;
     unicode_escape := fun s => Some s;
     makedirs_raises := fun _ => false |}.

Definition example_config : dict :=
  [ ("sar_drift_directory", JStr "/data/in");
    ("sar_drift_filename", JStr "/data/drift.txt");
    ("sar_geotiff_filename", JStr "/data/scene.tif");
    ("netcdf_cdl_file", JStr "/data/meta.cdl");
    ("output_dir", JStr "/out");
    ("batch_process", JBool false);
    ("delimiter", JStr ",");
    ("skip_rows_before_header", JBool true);
    ("detect_outliers", JBool true);
    ("ignore_vector_threshold", JInt 10);
    ("use_geotiff", JBool false);
    ("create_region_plot", JBool false);
    ("vector_stride", JInt 1);
    ("inlier_vector_stride", JInt 4);
    ("quiver_scale_small_area", JFloat 0.5%float);
    ("quiver_scale_large_area", JFloat 2%float);
    ("precision", JInt 3);
    ("verbose", JBool false) ]%string.

(** What [read_json_config] returns for [example_config]. *)
Definition example_accepted : Config :=
  {| sar_drift_directory := "/data/in";
     sar_drift_file := "/data/drift.txt";
     sar_geotiff_file := "/data/scene.tif";
     netcdf_cdl_file := "/data/meta.cdl";
     output_dir := "/out";
     formatted_data_dir := "/out/formatted_data";
     gpkg_dir := "/out/gpkg";
     nc_dir := "/out/nc";
     png_dir := "/out/png";
     batch_process := false;
     delimiter := ",";
     skip_rows_before_header := 1;
     detect_outliers := true;
     ignore_vector_threshold := 10;
     use_geotiff := false;
     create_region_plot := false;
     vector_stride := 1;
     inlier_vector_stride := JInt 4;
     quiver_scale_small_area := 0.5%float;
     quiver_scale_large_area := 2%float;
     precision := 3;
     verbose := false |}.

(** ** _parse_pair_times *)

(** File names are taken to be ASCII, so that [\d] is one of the ten
    characters 0 to 9.  (In a name that is not ASCII, [\d] and [strptime]
    also take the other decimal digits of Unicode.) *)
Definition isdigit (c : ascii) : bool :=
  (48 <=? nat_of_ascii c) && (nat_of_ascii c <=? 57).

(** The pieces of the regular expression [DT_RE]: a digit, an
    underscore. *)
Inductive cls : Type := D | U.

Definition cls_ok (k : cls) (c : ascii) : bool :=
  match k with
  | D => isdigit c
  | U => Ascii.eqb c "_"
  end.

(** [(\d{4}_\d{2}_\d{2}_\d{2}_\d{2}_\d{2})] *)
Definition DT_RE : list cls :=
  [D; D; D; D; U; D; D; U; D; D; U; D; D; U; D; D; U; D; D].

(** The text matched by the pattern at the start of [s], if it matches
    there. *)
Fixpoint match_here (pat : list cls) (s : string) : option string :=
  match pat with
  | [] => Some EmptyString
  | k :: pat' =>
    match s with
    | EmptyString => None
    | String c s' =>
      if cls_ok k c then option_map (String c) (match_here pat' s') else None
    end
  end.

(** [DT_RE.findall]: the matches from left to right, none overlapping
    another; [skip] characters of the last match are still to be passed. *)
Fixpoint findall_from (skip : nat) (s : string) : list string :=
  match s with
  | EmptyString => []
  | String _ s' =>
    match skip with
    | S k => findall_from k s'
    | O =>
      match match_here DT_RE s with
      | Some m => m :: findall_from 18 s'
      | None => findall_from 0 s'
      end
    end
  end.

Definition findall (s : string) : list string := findall_from 0 s.

Record datetime : Type := {
    year : Z;
    month : Z;
    day : Z;
    hour : Z;
    minute : Z;
    second : Z
  }.

(** [int] of a string of digits. *)
Fixpoint int_acc (acc : Z) (s : string) : Z :=
  match s with
  | EmptyString => acc
  | String c s' => int_acc (10 * acc + (Z.of_nat (nat_of_ascii c) - 48))%Z s'
  end.

Definition int (s : string) : Z := int_acc 0 s.

Definition is_leap (y : Z) : bool :=
  ((y mod 4 =? 0) && (negb (y mod 100 =? 0) || (y mod 400 =? 0)))%Z.

Definition days_in_month (y m : Z) : Z :=
  match m with
  | 1 | 3 | 5 | 7 | 8 | 10 | 12 => 31
  | 4 | 6 | 9 | 11 => 30
  | 2 => if is_leap y then 29 else 28
  | _ => 0
  end%Z.

(** A date and time that [datetime] accepts. *)
Definition valid_datetime (t : datetime) : bool :=
  ((1 <=? year t) && (year t <=? 9999)
   && (1 <=? month t) && (month t <=? 12)
   && (1 <=? day t) && (day t <=? days_in_month (year t) (month t))
   && (0 <=? hour t) && (hour t <=? 23)
   && (0 <=? minute t) && (minute t <=? 59)
   && (0 <=? second t) && (second t <=? 59))%Z.

(** [datetime.strptime(s, "%Y_%m_%d_%H_%M_%S")] on a match [s] of
    [DT_RE]: the six numbers, or [None] for the ValueError when they are
    not a date and a time. *)
Definition strptime (s : string) : option datetime :=
  let t := {| year := int (substring 0 4 s);
              month := int (substring 5 2 s);
              day := int (substring 8 2 s);
              hour := int (substring 11 2 s);
              minute := int (substring 14 2 s);
              second := int (substring 17 2 s) |} in
  if valid_datetime t then Some t else None.

(** [None] stands for the ValueError: fewer than two timestamps in the
    name, or a timestamp that is not a date and a time. *)
Definition _parse_pair_times (name : string) : option (datetime * datetime) :=
  match findall name with
  | p0 :: p1 :: _ =>
    match strptime p0 with
    | Some t1 =>
      match strptime p1 with
      | Some t2 => Some (t1, t2)
      | None => None
      end
    | None => None
    end
  | _ => None
  end.

(** *** Vocabulary *)

Definition digit (k : Z) : ascii := ascii_of_nat (48 + Z.to_nat (k mod 10)).

Definition pad2 (n : Z) (rest : string) : string :=
  String (digit (n / 10)) (String (digit n) rest).

(** The timestamp of [t] as it is written in a file name: the format
    "%Y_%m_%d_%H_%M_%S", followed by [rest]. *)
Definition stamp (t : datetime) (rest : string) : string :=
  pad2 (year t / 100)
    (pad2 (year t)
       (String "_" (pad2 (month t)
          (String "_" (pad2 (day t)
             (String "_" (pad2 (hour t)
                (String "_" (pad2 (minute t)
                   (String "_" (pad2 (second t) rest))))))))))).

(** No four digits followed by an underscore start in [s]. *)
Fixpoint no_year_start (s : string) : bool :=
  match match_here [D; D; D; D; U] s with
  | Some _ => false
  | None =>
    match s with
    | EmptyString => true
    | String _ s' => no_year_start s'
    end
  end.

(** The six numbers fit the digits of the format. *)
Definition fits_digits (t : datetime) : bool :=
  ((0 <=? year t) && (year t <? 10000)
   && (0 <=? month t) && (month t <? 100)
   && (0 <=? day t) && (day t <? 100)
   && (0 <=? hour t) && (hour t <? 100)
   && (0 <=? minute t) && (minute t <? 100)
   && (0 <=? second t) && (second t <? 100))%Z.

(** The two timestamps of the examples. *)
Definition first_time : datetime :=
  {| year := 2024; month := 2; day := 29; hour := 8; minute := 12;
     second := 45 |}.

Definition second_time : datetime :=
  {| year := 2024; month := 3; day := 1; hour := 9; minute := 0;
     second := 7 |}.

Definition is_ascii (s : string) : bool :=
  forallb (fun c => nat_of_ascii c <? 128) (list_ascii_of_string s).

(** ** main: the files to process *)

(** [sub in s] on strings: [sub] occurs in [s]. *)
Fixpoint str_in (sub s : string) : bool :=
  String.prefix sub s
  || match s with
     | EmptyString => false
     | String _ s' => str_in sub s'
     end.

(** The list [files] that [main] loops over.  [glob] is [glob.glob]; in
    batch mode its matches are kept when the path contains '.txt' or
    '.csv'. *)
Definition data_files (os : OS) (glob : string -> list string)
    (config : Config) : list string :=
  if batch_process config
  then
    let all_files := glob (path_join os (sar_drift_directory config) "*") in
    filter (fun file => str_in ".txt" file || str_in ".csv" file) all_files
  else [sar_drift_file config].

(** ** create_netcdf: mapping the observations to the grid *)

Module NetCDF.

(** The columns of [df_reduced] that the mapping loop reads. *)
Record Obs : Type := {
    X1 : float;
    Y1 : float;
    dx : float;
    dy : float;
    Speed_kmdy : float;
    Bear_deg : float
  }.

(** One variable of the dataset at time index 0: rows by [y], columns by
    [x]. *)
Definition Grid : Type := list (list float).

(** [np.full((1, ny, nx), v)] *)
Definition np_full (ny nx : nat) (v : float) : Grid := repeat (repeat v nx) ny.

(** [a[0, y, x] = v]; [None] for the IndexError outside the array. *)
Definition setitem (a : Grid) (y x : nat) (v : float) : option Grid :=
  match nth_error a y with
  | Some row =>
    if x <? length row
    then Some (update_at y (update_at x (fun _ => v)) a)
    else None
  | None => None
  end.

Definition item (a : Grid) (y x : nat) : option float :=
  match nth_error a y with
  | Some row => nth_error row x
  | None => None
  end.

(** [np.argmin] on a float array: the first position of the least entry;
    a NaN counts as least, so the position of the first NaN when there is
    one.  [mp] is the least entry so far, at [min_ind]; [i] is the position
    of the head of [l]. *)
Fixpoint argmin_from (mp : float) (min_ind i : nat) (l : list float) : nat :=
  match l with
  | [] => min_ind
  | x :: l' =>
    if negb (PrimFloat.leb mp x)
    then if is_nan x then i else argmin_from x i (S i) l'
    else argmin_from mp min_ind (S i) l'
  end.

(** [None] for the ValueError on an empty array. *)
Definition np_argmin (a : list float) : option nat :=
  match a with
  | [] => None
  | x :: l => Some (if is_nan x then 0 else argmin_from x 0 1 l)
  end.

(** [np.argmin(np.abs(coords - v))] *)
Definition nearest (coords : list float) (v : float) : option nat :=
  np_argmin (map (fun c => abs (c - v)%float) coords).

(** The four data variables of [netcdf_grid]. *)
Record Dataset : Type := {
    var_Speed_kmdy : Grid;
    var_dx : Grid;
    var_dy : Grid;
    var_Bear_deg : Grid
  }.

(** What the loop reads and writes: the dataset, the dict
    [index_mapping], and the duplicate warnings printed so far. *)
Record State : Type := {
    netcdf_grid : Dataset;
    index_mapping : list (nat * nat);
    printed : list (nat * nat)
  }.

Definition key_eqb (a b : nat * nat) : bool :=
  Nat.eqb (fst a) (fst b) && Nat.eqb (snd a) (snd b).

(** The body of [for _, row in df_reduced.iterrows()]. *)
Definition map_row (x_coords y_coords : list float) (st : State) (row : Obs)
    : option State :=
  match nearest x_coords (X1 row) with
  | None => None
  | Some x_idx =>
    match nearest y_coords (Y1 row) with
    | None => None
    | Some y_idx =>
      let index_key := (y_idx, x_idx) in
      if existsb (key_eqb index_key) (index_mapping st)
      then Some {| netcdf_grid := netcdf_grid st;
                   index_mapping := index_mapping st;
                   printed := printed st ++ [index_key] |}
      else
        let g := netcdf_grid st in
        match setitem (var_Speed_kmdy g) y_idx x_idx (Speed_kmdy row) with
        | None => None
        | Some speed =>
          match setitem (var_dx g) y_idx x_idx (dx row) with
          | None => None
          | Some gdx =>
            match setitem (var_dy g) y_idx x_idx (dy row) with
            | None => None
            | Some gdy =>
              match setitem (var_Bear_deg g) y_idx x_idx (Bear_deg row) with
              | None => None
              | Some bear =>
                Some {| netcdf_grid :=
                          {| var_Speed_kmdy := speed; var_dx := gdx;
                             var_dy := gdy; var_Bear_deg := bear |};
                        index_mapping := index_mapping st;
                        printed := printed st |}
              end
            end
          end
        end
    end
  end.

Fixpoint map_rows (x_coords y_coords : list float) (st : State)
    (rows : list Obs) : option State :=
  match rows with
  | [] => Some st
  | row :: rows' =>
    match map_row x_coords y_coords st row with
    | None => None
    | Some st' => map_rows x_coords y_coords st' rows'
    end
  end.

(** The dataset as created, all NaN, with the shape given by the
    coordinate arrays, and the loop over the rows of the table. *)
Definition empty_dataset (x_coords y_coords : list float) : Dataset :=
  let shell := np_full (length y_coords) (length x_coords) nan in
  {| var_Speed_kmdy := shell; var_dx := shell; var_dy := shell;
     var_Bear_deg := shell |}.

Definition mapping (x_coords y_coords : list float) (rows : list Obs)
    : option State :=
  map_rows x_coords y_coords
    {| netcdf_grid := empty_dataset x_coords y_coords;
       index_mapping := []; printed := [] |}
    rows.

(** *** Vocabulary *)

(** The four values stored for the cell [(y, x)]. *)
Definition cell (g : Dataset) (y x : nat)
    : option (float * float * float * float) :=
  match item (var_Speed_kmdy g) y x, item (var_dx g) y x,
        item (var_dy g) y x, item (var_Bear_deg g) y x with
  | Some s, Some u, Some v, Some b => Some (s, u, v, b)
  | _, _, _, _ => None
  end.

Definition values (row : Obs) : float * float * float * float :=
  (Speed_kmdy row, dx row, dy row, Bear_deg row).

(** The row maps to the cell [(y, x)]. *)
Definition maps_to (x_coords y_coords : list float) (y x : nat) (row : Obs)
    : bool :=
  match nearest x_coords (X1 row), nearest y_coords (Y1 row) with
  | Some x_idx, Some y_idx => Nat.eqb y y_idx && Nat.eqb x x_idx
  | _, _ => false
  end.

(** The last row of the table that maps to the cell, if any. *)
Definition last_at (x_coords y_coords : list float) (rows : list Obs)
    (y x : nat) : option Obs :=
  find (maps_to x_coords y_coords y x) (rev rows).

(** The shape of the four variables. *)
Definition shaped (ny nx : nat) (a : Grid) : Prop :=
  length a = ny /\ Forall (fun row => length row = nx) a.

(** The four variables have the shape of the coordinate arrays and
    [index_mapping] is empty. *)
Definition ready (x_coords y_coords : list float) (st : State) : Prop :=
  shaped (length y_coords) (length x_coords) (var_Speed_kmdy (netcdf_grid st))
  /\ shaped (length y_coords) (length x_coords) (var_dx (netcdf_grid st))
  /\ shaped (length y_coords) (length x_coords) (var_dy (netcdf_grid st))
  /\ shaped (length y_coords) (length x_coords) (var_Bear_deg (netcdf_grid st))
  /\ index_mapping st = [].

(** The order of the binary64 numbers that are not NaN, as a
    lexicographic order on three integers. *)
Definition rank (f : spec_float) : Z * Z * Z :=
  match f with
  | S754_nan => (0, 0, 0)%Z
  | S754_zero _ => (0, 0, 0)%Z
  | S754_infinity s => (if s then (-2)%Z else 2%Z, 0%Z, 0%Z)
  | S754_finite s m e =>
    if s then ((-1)%Z, (- e)%Z, (- Z.pos m)%Z) else (1%Z, e, Z.pos m)
  end.

Definition lex3 (a b : Z * Z * Z) : comparison :=
  match Z.compare (fst (fst a)) (fst (fst b)) with
  | Eq =>
    match Z.compare (snd (fst a)) (snd (fst b)) with
    | Eq => Z.compare (snd a) (snd b)
    | c => c
    end
  | c => c
  end.

End NetCDF.

Local Open Scope float_scope.

(** ** outlier_search *)

Section OutlierSearch.
Variable E : Extern.
Variable radius_km : float.
Variable min_neighbors : Z.

Definition radius_m : float := radius_km * 1000.

(** The table before the first iteration: sorted, re-indexed, with the
    derived and the classification columns at their initial values. *)
Definition init_row (sorted : list Row) (r : Row) : ORow :=
  let rad := np_deg2rad (Bear_deg r) in
  {| base := r; bearing_rad := rad; b_sin := np_sin E rad;
     b_cos := np_cos E rad; outlier_category := "01";
     neighbor_indices := None; neighbor_count := 0;
     distance_z_score := nan; bearing_z_score := nan;
     scene := ngroup sorted r + 1 |}.

Definition prepare (df : list Row) : list ORow :=
  let sorted := sort_values df in
  map (init_row sorted) sorted.

Definition is_inlier (r : ORow) : bool :=
  isin (outlier_category r) ["00"; "01"]%string.

(** [out_df[out_df['outlier_category'].isin(['00', '01'])]], with its
    index labels. *)
Definition pool_df (out_df : list ORow) : list (nat * ORow) :=
  filter (fun p => is_inlier (snd p)) (indexed out_df).

(** [(out_df['outlier_category'] == '01').sum()] *)
Definition inlier_count (out_df : list ORow) : nat :=
  length (filter (fun r => String.eqb (outlier_category r) "01") out_df).

(** One entry of [quiver_payloads_by_iter]: the X, Y, u, v arrays. *)
Definition quiver_payload (pool : list (nat * ORow))
    : list float * list float * list float * list float :=
  (map (fun p => X1 (base (snd p))) pool,
   map (fun p => Y1 (base (snd p))) pool,
   map (fun p => dx (base (snd p))) pool,
   map (fun p => dy (base (snd p))) pool).

(** [pool_df.groupby("scene", sort=False)]: one sub-frame per scene id,
    in order of first appearance. *)
Definition scene_frame (pool : list (nat * ORow)) (sid : nat) : list (nat * ORow) :=
  filter (fun p => Nat.eqb (scene (snd p)) sid) pool.

Definition groupby_scene (pool : list (nat * ORow)) : list (list (nat * ORow)) :=
  map (scene_frame pool) (first_seen Nat.eqb (map (fun p => scene (snd p)) pool)).

(** [cKDTree(xy).query_ball_point(xy, r)]: for every point the positions
    of the points of the tree in its closed ball (itself among them).
    scipy leaves the order within one answer open; here it is ascending.
    scipy builds no tree over a coordinate that is NaN or infinite: it
    raises ValueError.  This function and the loop built on it describe
    the run over finite positions; [loop_checked] below adds the
    exception. *)
Definition query_ball_point (pts : list (float * float)) (r : float)
    : list (list nat) :=
  map (fun p => map fst (filter (fun q => in_ball E r p (snd q)) (indexed pts))) pts.

Definition dist_z (cell_dist dist_mean dist_std : float) : float :=
  if (dist_std =? 0) || is_nan dist_std then nan
  else abs (cell_dist - dist_mean) / dist_std.

Definition bear_z (cell_bear bear_mean bear_std : float) : float :=
  let delta_bear :=
    np_arctan2 E (np_sin E (cell_bear - bear_mean))
                 (np_cos E (cell_bear - bear_mean)) in
  if (bear_std =? 0) || is_nan bear_std then nan
  else abs delta_bear / bear_std.

(** The body of the loop over [enumerate(all_neighbors)]. *)
Definition process_point (scene_df : list (nat * ORow)) (out_df : list ORow)
    (local_idx : nat) (local_neighbors : list nat) : list ORow :=
  let neigh_idxs := filter (fun j => negb (Nat.eqb j local_idx)) local_neighbors in
  match nth_error scene_df local_idx with
  | None => out_df
  | Some (target_out_idx, cell) =>
    match neigh_idxs with
    | [] =>
      update_at target_out_idx (fun r => set_stats r None 0 nan nan) out_df
    | _ :: _ =>
      let neigh_rows := iloc scene_df neigh_idxs in
      let neigh_dist := map (fun p => total_distance_km (base (snd p))) neigh_rows in
      let neigh_bear := map (fun p => bearing_rad (snd p)) neigh_rows in
      let dist_mean := np_nanmean neigh_dist in
      let dist_std := np_nanstd neigh_dist in
      let bear_mean := circular_mean E neigh_bear in
      let bear_std := circular_std E neigh_bear in
      let cell_dist := total_distance_km (base cell) in
      let cell_bear := bearing_rad cell in
      let dist_z_score := dist_z cell_dist dist_mean dist_std in
      let bear_z_score := bear_z cell_bear bear_mean bear_std in
      let neigh_out_idx :=
        filter (fun i => negb (Nat.eqb i target_out_idx)) (map fst neigh_rows) in
      update_at target_out_idx
        (fun r => set_stats r (Some neigh_out_idx) (length neigh_out_idx)
                    (np_round3 dist_z_score) (np_round3 bear_z_score))
        out_df
    end
  end.

(** The body of the loop over the scenes of the pool. *)
Definition process_scene (out_df : list ORow) (scene_df : list (nat * ORow))
    : list ORow :=
  let pts := map (fun p => xy (snd p)) scene_df in
  let all_neighbors := query_ball_point pts radius_m in
  fold_left (fun out ln => process_point scene_df out (fst ln) (snd ln))
            (indexed all_neighbors) out_df.

Definition build_neighbors (out_df : list ORow) (pool : list (nat * ORow))
    : list ORow :=
  fold_left process_scene (groupby_scene pool) out_df.

(** The category assignment at the end of an iteration. *)
Definition base_cat (distance_filter bearing_filter : bool) : nat :=
  if distance_filter && negb bearing_filter then 1
  else if negb distance_filter && bearing_filter then 2
  else if distance_filter && bearing_filter then 3
  else 0.

Definition statistical_confidence_flag (r : ORow) : nat :=
  if (min_neighbors <=? Z.of_nat (neighbor_count r))%Z then 1 else 0.

(** [astype(str)] of a one-digit integer. *)
Definition digit_str (n : nat) : string :=
  String (ascii_of_nat (48 + n)) EmptyString.

Definition category_of (r : ORow) : string :=
  let distance_filter := gtb (distance_z_score r) 3 in
  let bearing_filter := gtb (bearing_z_score r) 3 in
  (digit_str (base_cat distance_filter bearing_filter)
     ++ digit_str (statistical_confidence_flag r))%string.

Definition classify (out_df : list ORow) : list ORow :=
  map (fun r => set_category r (category_of r)) out_df.

(** What one iteration does when it does not stop. *)
Definition iteration_body (out_df : list ORow) : list ORow :=
  classify (build_neighbors out_df (pool_df out_df)).

(** [stop if stable] *)
Definition stable (iter_prev_inliers : option nat) (count : nat) : bool :=
  match iter_prev_inliers with
  | None => false
  | Some c => Nat.eqb count c
  end.

Definition Quiver : Type :=
  list (list float * list float * list float * list float).

(** [for iter_idx in range(iter_count)], on the iterations left. *)
Fixpoint loop (iters_left : nat) (iter_prev_inliers : option nat)
    (out_df : list ORow) (quiver : Quiver) : list ORow * Quiver :=
  match iters_left with
  | O => (out_df, quiver)
  | S n =>
    let pool := pool_df out_df in
    let count := inlier_count out_df in
    let quiver' := quiver ++ [quiver_payload pool] in
    if stable iter_prev_inliers count then (out_df, quiver')
    else loop n (Some count) (iteration_body out_df) quiver'
  end.

Definition outlier_search (df : list Row) (iter_count : nat)
    : list ORow * Quiver :=
  loop iter_count None (prepare df) [].

(** The table at the start of every iteration that is entered. *)
Fixpoint iteration_tables (iters_left : nat) (iter_prev_inliers : option nat)
    (out_df : list ORow) : list (list ORow) :=
  match iters_left with
  | O => []
  | S n =>
    let count := inlier_count out_df in
    out_df ::
      (if stable iter_prev_inliers count then []
       else iteration_tables n (Some count) (iteration_body out_df))
  end.

(** Every table of a run in order: the table at the start of each
    iteration that is entered, and after the last table the one the
    run returns when no iteration stopped it. *)
Fixpoint history (iters_left : nat) (iter_prev_inliers : option nat)
    (out_df : list ORow) : list (list ORow) :=
  match iters_left with
  | O => [out_df]
  | S n =>
    let count := inlier_count out_df in
    if stable iter_prev_inliers count then [out_df]
    else out_df :: history n (Some count) (iteration_body out_df)
  end.

(** [cKDTree(xy)] takes the positions of the pool: scipy raises
    ValueError ("data must be finite") unless every coordinate is a
    finite number. *)
Definition finite_row (r : Row) : bool := is_finite (X1 r) && is_finite (Y1 r).

Definition tree_data_ok (out_df : list ORow) : bool :=
  forallb (fun p => finite_row (base (snd p))) (pool_df out_df).

(** The loop with that exception: [None] stands for the ValueError, which
    ends the run in the iteration that builds a tree over such a
    position.  An iteration that stops builds no tree. *)
Fixpoint loop_checked (iters_left : nat) (iter_prev_inliers : option nat)
    (out_df : list ORow) (quiver : Quiver) : option (list ORow * Quiver) :=
  match iters_left with
  | O => Some (out_df, quiver)
  | S n =>
    let pool := pool_df out_df in
    let count := inlier_count out_df in
    let quiver' := quiver ++ [quiver_payload pool] in
    if stable iter_prev_inliers count then Some (out_df, quiver')
    else if tree_data_ok out_df
         then loop_checked n (Some count) (iteration_body out_df) quiver'
         else None
  end.

Definition outlier_search_checked (df : list Row) (iter_count : nat)
    : option (list ORow * Quiver) :=
  loop_checked iter_count None (prepare df) [].

(** ** Vocabulary of the properties *)

Local Close Scope float_scope.

(** The other members of a scene frame within the radius of the member
    labelled [i]. *)
Definition neighbors_in (sdf : list (nat * ORow)) (i : nat) (cell : ORow)
    : list (nat * ORow) :=
  filter (fun p => negb (Nat.eqb (fst p) i)
                   && in_ball E radius_m (xy cell) (xy (snd p))) sdf.

(** What the inner loop writes for the member labelled [i]. *)
Definition point_update (sdf : list (nat * ORow)) (i : nat) (cell r : ORow)
    : ORow :=
  match neighbors_in sdf i cell with
  | [] => set_stats r None 0 nan nan
  | nb =>
    let neigh_dist := map (fun p => total_distance_km (base (snd p))) nb in
    let neigh_bear := map (fun p => bearing_rad (snd p)) nb in
    set_stats r (Some (map fst nb)) (length (map fst nb))
      (np_round3 (dist_z (total_distance_km (base cell))
                         (np_nanmean neigh_dist) (np_nanstd neigh_dist)))
      (np_round3 (bear_z (bearing_rad cell)
                         (circular_mean E neigh_bear)
                         (circular_std E neigh_bear)))
  end.

(** The writes of one scene: one per member, at the member's label. *)
Definition scene_writes (sdf : list (nat * ORow))
    : list (nat * (ORow -> ORow)) :=
  map (fun p => (fst p, point_update sdf (fst p) (snd p))) sdf.

Definition apply_writes (ws : list (nat * (ORow -> ORow))) (out : list ORow)
    : list ORow :=
  fold_left (fun o w => update_at (fst w) (snd w) o) ws out.

(** The row written for label [i] by one pass of the builder. *)
Definition rebuilt_row (out : list ORow) (i : nat) (ri : ORow) : ORow :=
  if is_inlier ri
  then point_update (scene_frame (pool_df out) (scene ri)) i ri ri
  else ri.

(** The row left at label [i] by one iteration. *)
Definition next_row (out : list ORow) (i : nat) (ri : ORow) : ORow :=
  let r := rebuilt_row out i ri in
  set_category r (category_of r).

(** A z-score above the threshold on either metric. *)
Definition flagged (r : ORow) : bool :=
  gtb (distance_z_score r) 3 || gtb (bearing_z_score r) 3.

(** The category column agrees with the stored z-scores and count. *)
Definition consistent (r : ORow) : Prop :=
  outlier_category r = category_of r.

(** The reason digit agrees with the stored z-scores. *)
Definition reason_consistent (r : ORow) : Prop :=
  is_inlier r = negb (flagged r).

Definition relabel (out : list ORow) (p : nat * ORow) : nat * ORow :=
  (fst p, next_row out (fst p) (snd p)).

(** The test that picks the neighbors of the member labelled [i]. *)
Definition near (i : nat) (ri : ORow) (p : nat * ORow) : bool :=
  Nat.eqb (scene (snd p)) (scene ri)
  && (negb (Nat.eqb (fst p) i)
      && in_ball E radius_m (xy ri) (xy (snd p))).

(** What is known of a table when an iteration starts: it is the
    prepared table, or the result of an iteration. *)
Definition Inv (out : list ORow) : Prop :=
  Forall reason_consistent out
  /\ (Forall (fun r => outlier_category r = "01"%string) out
      \/ exists prev, Forall reason_consistent prev /\ out = iteration_body prev).

(** No flagged row of [out] is an inlier in [out']. *)
Definition no_return (out out' : list ORow) : Prop :=
  length out' = length out
  /\ forall i r r', nth_error out i = Some r -> nth_error out' i = Some r' ->
                    is_inlier r = false -> is_inlier r' = false.

Definition shrinks (out out' : list ORow) : Prop :=
  inlier_count out' <= inlier_count out
  /\ length (pool_df out') <= length (pool_df out)
  /\ no_return out out'.

Definition is_01 (r : ORow) : bool := String.eqb (outlier_category r) "01".

Definition neighbors_ok (out : list ORow) : Prop :=
  forall i r, nth_error out i = Some r ->
    (neighbor_count r = 0 /\ neighbor_indices r = None)
    \/ (exists l, neighbor_indices r = Some l
                  /\ neighbor_count r = length l
                  /\ NoDup l
                  /\ forall j, In j l ->
                       j <> i /\ exists rj, nth_error out j = Some rj
                                            /\ scene rj = scene r).

(** The postcondition of the category assignment on one row. *)
Definition classified (r : ORow) : Prop :=
  let distance_flag := gtb (distance_z_score r) 3 in
  let bearing_flag := gtb (bearing_z_score r) 3 in
  let reason :=
    if distance_flag && bearing_flag then 3
    else if distance_flag then 1
    else if bearing_flag then 2
    else 0 in
  let confidence :=
    if (min_neighbors <=? Z.of_nat (neighbor_count r))%Z then 1 else 0 in
  (is_nan (distance_z_score r) = true -> distance_flag = false)
  /\ (is_nan (bearing_z_score r) = true -> bearing_flag = false)
  /\ outlier_category r = (digit_str reason ++ digit_str confidence)%string
  /\ String.length (outlier_category r) = 2.


(** The neighbor list of a row, empty when the column holds [None]. *)
Definition recorded_neighbors (r : ORow) : list nat :=
  match neighbor_indices r with
  | Some l => l
  | None => []
  end.

(** The first character of the category code. *)
Definition reason_digit (r : ORow) : option ascii :=
  String.get 0 (outlier_category r).


(** The four columns written for a pool member, from the labels, the
    distances and the bearings of its neighbors and its own distance and
    bearing. *)
Definition stats_of (idx : list nat) (dists bears : list float)
    (cell_dist cell_bear : float) (r : ORow) : ORow :=
  match idx with
  | [] => set_stats r None 0 nan nan
  | _ :: _ =>
    set_stats r (Some idx) (length idx)
      (np_round3 (dist_z cell_dist (np_nanmean dists) (np_nanstd dists)))
      (np_round3 (bear_z cell_bear (circular_mean E bears) (circular_std E bears)))
  end.


(** [a] may stand before [b] in a table sorted by (File1, File2). *)
Definition by_key (a b : Row) : Prop := key_le a b = true.


(** The columns no iteration writes. *)
Definition fixed_columns (r : ORow) : Row * float * float * float * nat :=
  (base r, bearing_rad r, b_sin r, b_cos r, scene r).


(** The clamp bounds of circular_std. *)
Definition clamp_floor : float := 1e-12.
Definition clamp_ceiling : float := 1%float.


(** ** Tables used in the examples *)

Definition mkrow (f1 f2 : string) (x y d b : float) : Row :=
  {| File1 := f1; File2 := f2; X1 := x; Y1 := y; dx := 0%float; dy := 0%float;
     total_distance_km := d; Bear_deg := b |}.

(** One observation. *)
Definition lone : list Row :=
  [ mkrow "S1A_0103" "S1A_0104" 0%float 0%float 10%float 45%float ].

(** Two observations of two image pairs, the later pair first. *)
Definition two_scenes : list Row :=
  [ mkrow "S1A_0103" "S1A_0104" 0%float 0%float 10%float 45%float;
    mkrow "S1A_0101" "S1A_0102" 0%float 0%float 12%float 90%float ].

(** Five observations of one image pair, 100 m apart on a line, all with
    bearing 45 degrees, travelling 10, 10.1, 10.3, 11 and 80 km. *)
Definition cascade : list Row :=
  [ mkrow "S1A_0101" "S1A_0102" 0%float 0%float 10%float 45%float;
    mkrow "S1A_0101" "S1A_0102" 100%float 0%float 10.1%float 45%float;
    mkrow "S1A_0101" "S1A_0102" 200%float 0%float 10.3%float 45%float;
    mkrow "S1A_0101" "S1A_0102" 300%float 0%float 11%float 45%float;
    mkrow "S1A_0101" "S1A_0102" 400%float 0%float 80%float 45%float ].

(** Scenario A of the design: three observations pairwise within the
    radius, distances 10, 10, 10 km, bearings 45, 45, 46 degrees. *)
Definition scenario_a : list Row :=
  [ mkrow "S1A_0101" "S1A_0102" 0%float 0%float 10%float 45%float;
    mkrow "S1A_0101" "S1A_0102" 100%float 0%float 10%float 45%float;
    mkrow "S1A_0101" "S1A_0102" 200%float 0%float 10%float 46%float ].

(** Scenario B of the design: three observations near 10 km and 45
    degrees and one at 80 km, all within the radius. *)
Definition scenario_b : list Row :=
  [ mkrow "S1A_0101" "S1A_0102" 0%float 0%float 10%float 45%float;
    mkrow "S1A_0101" "S1A_0102" 100%float 0%float 10.1%float 45%float;
    mkrow "S1A_0101" "S1A_0102" 200%float 0%float 9.9%float 45%float;
    mkrow "S1A_0101" "S1A_0102" 300%float 0%float 80%float 45%float ].

Definition blank_row : ORow :=
  {| base := mkrow "" "" 0%float 0%float 0%float 0%float;
     bearing_rad := 0%float; b_sin := 0%float; b_cos := 0%float;
     outlier_category := ""; neighbor_indices := None; neighbor_count := 0;
     distance_z_score := nan; bearing_z_score := nan; scene := 0 |}.

(** The row labelled [i] of a table. *)
Definition row_at (t : list ORow) (i : nat) : ORow := nth i t blank_row.


(** Membership of the pool read off the reason digit: the category is
    "00" or "01" exactly when its first character is 0. *)
Definition pool_by_reason (r : ORow) : Prop :=
  is_inlier r = true <-> reason_digit r = Some "0"%char.


(** Every row outside the pool of [out] is the same row, in every column,
    in [out']. *)
Definition frozen (out out' : list ORow) : Prop :=
  forall i r, nth_error out i = Some r -> is_inlier r = false ->
              nth_error out' i = Some r.

(** Two rows at the same position of two tables: when either belongs to
    scene [s], they are the same row. *)
Definition same_scene (s : nat) (r r' : ORow) : Prop :=
  scene r = s \/ scene r' = s -> r = r'.

(** The second character of the category code. *)
Definition confidence_digit (r : ORow) : option ascii :=
  String.get 1 (outlier_category r).

(** Every neighbor count is below the number of rows. *)
Definition counts_below (out : list ORow) : Prop :=
  Forall (fun r => neighbor_count r < length out) out.

(** [scenario_b] followed by one observation of a later image pair, with
    two different drifts. *)
Definition with_later_pair (d b : float) : list Row :=
  scenario_b ++ [ mkrow "S1B_0201" "S1B_0202" 50%float 0%float d b ].


(** The table after [j] passes of the loop body over the prepared table,
    and its count of "01" rows. *)
Definition table_after (df : list Row) (j : nat) : list ORow :=
  Nat.iter j iteration_body (prepare df).

Definition count_after (df : list Row) (j : nat) : nat :=
  inlier_count (table_after df j).

(** The count the stop test of iteration [j] compares with, in a loop
    entered with [prev] on the table [out]. *)
Definition previous_count (prev : option nat) (out : list ORow) (j : nat)
    : option nat :=
  match j with
  | O => prev
  | S i => Some (inlier_count (Nat.iter i iteration_body out))
  end.

(** Three observations of one scene, 100 m apart, all of 10 km: the first
    two with bearing [b], the third with bearing [c]. *)
Definition two_against_one (b c : float) : list Row :=
  [ mkrow "S1A_0101" "S1A_0102" 0%float 0%float 10%float b;
    mkrow "S1A_0101" "S1A_0102" 100%float 0%float 10%float b;
    mkrow "S1A_0101" "S1A_0102" 200%float 0%float 10%float c ].


(** * Properties *)

(** ** Lists, index labels and writes by label *)

Section ListFacts.
Context {A B : Type}.

Lemma update_at_length (i : nat) (f : A -> A) (l : list A) :
  length (update_at i f l) = length l.
Proof.
  revert i; induction l as [|x l IH]; intros [|i]; simpl; auto.
Qed.

Lemma nth_error_update_at_eq (i : nat) (f : A -> A) (l : list A) :
  nth_error (update_at i f l) i = option_map f (nth_error l i).
Proof.
  revert i; induction l as [|x l IH]; intros [|i]; simpl; auto.
Qed.

Lemma nth_error_update_at_ne (i j : nat) (f : A -> A) (l : list A) :
  i <> j -> nth_error (update_at i f l) j = nth_error l j.
Proof.
  revert i j; induction l as [|x l IH]; intros [|i] [|j] Hij; simpl; auto.
  - congruence.
Qed.

Lemma indexed_from_cons (k : nat) (x : A) (l : list A) :
  indexed_from k (x :: l) = (k, x) :: indexed_from (S k) l.
  Proof. reflexivity. Qed.

Lemma in_indexed_from (k j : nat) (x : A) (l : list A) :
  In (j, x) (indexed_from k l) <-> k <= j /\ nth_error l (j - k) = Some x.
Proof.
  revert k; induction l as [|y l IH]; intro k.
  - simpl. split; [tauto|]. intros [_ H]. destruct (j - k); discriminate.
  - rewrite indexed_from_cons. simpl. rewrite IH. split.
    + intros [H | [H1 H2]].
      * inversion H; subst. rewrite Nat.sub_diag. auto.
      * split; [lia|]. replace (j - k) with (S (j - S k)) by lia. exact H2.
    + intros [H1 H2]. destruct (Nat.eq_dec k j) as [->|Hne].
      * rewrite Nat.sub_diag in H2. simpl in H2. left. congruence.
      * right. split; [lia|].
        replace (j - k) with (S (j - S k)) in H2 by lia. exact H2.
Qed.

Lemma in_indexed (j : nat) (x : A) (l : list A) :
  In (j, x) (indexed l) <-> nth_error l j = Some x.
Proof.
  unfold indexed. fold (indexed_from 0 l). rewrite in_indexed_from.
  rewrite Nat.sub_0_r. split; [tauto|]. split; [lia|assumption].
Qed.

Lemma nth_error_indexed_from (k i : nat) (l : list A) :
  nth_error (indexed_from k l) i
  = option_map (fun x => (k + i, x)) (nth_error l i).
Proof.
  revert k i; induction l as [|x l IH]; intros k [|i]; simpl; auto.
  - rewrite Nat.add_0_r. reflexivity.
  - unfold indexed_from in IH. rewrite IH. rewrite Nat.add_succ_r. reflexivity.
Qed.

Lemma nth_error_indexed (i : nat) (l : list A) :
  nth_error (indexed l) i = option_map (fun x => (i, x)) (nth_error l i).
  Proof. exact (nth_error_indexed_from 0 i l). Qed.

Lemma map_fst_indexed (l : list A) : map fst (indexed l) = seq 0 (length l).
Proof.
  unfold indexed. generalize 0. induction l as [|x l IH]; intro k; simpl; auto.
  f_equal. apply IH.
Qed.

Lemma map_snd_indexed (l : list A) : map snd (indexed l) = l.
Proof.
  unfold indexed. generalize 0. induction l as [|x l IH]; intro k; simpl; auto.
  f_equal. apply IH.
Qed.

Lemma indexed_length (l : list A) : length (indexed l) = length l.
  Proof. rewrite <- (length_map fst), map_fst_indexed. apply length_seq. Qed.

Lemma NoDup_fst_indexed (l : list A) : NoDup (map fst (indexed l)).
  Proof. rewrite map_fst_indexed. apply seq_NoDup. Qed.

Lemma NoDup_map_filter (g : A -> B) (P : A -> bool) (l : list A) :
  NoDup (map g l) -> NoDup (map g (filter P l)).
Proof.
  induction l as [|x l IH]; simpl; intro H; [constructor|].
  inversion H as [|? ? Hnin Hnd]; subst.
  destruct (P x); simpl; auto.
  constructor; auto. intro Hin. apply Hnin.
  apply in_map_iff in Hin. destruct Hin as [y [Hy Hin]].
  apply filter_In in Hin. apply in_map_iff. exists y. tauto.
Qed.

Lemma NoDup_map_inj_fst (l : list (nat * A)) (i : nat) (x y : A) :
  NoDup (map fst l) -> In (i, x) l -> In (i, y) l -> x = y.
Proof.
  induction l as [|[j z] l IH]; simpl; intros Hnd Hx Hy; [tauto|].
  inversion Hnd as [|? ? Hnin Hnd']; subst.
  destruct Hx as [Hx|Hx], Hy as [Hy|Hy].
  - congruence.
  - inversion Hx; subst. exfalso. apply Hnin.
    apply in_map_iff. exists (i, y). auto.
  - inversion Hy; subst. exfalso. apply Hnin.
    apply in_map_iff. exists (i, x). auto.
  - auto.
Qed.

Lemma filter_length_mono (P Q : A -> bool) (l : list A) :
  (forall x, In x l -> P x = true -> Q x = true) ->
  length (filter P l) <= length (filter Q l).
Proof.
  induction l as [|x l IH]; simpl; intro H; auto.
  assert (IH' : length (filter P l) <= length (filter Q l)) by (apply IH; auto).
  destruct (P x) eqn:HP.
  - rewrite (H x (or_introl eq_refl) HP). simpl. lia.
  - destruct (Q x); simpl; lia.
Qed.

Lemma filter_same_length_eq (P Q : A -> bool) (l : list A) :
  (forall x, In x l -> P x = true -> Q x = true) ->
  length (filter P l) = length (filter Q l) ->
  forall x, In x l -> P x = Q x.
Proof.
  induction l as [|y l IH]; simpl; intros H Hlen x Hin; [tauto|].
  assert (Hle : length (filter P l) <= length (filter Q l))
    by (apply filter_length_mono; auto).
  destruct (P y) eqn:HP.
  - rewrite (H y (or_introl eq_refl) HP) in Hlen. simpl in Hlen.
    destruct Hin as [->|Hin].
    + rewrite HP. symmetry. apply H; auto.
    + apply IH; auto. 
  - destruct (Q y) eqn:HQ.
    + simpl in Hlen. lia.
    + destruct Hin as [->|Hin]; [congruence|]. apply IH; auto.
Qed.

(** The positions picked out of a frame by a test on position and row
  give, through [iloc], the rows that pass the test. *)
Lemma iloc_filter_indexed_from (g : A -> B) (P : nat -> B -> bool)
    (pre l : list A) :
  iloc (pre ++ l)
    (map fst (filter (fun q => P (fst q) (snd q))
                     (indexed_from (length pre) (map g l))))
  = map snd (filter (fun q => P (fst q) (g (snd q)))
                    (indexed_from (length pre) l)).
Proof.
  revert pre; induction l as [|x l IH]; intro pre; simpl; auto.
  unfold indexed_from. simpl.
  fold (indexed_from (S (length pre)) (map g l)).
  fold (indexed_from (S (length pre)) l).
  assert (IH' := IH (pre ++ [x])).
  rewrite length_app in IH'. simpl in IH'.
  rewrite Nat.add_1_r in IH'. rewrite <- app_assoc in IH'. simpl in IH'.
  destruct (P (length pre) (g x)); simpl.
  - rewrite nth_error_app2 by lia. rewrite Nat.sub_diag. simpl.
    f_equal. exact IH'.
  - exact IH'.
Qed.

Lemma iloc_filter_indexed (g : A -> B) (P : nat -> B -> bool) (l : list A) :
  iloc l (map fst (filter (fun q => P (fst q) (snd q)) (indexed (map g l))))
  = map snd (filter (fun q => P (fst q) (g (snd q))) (indexed l)).
  Proof. exact (iloc_filter_indexed_from g P [] l). Qed.

Lemma filter_map_fst_comm (P : nat -> bool) (l : list (nat * A)) :
  filter P (map fst l) = map fst (filter (fun q => P (fst q)) l).
Proof.
  induction l as [|x l IH]; simpl; auto.
  destruct (P (fst x)); simpl; congruence.
Qed.

Lemma map_snd_filter_indexed (P : A -> bool) (l : list A) :
  map snd (filter (fun q => P (snd q)) (indexed l)) = filter P l.
Proof.
  unfold indexed. generalize 0.
  induction l as [|x l IH]; intro k; simpl; auto.
  destruct (P x); simpl; rewrite IH; auto.
Qed.

Lemma filter_filter (P Q : A -> bool) (l : list A) :
  filter P (filter Q l) = filter (fun x => Q x && P x) l.
Proof.
  induction l as [|x l IH]; simpl; auto.
  destruct (Q x); simpl; [destruct (P x)|]; simpl; congruence.
Qed.

Lemma map_fst_filter_indexed_map (g : A -> B) (P : nat -> B -> bool)
    (k : nat) (l : list A) :
  map fst (filter (fun q => P (fst q) (snd q)) (indexed_from k (map g l)))
  = map fst (filter (fun q => P (fst q) (g (snd q))) (indexed_from k l)).
Proof.
  revert k; induction l as [|x l IH]; intro k; simpl; auto.
  unfold indexed_from. simpl.
  fold (indexed_from (S k) (map g l)). fold (indexed_from (S k) l).
  destruct (P k (g x)); simpl; rewrite IH; reflexivity.
Qed.

(** The distinct values of a column in order of first appearance. *)
Section FirstSeen.
Variable eqb : A -> A -> bool.
Hypothesis eqb_eq : forall a b, eqb a b = true <-> a = b.

Lemma existsb_eqb (k : A) (l : list A) :
  existsb (eqb k) l = true <-> In k l.
Proof.
  rewrite existsb_exists. split.
  - intros [x [Hin Hx]]. apply eqb_eq in Hx. congruence.
  - intro Hin. exists k. split; auto. apply eqb_eq. reflexivity.
Qed.

Lemma first_seen_acc (l acc : list A) :
  NoDup acc ->
  let r := fold_left
             (fun acc k => if existsb (eqb k) acc then acc else acc ++ [k])
             l acc in
  NoDup r /\ (forall x, In x r <-> In x acc \/ In x l).
Proof.
  revert acc; induction l as [|k l IH]; intros acc Hnd; simpl.
  - split; auto. intro x. tauto.
  - destruct (existsb (eqb k) acc) eqn:Hex.
    + apply existsb_eqb in Hex.
      destruct (IH acc Hnd) as [H1 H2]. split; auto.
      intro x. rewrite H2. split; [tauto|].
      intros [H|[->|H]]; auto.
    + assert (Hnin : ~ In k acc).
      { intro Hin. apply existsb_eqb in Hin. congruence. }
      assert (Hnd' : NoDup (acc ++ [k])).
      { apply NoDup_app; auto.
        - constructor; [simpl; tauto|constructor].
        - intros a Ha [->|[]]. auto. }
      destruct (IH (acc ++ [k]) Hnd') as [H1 H2]. split; auto.
      intro x. rewrite H2, in_app_iff. simpl. tauto.
Qed.

Lemma NoDup_first_seen (l : list A) : NoDup (first_seen eqb l).
  Proof. apply (first_seen_acc l []). constructor. Qed.

Lemma in_first_seen (l : list A) (x : A) :
  In x (first_seen eqb l) <-> In x l.
Proof.
  destruct (first_seen_acc l [] (NoDup_nil A)) as [_ H].
  unfold first_seen. rewrite H. simpl. tauto.
Qed.
End FirstSeen.

Lemma length_filter_snd_indexed (P : A -> bool) (l : list A) :
  length (filter (fun q => P (snd q)) (indexed l)) = length (filter P l).
  Proof. rewrite <- (map_snd_filter_indexed P l). symmetry. apply length_map. Qed.

(** Writes at pairwise distinct labels do not interfere. *)
Lemma fold_writes_length (ws : list (nat * (A -> A))) (out : list A) :
  length (fold_left (fun o w => update_at (fst w) (snd w) o) ws out)
  = length out.
Proof.
  revert out; induction ws as [|w ws IH]; intro out; simpl; auto.
  rewrite IH. apply update_at_length.
Qed.

Lemma fold_writes_other (ws : list (nat * (A -> A))) (out : list A) (i : nat) :
  ~ In i (map fst ws) ->
  nth_error (fold_left (fun o w => update_at (fst w) (snd w) o) ws out) i
  = nth_error out i.
Proof.
  revert out; induction ws as [|w ws IH]; intros out Hnin; simpl; auto.
  simpl in Hnin. rewrite IH by tauto.
  apply nth_error_update_at_ne. tauto.
Qed.

Lemma fold_writes_hit (ws : list (nat * (A -> A))) (out : list A)
    (i : nat) (f : A -> A) :
  NoDup (map fst ws) -> In (i, f) ws ->
  nth_error (fold_left (fun o w => update_at (fst w) (snd w) o) ws out) i
  = option_map f (nth_error out i).
Proof.
  revert out; induction ws as [|w ws IH]; intros out Hnd Hin; simpl.
  - destruct Hin.
  - inversion Hnd as [|? ? Hnin Hnd']; subst.
    destruct Hin as [->|Hin].
    + simpl in *. rewrite fold_writes_other by assumption.
      apply nth_error_update_at_eq.
    + rewrite IH by assumption.
      rewrite nth_error_update_at_ne; auto.
      intro Heq. apply Hnin. apply in_map_iff. exists (i, f). auto.
Qed.

End ListFacts.

Lemma last_nonempty {A : Type} (l : list A) (x d d' : A) :
  last (x :: l) d = last (x :: l) d'.
Proof.
  revert x; induction l as [|y l IH]; intro x; [reflexivity|].
  change (last (y :: l) d = last (y :: l) d'). apply IH.
Qed.

Lemma indexed_map_indexed {A B : Type} (h : nat -> A -> B) (l : list A) :
  indexed (map (fun p => h (fst p) (snd p)) (indexed l))
  = map (fun p => (fst p, h (fst p) (snd p))) (indexed l).
Proof.
  apply nth_error_ext. intro i.
  rewrite nth_error_indexed, !nth_error_map, nth_error_indexed.
  destruct (nth_error l i); reflexivity.
Qed.

(** ** The neighbor statistics builder, row by row *)


Lemma position_label (sdf : list (nat * ORow)) (li lj i j : nat)
    (cell row : ORow) :
  NoDup (map fst sdf) ->
  nth_error sdf li = Some (i, cell) ->
  nth_error sdf lj = Some (j, row) ->
  Nat.eqb lj li = Nat.eqb j i.
Proof.
  intros Hnd Hli Hlj.
  destruct (Nat.eqb_spec lj li) as [->|Hne].
  - rewrite Hli in Hlj. inversion Hlj; subst. symmetry. apply Nat.eqb_refl.
  - symmetry. apply Nat.eqb_neq. intro Heq. subst j. apply Hne.
    apply (proj1 (NoDup_nth_error (map fst sdf)) Hnd).
    + rewrite length_map. apply nth_error_Some. congruence.
    + rewrite !nth_error_map, Hli, Hlj. reflexivity.
Qed.

Lemma iloc_positions {A B : Type} (g : A -> B) (P : nat -> B -> bool)
    (l : list A) :
  iloc l (map fst (filter (fun q => P (fst q) (g (snd q))) (indexed l)))
  = map snd (filter (fun q => P (fst q) (g (snd q))) (indexed l)).
Proof.
  unfold indexed at 1. fold (indexed_from 0 l).
  rewrite <- (map_fst_filter_indexed_map g P 0 l).
  apply iloc_filter_indexed.
Qed.

Lemma process_point_spec (sdf : list (nat * ORow)) (out : list ORow)
    (li i : nat) (cell : ORow) :
  NoDup (map fst sdf) ->
  nth_error sdf li = Some (i, cell) ->
  process_point sdf out li
    (map fst (filter (fun q => in_ball E radius_m (xy cell) (snd q))
                     (indexed (map (fun p => xy (snd p)) sdf))))
  = update_at i (point_update sdf i cell) out.
Proof.
  intros Hnd Hli. unfold process_point.
  rewrite Hli.
  rewrite filter_map_fst_comm, filter_filter.
  set (g := fun p : nat * ORow => xy (snd p)).
  set (P := fun (j : nat) (b : float * float) =>
              in_ball E radius_m (xy cell) b && negb (Nat.eqb j li)).
  change (filter _ (indexed (map g sdf)))
    with (filter (fun q => P (fst q) (snd q)) (indexed_from 0 (map g sdf))).
  rewrite (map_fst_filter_indexed_map g P 0 sdf).
  change (indexed_from 0 sdf) with (indexed sdf).
  rewrite (iloc_positions g P sdf).
  assert (Hnb : map snd (filter (fun q => P (fst q) (g (snd q))) (indexed sdf))
                = neighbors_in sdf i cell).
  { unfold neighbors_in.
    rewrite <- (map_snd_filter_indexed
      (fun p => negb (Nat.eqb (fst p) i)
                && in_ball E radius_m (xy cell) (xy (snd p))) sdf).
    f_equal. apply filter_ext_in. intros [lj [j row]] Hin.
    apply in_indexed in Hin. unfold P, g. simpl.
    rewrite (position_label sdf li lj i j cell row Hnd Hli Hin).
    apply andb_comm. }
  unfold point_update. rewrite <- Hnb.
  destruct (filter (fun q => P (fst q) (g (snd q))) (indexed sdf))
    as [|q qs] eqn:HF.
  - reflexivity.
  - assert (Hflt : filter (fun k => negb (Nat.eqb k i))
                          (map fst (map snd (q :: qs)))
                   = map fst (map snd (q :: qs))).
    { rewrite Hnb. apply forallb_filter_id. apply forallb_forall.
      intros k Hk. apply in_map_iff in Hk. destruct Hk as [[k' row] [<- Hk]].
      apply filter_In in Hk. destruct Hk as [_ Hk]. simpl in Hk.
      apply andb_true_iff in Hk. tauto. }
    rewrite Hflt. reflexivity.
Qed.

Lemma map_fst_scene_writes (sdf : list (nat * ORow)) :
    map fst (scene_writes sdf) = map fst sdf.
  Proof. unfold scene_writes. rewrite map_map. reflexivity. Qed.

Lemma process_scene_from (sdf pre l : list (nat * ORow)) (out : list ORow) :
  NoDup (map fst sdf) ->
  sdf = pre ++ l ->
  fold_left (fun o ln => process_point sdf o (fst ln) (snd ln))
    (indexed_from (length pre)
       (map (fun p => map fst (filter (fun q => in_ball E radius_m p (snd q))
                                      (indexed (map (fun p => xy (snd p)) sdf))))
            (map (fun p => xy (snd p)) l)))
    out
  = apply_writes
      (map (fun p => (fst p, point_update sdf (fst p) (snd p))) l) out.
Proof.
  intros Hnd. revert pre out.
  induction l as [|[i cell] l IH]; intros pre out Hsdf; [reflexivity|].
  cbn [map]. rewrite indexed_from_cons. unfold apply_writes. cbn [fold_left fst snd].
  rewrite (process_point_spec sdf out (length pre) i cell Hnd).
  - specialize (IH (pre ++ [(i, cell)]) (update_at i (point_update sdf i cell) out)).
    rewrite length_app, Nat.add_1_r in IH. apply IH.
    rewrite <- app_assoc. exact Hsdf.
  - rewrite Hsdf, nth_error_app2, Nat.sub_diag by lia. reflexivity.
Qed.

Lemma process_scene_spec (sdf : list (nat * ORow)) (out : list ORow) :
  NoDup (map fst sdf) ->
  process_scene out sdf = apply_writes (scene_writes sdf) out.
Proof.
  intro Hnd. unfold process_scene, query_ball_point.
  exact (process_scene_from sdf [] sdf out Hnd eq_refl).
Qed.

Lemma build_fold (groups : list (list (nat * ORow))) (out : list ORow) :
  Forall (fun sdf => NoDup (map fst sdf)) groups ->
  fold_left (process_scene) groups out
  = apply_writes (flat_map scene_writes groups) out.
Proof.
  revert out; induction groups as [|sdf groups IH]; intros out HF; [reflexivity|].
  inversion HF as [|? ? Hnd HF']; subst. simpl.
  unfold apply_writes. rewrite fold_left_app.
  rewrite process_scene_spec by assumption. apply IH. assumption.
Qed.

Lemma in_scene_frame (pool : list (nat * ORow)) (sid i : nat) (row : ORow) :
  In (i, row) (scene_frame pool sid) <-> In (i, row) pool /\ scene row = sid.
Proof.
  unfold scene_frame. rewrite filter_In. simpl. rewrite Nat.eqb_eq. tauto.
Qed.

Lemma in_pool_df (out : list ORow) (i : nat) (row : ORow) :
  In (i, row) (pool_df out) <-> nth_error out i = Some row /\ is_inlier row = true.
Proof.
  unfold pool_df. rewrite filter_In, in_indexed. simpl. tauto.
Qed.

Lemma NoDup_pool_df (out : list ORow) : NoDup (map fst (pool_df out)).
  Proof. apply NoDup_map_filter, NoDup_fst_indexed. Qed.

Lemma in_group_writes (pool : list (nat * ORow)) (sids : list nat) (i : nat) :
  In i (map fst (flat_map scene_writes (map (scene_frame pool) sids)))
  <-> exists row, In (i, row) pool /\ In (scene row) sids.
Proof.
  induction sids as [|sid sids IH]; simpl.
  - split; [tauto|]. intros [_ [_ []]].
  - rewrite map_app, in_app_iff, IH, map_fst_scene_writes. split.
    + intros [H|[row [H1 H2]]].
      * apply in_map_iff in H. destruct H as [[j row] [Hj H]]. simpl in Hj; subst j.
        apply in_scene_frame in H. destruct H as [H Hs].
        exists row. split; auto.
      * exists row. tauto.
    + intros [row [H1 [H2|H2]]].
      * left. apply in_map_iff. exists (i, row). split; auto.
        apply in_scene_frame. auto.
      * right. exists row. auto.
Qed.

Lemma NoDup_group_writes (pool : list (nat * ORow)) (sids : list nat) :
  NoDup (map fst pool) -> NoDup sids ->
  NoDup (map fst (flat_map scene_writes (map (scene_frame pool) sids))).
Proof.
  intros Hpool. induction 1 as [|sid sids Hnin Hnd IH]; simpl; [constructor|].
  rewrite map_app. apply NoDup_app; auto.
  - rewrite map_fst_scene_writes. apply NoDup_map_filter. assumption.
  - intros i Hi Hi'. rewrite map_fst_scene_writes in Hi.
    apply in_map_iff in Hi. destruct Hi as [[j row] [Hj Hi]]. simpl in Hj; subst j.
    apply in_scene_frame in Hi. destruct Hi as [Hi Hs].
    apply in_group_writes in Hi'. destruct Hi' as [row' [Hr Hs']].
    assert (row = row') by (eapply NoDup_map_inj_fst; eauto). subst row'.
    congruence.
Qed.

Lemma build_neighbors_nth (out : list ORow) (i : nat) :
  nth_error (build_neighbors out (pool_df out)) i
  = option_map (rebuilt_row out i) (nth_error out i).
Proof.
  unfold build_neighbors, groupby_scene.
  set (pool := pool_df out).
  set (sids := first_seen Nat.eqb (map (fun p => scene (snd p)) pool)).
  assert (Hsids : NoDup sids) by (apply NoDup_first_seen, Nat.eqb_eq).
  assert (Hin : forall row, In (i, row) pool -> In (scene row) sids).
  { intros row Hrow. apply (in_first_seen Nat.eqb Nat.eqb_eq).
    apply in_map_iff. exists (i, row). auto. }
  rewrite build_fold.
  2:{ apply Forall_forall. intros sdf Hsdf. apply in_map_iff in Hsdf.
      destruct Hsdf as [sid [<- _]]. apply NoDup_map_filter, NoDup_pool_df. }
  unfold apply_writes, rebuilt_row.
  destruct (nth_error out i) as [ri|] eqn:Hi; simpl.
  - destruct (is_inlier ri) eqn:Hri.
    + assert (Hp : In (i, ri) pool) by (apply in_pool_df; auto).
      rewrite (fold_writes_hit _ out i
                 (point_update (scene_frame pool (scene ri)) i ri)).
      * rewrite Hi. reflexivity.
      * apply NoDup_group_writes; auto. apply NoDup_pool_df.
      * apply in_flat_map. exists (scene_frame pool (scene ri)). split.
        -- apply in_map. auto.
        -- unfold scene_writes. apply in_map_iff. exists (i, ri). split; auto.
           apply in_scene_frame. auto.
    + rewrite fold_writes_other; auto.
      intro H. apply in_group_writes in H. destruct H as [row [H _]].
      apply in_pool_df in H. destruct H as [H1 H2]. congruence.
  - rewrite fold_writes_other; auto.
    intro H. apply in_group_writes in H. destruct H as [row [H _]].
    apply in_pool_df in H. destruct H as [H1 H2]. congruence.
Qed.


(** ** Binary64 comparisons and NaN *)

Section FloatFacts.
Local Open Scope float_scope.

Lemma SFcompare_refl_not_nan (f : spec_float) :
  SFeqb f f = false -> f = S754_nan.
Proof.
  destruct f as [s|s| |s m e]; unfold SFeqb; simpl; try discriminate; auto.
  - destruct s; discriminate.
  - rewrite Z.compare_refl, Pos.compare_cont_refl.
    destruct s; discriminate.
Qed.

Lemma is_nan_eq (x : float) : is_nan x = true -> x = nan.
Proof.
  unfold is_nan. rewrite FloatAxioms.eqb_spec. intro H.
  apply negb_true_iff in H. apply SFcompare_refl_not_nan in H.
  apply Prim2SF_inj. rewrite H. reflexivity.
Qed.

Lemma gtb_nan (x y : float) : is_nan x = true -> gtb x y = false.
Proof.
  intro H. apply is_nan_eq in H. subst x.
  unfold gtb. rewrite FloatAxioms.ltb_spec.
  destruct (Prim2SF y); reflexivity.
Qed.

Lemma np_round3_nan : np_round3 nan = nan.
  Proof. reflexivity. Qed.
End FloatFacts.

(** ** One iteration, row by row *)


Lemma body_nth (out : list ORow) (i : nat) :
  nth_error (iteration_body out) i = option_map (next_row out i) (nth_error out i).
Proof.
  unfold iteration_body, classify.
  rewrite nth_error_map, build_neighbors_nth.
  destruct (nth_error out i); reflexivity.
Qed.

Lemma body_length (out : list ORow) : length (iteration_body out) = length out.
Proof.
  assert (H1 : length (iteration_body out) <= length out).
  { apply nth_error_None. rewrite body_nth.
    rewrite (proj2 (nth_error_None out (length out))) by lia. reflexivity. }
  assert (H2 : length out <= length (iteration_body out)).
  { destruct (Nat.le_gt_cases (length out) (length (iteration_body out))) as [H|H]; auto.
    exfalso. assert (Hn := body_nth out (length (iteration_body out))).
    rewrite (proj2 (nth_error_None (iteration_body out) (length (iteration_body out)))) in Hn by lia.
    apply nth_error_Some in H.
    destruct (nth_error out (length (iteration_body out))); [discriminate|congruence]. }
  lia.
Qed.

Lemma body_eq (out : list ORow) :
  iteration_body out = map (fun p => next_row out (fst p) (snd p)) (indexed out).
Proof.
  apply nth_error_ext. intro i.
  rewrite body_nth, nth_error_map, nth_error_indexed.
  destruct (nth_error out i); reflexivity.
Qed.

(** *** Columns an iteration never writes *)

Lemma next_row_base (out : list ORow) (i : nat) (ri : ORow) :
  base (next_row out i ri) = base ri.
Proof.
  unfold next_row, rebuilt_row, point_update.
  destruct (is_inlier ri); [destruct (neighbors_in _ _ _)|]; reflexivity.
Qed.

Lemma next_row_scene (out : list ORow) (i : nat) (ri : ORow) :
  scene (next_row out i ri) = scene ri.
Proof.
  unfold next_row, rebuilt_row, point_update.
  destruct (is_inlier ri); [destruct (neighbors_in _ _ _)|]; reflexivity.
Qed.

Lemma next_row_bearing_rad (out : list ORow) (i : nat) (ri : ORow) :
  bearing_rad (next_row out i ri) = bearing_rad ri.
Proof.
  unfold next_row, rebuilt_row, point_update.
  destruct (is_inlier ri); [destruct (neighbors_in _ _ _)|]; reflexivity.
Qed.

Lemma next_row_xy (out : list ORow) (i : nat) (ri : ORow) :
    xy (next_row out i ri) = xy ri.
  Proof. unfold xy. rewrite next_row_base. reflexivity. Qed.

(** *** Categories *)

Lemma is_inlier_classified (r : ORow) :
  is_inlier (set_category r (category_of r)) = negb (flagged r).
Proof.
  unfold is_inlier, category_of, flagged, statistical_confidence_flag.
  cbn [outlier_category set_category].
  destruct (gtb (distance_z_score r) 3), (gtb (bearing_z_score r) 3),
    (min_neighbors <=? Z.of_nat (neighbor_count r))%Z; vm_compute; reflexivity.
Qed.

Lemma consistent_reason (r : ORow) : consistent r -> reason_consistent r.
Proof.
  unfold consistent, reason_consistent. intro H.
  rewrite <- is_inlier_classified. unfold is_inlier.
  cbn [outlier_category set_category]. rewrite <- H. reflexivity.
Qed.

Lemma next_row_consistent (out : list ORow) (i : nat) (ri : ORow) :
    consistent (next_row out i ri).
  Proof. reflexivity. Qed.

Lemma set_category_classified (r : ORow) :
  classified (set_category r (category_of r)).
Proof.
  unfold classified.
  cbn [distance_z_score bearing_z_score neighbor_count outlier_category set_category].
  split; [apply gtb_nan|]. split; [apply gtb_nan|].
  unfold category_of, statistical_confidence_flag, base_cat.
  destruct (gtb (distance_z_score r) 3), (gtb (bearing_z_score r) 3),
    (min_neighbors <=? Z.of_nat (neighbor_count r))%Z; vm_compute; auto.
Qed.

Lemma Forall2_indexed_from {A B : Type} (P : A -> B -> Prop)
    (f : nat * A -> B) (l : list A) : forall k : nat,
  (forall j x, P x (f (j, x))) ->
  Forall2 P l (map f (indexed_from k l)).
Proof.
  induction l as [|x l IH]; intros k H; [constructor|].
  rewrite indexed_from_cons. cbn [map]. constructor; [apply H|apply IH, H].
Qed.

Lemma next_row_excluded (out : list ORow) (i : nat) (ri : ORow) :
    is_inlier ri = false ->
    next_row out i ri = set_category ri (category_of ri).
  Proof. unfold next_row, rebuilt_row. intros ->. reflexivity. Qed.

(** Once flagged, always flagged. *)
Lemma next_row_stays_flagged (out : list ORow) (i : nat) (ri : ORow) :
  reason_consistent ri -> is_inlier ri = false ->
  is_inlier (next_row out i ri) = false.
Proof.
  intros Hc Hi. rewrite next_row_excluded by assumption.
  rewrite is_inlier_classified. rewrite <- Hc. assumption.
Qed.

Lemma next_row_count (out : list ORow) (i : nat) (ri : ORow) :
  is_inlier ri = true ->
  neighbor_count (next_row out i ri)
  = length (neighbors_in (scene_frame (pool_df out) (scene ri)) i ri).
Proof.
  unfold next_row, rebuilt_row, point_update. intros ->.
  destruct (neighbors_in _ _ _); simpl; auto.
  rewrite length_map. reflexivity.
Qed.

(** *** The pool and the neighbor sets after one iteration *)

Lemma indexed_body (out : list ORow) :
    indexed (iteration_body out) = map (relabel out) (indexed out).
  Proof. rewrite body_eq. apply indexed_map_indexed. Qed.

Lemma pool_df_body (out : list ORow) :
  pool_df (iteration_body out)
  = map (relabel out)
        (filter (fun p => is_inlier (next_row out (fst p) (snd p))) (indexed out)).
Proof.
  unfold pool_df. rewrite indexed_body, filter_map_swap. reflexivity.
Qed.

Lemma neighbors_now (out : list ORow) (i : nat) (ri : ORow) :
  neighbors_in (scene_frame (pool_df out) (scene ri)) i ri
  = filter (fun p => is_inlier (snd p) && near i ri p) (indexed out).
Proof.
  unfold neighbors_in, scene_frame, pool_df, near.
  rewrite !filter_filter. apply filter_ext. intro p.
  rewrite andb_assoc. reflexivity.
Qed.

Lemma neighbors_next (out : list ORow) (i : nat) (ri : ORow) :
  neighbors_in
    (scene_frame (pool_df (iteration_body out)) (scene (next_row out i ri))) i
    (next_row out i ri)
  = map (relabel out)
        (filter (fun p => is_inlier (next_row out (fst p) (snd p)) && near i ri p)
                (indexed out)).
Proof.
  rewrite neighbors_now, indexed_body, filter_map_swap.
  f_equal. apply filter_ext. intros [j rj].
  unfold near, relabel. cbn [fst snd].
  rewrite !next_row_scene, !next_row_xy. reflexivity.
Qed.

Lemma neighbors_shrink (out : list ORow) (i : nat) (ri : ORow) :
  Forall reason_consistent out ->
  length (neighbors_in
            (scene_frame (pool_df (iteration_body out)) (scene (next_row out i ri))) i
            (next_row out i ri))
  <= length (neighbors_in
               (scene_frame (pool_df out) (scene ri)) i ri).
Proof.
  intro Hc. rewrite neighbors_next, neighbors_now, length_map.
  apply filter_length_mono. intros [j rj] Hin H. cbn [fst snd] in *.
  apply andb_true_iff in H. destruct H as [H1 H2]. rewrite H2, andb_true_r.
  destruct (is_inlier rj) eqn:Hj; auto.
  rewrite next_row_stays_flagged in H1; auto.
  apply in_indexed in Hin. apply nth_error_In in Hin.
  rewrite Forall_forall in Hc. auto.
Qed.


(** *** The tables of a run *)

Lemma body_consistent (out : list ORow) : Forall consistent (iteration_body out).
Proof.
  rewrite body_eq. apply Forall_forall. intros r Hr.
  apply in_map_iff in Hr. destruct Hr as [p [<- _]]. apply next_row_consistent.
Qed.

Lemma body_reason_consistent (out : list ORow) :
  Forall reason_consistent (iteration_body out).
Proof.
  eapply Forall_impl; [|apply body_consistent]. apply consistent_reason.
Qed.

Lemma Inv_body (out : list ORow) : Inv out -> Inv (iteration_body out).
Proof.
  intros [Hc _]. split; [apply body_reason_consistent|].
  right. exists out. auto.
Qed.

Lemma Inv_prepare (df : list Row) : Inv (prepare df).
Proof.
  unfold prepare. split; [|left]; apply Forall_forall; intros r Hr;
    apply in_map_iff in Hr; destruct Hr as [x [<- _]]; reflexivity.
Qed.

Lemma shrinks_trans (a b c : list ORow) : shrinks a b -> shrinks b c -> shrinks a c.
Proof.
  intros (H1 & H2 & H3 & H4) (K1 & K2 & K3 & K4).
  split; [lia|]. split; [lia|]. split; [lia|].
  intros i r r'' Hr Hr'' Hf.
  destruct (nth_error b i) as [r'|] eqn:Hb.
  - eapply K4; eauto.
  - apply nth_error_None in Hb.
    assert (i < length a) by (apply nth_error_Some; congruence). lia.
Qed.

Lemma body_no_return (out : list ORow) :
  Forall reason_consistent out -> no_return out (iteration_body out).
Proof.
  intro Hc. split; [apply body_length|].
  intros i r r' Hr Hr' Hf. rewrite body_nth, Hr in Hr'.
  inversion Hr'; subst. apply next_row_stays_flagged; auto.
  rewrite Forall_forall in Hc. apply Hc. eapply nth_error_In; eauto.
Qed.

Lemma pool_shrinks (out : list ORow) :
  Forall reason_consistent out ->
  length (pool_df (iteration_body out)) <= length (pool_df out).
Proof.
  intro Hc. rewrite pool_df_body, length_map. unfold pool_df.
  apply filter_length_mono. intros [j rj] Hin H. cbn [fst snd] in *.
  destruct (is_inlier rj) eqn:Hj; auto.
  rewrite next_row_stays_flagged in H; auto.
  apply in_indexed in Hin. apply nth_error_In in Hin.
  rewrite Forall_forall in Hc. auto.
Qed.

Lemma inlier_count_indexed (out : list ORow) :
    inlier_count out = length (filter (fun p => is_01 (snd p)) (indexed out)).
  Proof. unfold inlier_count. symmetry. apply (length_filter_snd_indexed is_01). Qed.

Lemma inlier_count_body (out : list ORow) :
  inlier_count (iteration_body out)
  = length (filter (fun p => is_01 (next_row out (fst p) (snd p))) (indexed out)).
Proof.
  unfold inlier_count. fold is_01. rewrite body_eq, filter_map_swap, length_map.
  reflexivity.
Qed.

Lemma category_01 (r : ORow) :
  category_of r = "01"%string
  <-> flagged r = false /\ (min_neighbors <=? Z.of_nat (neighbor_count r))%Z = true.
Proof.
  unfold category_of, flagged, statistical_confidence_flag.
  destruct (gtb (distance_z_score r) 3), (gtb (bearing_z_score r) 3),
    (min_neighbors <=? Z.of_nat (neighbor_count r))%Z; vm_compute;
    split; intro H; try discriminate; auto; destruct H; discriminate.
Qed.

Lemma is_01_inlier (r : ORow) : is_01 r = true -> is_inlier r = true.
Proof.
  unfold is_01, is_inlier. intro H. apply String.eqb_eq in H. rewrite H.
  reflexivity.
Qed.

Lemma count_shrinks_first (out : list ORow) :
  Forall (fun r => outlier_category r = "01"%string) out ->
  inlier_count (iteration_body out) <= inlier_count out.
Proof.
  intro H. unfold inlier_count at 2. rewrite forallb_filter_id.
  - rewrite <- (body_length out). apply List.filter_length_le.
  - apply forallb_forall. intros r Hr. rewrite Forall_forall in H.
    rewrite (H r Hr). reflexivity.
Qed.

Lemma count_shrinks_later (prev : list ORow) :
  Forall reason_consistent prev ->
  inlier_count (iteration_body (iteration_body prev)) <= inlier_count (iteration_body prev).
Proof.
  intro Hc. rewrite inlier_count_body, inlier_count_indexed.
  apply filter_length_mono. intros [i r'] Hin H. cbn [fst snd] in *.
  apply in_indexed in Hin. rewrite body_nth in Hin.
  destruct (nth_error prev i) as [r|] eqn:Hr; [|discriminate].
  cbn [option_map] in Hin. inversion Hin as [Hr']. rewrite Hr' in *.
  assert (Hcr : reason_consistent r).
  { rewrite Forall_forall in Hc. apply Hc. eapply nth_error_In; eauto. }
  assert (Hi'' : is_inlier (next_row (iteration_body prev) i r') = true)
    by (apply is_01_inlier; assumption).
  assert (Hi' : is_inlier r' = true).
  { destruct (is_inlier r') eqn:Hx; auto.
    rewrite next_row_stays_flagged in Hi''; auto.
    apply consistent_reason. subst r'. apply next_row_consistent. }
  assert (Hi : is_inlier r = true).
  { destruct (is_inlier r) eqn:Hx; auto.
    rewrite <- Hr', next_row_stays_flagged in Hi'; auto. }
  unfold is_01 in *. apply String.eqb_eq in H. apply String.eqb_eq.
  assert (Hcons' : consistent r') by (subst r'; apply next_row_consistent).
  rewrite Hcons'. apply category_01.
  rewrite (next_row_consistent (iteration_body prev) i r') in H.
  apply category_01 in H. destruct H as [_ Hn].
  split.
  - rewrite (consistent_reason r' Hcons') in Hi'.
    apply negb_true_iff in Hi'. exact Hi'.
  - apply Z.leb_le. apply Z.leb_le in Hn.
    rewrite next_row_count in Hn by assumption.
    assert (Hs := neighbors_shrink prev i r Hc).
    rewrite Hr' in Hs.
    assert (Hn' : neighbor_count r'
                  = length (neighbors_in
                              (scene_frame (pool_df prev) (scene r)) i r)).
    { rewrite <- Hr'. apply next_row_count. assumption. }
    lia.
Qed.

Lemma body_shrinks (out : list ORow) : Inv out -> shrinks out (iteration_body out).
Proof.
  intros [Hc H]. split; [|split].
  - destruct H as [H|[prev [Hp ->]]].
    + apply count_shrinks_first; assumption.
    + apply count_shrinks_later; assumption.
  - apply pool_shrinks; assumption.
  - apply body_no_return; assumption.
Qed.

Lemma history_head (n : nat) (c : option nat) (out : list ORow) :
  exists rest, history n c out = out :: rest.
Proof.
  destruct n; simpl; [eexists; reflexivity|].
  destruct (stable c (inlier_count out)); eexists; reflexivity.
Qed.

Lemma history_Forall (P : list ORow -> Prop) (n : nat) (c : option nat)
    (out : list ORow) :
  (forall o, P o -> P (iteration_body o)) -> P out ->
  Forall P (history n c out).
Proof.
  intro Hstep. revert c out; induction n as [|n IH]; intros c out HP; simpl.
  - constructor; [assumption|constructor].
  - destruct (stable c (inlier_count out)).
    + constructor; [assumption|constructor].
    + constructor; [assumption|]. apply IH. apply Hstep. assumption.
Qed.

Lemma loop_history (n : nat) (c : option nat) (out : list ORow) (q : Quiver) :
  fst (loop n c out q)
  = last (history n c out) out.
Proof.
  revert c out q; induction n as [|n IH]; intros c out q; simpl; auto.
  destruct (stable c (inlier_count out)); simpl; auto.
  rewrite IH. fold (iteration_body out).
  destruct (history_head n (Some (inlier_count out)) (iteration_body out)) as [rest ->].
  apply last_nonempty.
Qed.

Lemma history_Sorted (n : nat) (c : option nat) (out : list ORow) :
  Inv out -> Sorted shrinks (history n c out).
Proof.
  revert c out; induction n as [|n IH]; intros c out HI; simpl.
  - repeat constructor.
  - destruct (stable c (inlier_count out)).
    + repeat constructor.
    + constructor.
      * apply IH. apply Inv_body. assumption.
      * fold (iteration_body out).
        destruct (history_head n (Some (inlier_count out)) (iteration_body out)) as [rest ->].
        constructor. apply body_shrinks. assumption.
Qed.


(** *** Neighbor bookkeeping *)

Lemma next_row_indices (out : list ORow) (i : nat) (ri : ORow) :
  is_inlier ri = true ->
  neighbor_indices (next_row out i ri)
  = match neighbors_in (scene_frame (pool_df out) (scene ri)) i ri with
    | [] => None
    | nb => Some (map fst nb)
    end.
Proof.
  unfold next_row, rebuilt_row, point_update. intros ->.
  destruct (neighbors_in _ _ _); reflexivity.
Qed.

Lemma in_neighbors_now (out : list ORow) (i j : nat) (ri rj : ORow) :
  In (j, rj) (neighbors_in (scene_frame (pool_df out) (scene ri)) i ri)
  <-> nth_error out j = Some rj /\ is_inlier rj = true /\ scene rj = scene ri
      /\ j <> i /\ in_ball E radius_m (xy ri) (xy rj) = true.
Proof.
  rewrite neighbors_now, filter_In, in_indexed. unfold near. cbn [fst snd].
  rewrite !andb_true_iff, negb_true_iff, Nat.eqb_eq, Nat.eqb_neq. tauto.
Qed.

Lemma NoDup_neighbors_now (out : list ORow) (i : nat) (ri : ORow) :
    NoDup (map fst (neighbors_in
                      (scene_frame (pool_df out) (scene ri)) i ri)).
  Proof. rewrite neighbors_now. apply NoDup_map_filter, NoDup_fst_indexed. Qed.

Lemma neighbors_ok_body (out : list ORow) :
  neighbors_ok out -> neighbors_ok (iteration_body out).
Proof.
  intros Hok i r' Hr'. rewrite body_nth in Hr'.
  destruct (nth_error out i) as [r|] eqn:Hr; [|discriminate].
  cbn [option_map] in Hr'. inversion Hr' as [Hr'']. clear Hr'.
  assert (Hscene : forall j rj, nth_error out j = Some rj -> scene rj = scene r ->
             exists rj', nth_error (iteration_body out) j = Some rj'
                         /\ scene rj' = scene (next_row out i r)).
  { intros j rj Hj Hs. exists (next_row out j rj). split.
    - rewrite body_nth, Hj. reflexivity.
    - rewrite !next_row_scene. assumption. }
  destruct (is_inlier r) eqn:Hin.
  - rewrite next_row_count, next_row_indices by assumption.
    destruct (neighbors_in (scene_frame (pool_df out) (scene r)) i r)
      as [|p nb] eqn:Hn.
    + left. auto.
    + right. exists (map fst (p :: nb)). split; [reflexivity|].
      split; [symmetry; apply length_map|]. split.
      * rewrite <- Hn. apply NoDup_neighbors_now.
      * intros j Hj. apply in_map_iff in Hj. destruct Hj as [[j' rj] [Hjj Hj]].
        cbn [fst] in Hjj. subst j'. rewrite <- Hn in Hj.
        apply in_neighbors_now in Hj. destruct Hj as (H1 & H2 & H3 & H4 & H5).
        split; auto. eapply Hscene; eauto.
  - rewrite next_row_excluded by assumption.
    cbn [neighbor_count neighbor_indices set_category].
    destruct (Hok i r Hr) as [H|[l (H1 & H2 & H3 & H4)]]; [left; assumption|].
    right. exists l. repeat split; auto.
    + apply (H4 j H).
    + destruct (H4 j H) as [_ [rj [Hj Hs]]].
      destruct (Hscene j rj Hj Hs) as [rj' [Hj' Hs']]. exists rj'. split; auto.
      rewrite Hs'. rewrite next_row_excluded by assumption. reflexivity.
Qed.

Lemma neighbors_ok_prepare (df : list Row) : neighbors_ok (prepare df).
Proof.
  intros i r Hr. left. unfold prepare in Hr.
  rewrite nth_error_map in Hr.
  destruct (nth_error (sort_values df) i); [|discriminate].
  inversion Hr. split; reflexivity.
Qed.

(** *** The neighbor set and the z-scores written for a pool member *)

Lemma recorded_neighbors_next (out : list ORow) (i : nat) (ri : ORow) :
  is_inlier ri = true ->
  recorded_neighbors (next_row out i ri)
  = map fst (neighbors_in (scene_frame (pool_df out) (scene ri)) i ri).
Proof.
  intro H. unfold recorded_neighbors. rewrite next_row_indices by assumption.
  destruct (neighbors_in _ _ _); reflexivity.
Qed.

Lemma neighbor_set_exact (out : list ORow) (i : nat) (ri ri' : ORow) :
  nth_error out i = Some ri ->
  is_inlier ri = true ->
  nth_error (iteration_body out) i = Some ri' ->
  NoDup (recorded_neighbors ri')
  /\ neighbor_count ri' = length (recorded_neighbors ri')
  /\ forall j, In j (recorded_neighbors ri') <->
       j <> i /\ exists rj, nth_error out j = Some rj
                            /\ is_inlier rj = true
                            /\ scene rj = scene ri
                            /\ in_ball E radius_m (xy ri) (xy rj) = true.
Proof.
  intros Hi Hin Hi'. rewrite body_nth, Hi in Hi'. inversion Hi' as [Heq]. clear Hi'.
  rewrite recorded_neighbors_next, next_row_count by assumption.
  split; [apply NoDup_neighbors_now|]. split; [symmetry; apply length_map|].
  intro j. rewrite in_map_iff. split.
  - intros [[j' rj] [Hj H]]. cbn [fst] in Hj. subst j'.
    apply in_neighbors_now in H. destruct H as (H1 & H2 & H3 & H4 & H5).
    split; auto. exists rj. auto.
  - intros [Hne [rj (H1 & H2 & H3 & H4)]]. exists (j, rj). split; auto.
    apply in_neighbors_now. auto.
Qed.

Lemma reason_digit_unflagged (r : ORow) :
  flagged r = false ->
  reason_digit (set_category r (category_of r)) = Some "0"%char.
Proof.
  unfold flagged, reason_digit, category_of, statistical_confidence_flag.
  cbn [outlier_category set_category]. intro H.
  apply orb_false_iff in H. destruct H as [-> ->].
  destruct (min_neighbors <=? Z.of_nat (neighbor_count r))%Z; reflexivity.
Qed.

Lemma degenerate_rows (out : list ORow) (i : nat) (ri ri' : ORow) :
  nth_error out i = Some ri ->
  is_inlier ri = true ->
  nth_error (iteration_body out) i = Some ri' ->
  let nb := neighbors_in (scene_frame (pool_df out) (scene ri)) i ri in
  let dist_std := np_nanstd (map (fun p => total_distance_km (base (snd p))) nb) in
  let bear_std := circular_std E (map (fun p => bearing_rad (snd p)) nb) in
  (nb = [] ->
     neighbor_count ri' = 0 /\ neighbor_indices ri' = None
     /\ distance_z_score ri' = nan /\ bearing_z_score ri' = nan
     /\ reason_digit ri' = Some "0"%char)
  /\ (PrimFloat.eqb dist_std 0 = true \/ is_nan dist_std = true ->
      distance_z_score ri' = nan)
  /\ (PrimFloat.eqb bear_std 0 = true \/ is_nan bear_std = true ->
      bearing_z_score ri' = nan).
Proof.
  intros Hi Hin Hi'. rewrite body_nth, Hi in Hi'. inversion Hi' as [Heq]. clear Hi'.
  unfold next_row, rebuilt_row. rewrite Hin. unfold point_update.
  destruct (neighbors_in (scene_frame (pool_df out) (scene ri)) i ri) as [|p nb] eqn:Hn;
    cbv zeta.
  - split; [|split]; intros _.
    + do 4 (split; [reflexivity|]).
      apply reason_digit_unflagged. reflexivity.
    + reflexivity.
    + reflexivity.
  - split; [intro H; discriminate|].
    cbn [distance_z_score bearing_z_score set_category set_stats].
    split; intro H.
    + unfold dist_z.
      replace (_ || _) with true; [reflexivity|].
      symmetry. apply orb_true_iff. exact H.
    + unfold bear_z.
      replace (_ || _) with true; [reflexivity|].
      symmetry. apply orb_true_iff. exact H.
Qed.

(** *** A stable pool is a fixed point *)

Lemma point_update_stats (sdf : list (nat * ORow)) (i : nat) (cell r : ORow) :
  point_update sdf i cell r
  = stats_of (map fst (neighbors_in sdf i cell))
             (map (fun p => total_distance_km (base (snd p))) (neighbors_in sdf i cell))
             (map (fun p => bearing_rad (snd p)) (neighbors_in sdf i cell))
             (total_distance_km (base cell)) (bearing_rad cell) r.
Proof.
  unfold point_update, stats_of. destruct (neighbors_in sdf i cell); reflexivity.
Qed.

Lemma stats_of_again (idx : list nat) (dists bears : list float)
    (cd cb : float) (r : ORow) (c : string) :
  stats_of idx dists bears cd cb (set_category (stats_of idx dists bears cd cb r) c)
  = set_category (stats_of idx dists bears cd cb r) c.
Proof. unfold stats_of. destruct idx; reflexivity. Qed.

Lemma same_pool_rows (prev : list ORow) :
  Forall reason_consistent prev ->
  length (pool_df (iteration_body prev)) = length (pool_df prev) ->
  forall p, In p (indexed prev) ->
    is_inlier (next_row prev (fst p) (snd p)) = is_inlier (snd p).
Proof.
  intros Hc Hlen. apply filter_same_length_eq.
  - intros [j rj] Hin H. cbn [fst snd] in *.
    destruct (is_inlier rj) eqn:Hj; auto.
    rewrite next_row_stays_flagged in H; auto.
    apply in_indexed in Hin. apply nth_error_In in Hin.
    rewrite Forall_forall in Hc. auto.
  - rewrite pool_df_body, length_map in Hlen. exact Hlen.
Qed.

Lemma stable_pool_row (prev : list ORow) (i : nat) (r : ORow) :
  Forall reason_consistent prev ->
  length (pool_df (iteration_body prev)) = length (pool_df prev) ->
  nth_error prev i = Some r ->
  next_row (iteration_body prev) i (next_row prev i r) = next_row prev i r.
Proof.
  intros Hc Hlen Hi.
  assert (Hsame := same_pool_rows prev Hc Hlen).
  assert (Hri : is_inlier (next_row prev i r) = is_inlier r).
  { apply (Hsame (i, r)). apply in_indexed. assumption. }
  destruct (is_inlier r) eqn:Hin.
  - unfold next_row at 1. unfold rebuilt_row. rewrite Hri.
    rewrite point_update_stats, neighbors_next.
    replace (filter (fun p => is_inlier (next_row prev (fst p) (snd p)) && near i r p)
                    (indexed prev))
      with (neighbors_in (scene_frame (pool_df prev) (scene r)) i r).
    2:{ rewrite neighbors_now. apply filter_ext_in. intros p Hp.
        rewrite (Hsame p Hp). reflexivity. }
    rewrite !map_map. unfold relabel. cbn [fst snd].
    rewrite next_row_base, next_row_bearing_rad.
    replace (map (fun p : nat * ORow =>
                    total_distance_km (base (next_row prev (fst p) (snd p)))) _)
      with (map (fun p : nat * ORow => total_distance_km (base (snd p)))
                (neighbors_in (scene_frame (pool_df prev) (scene r)) i r)).
    2:{ apply map_ext. intro p. rewrite next_row_base. reflexivity. }
    replace (map (fun p : nat * ORow =>
                    bearing_rad (next_row prev (fst p) (snd p))) _)
      with (map (fun p : nat * ORow => bearing_rad (snd p))
                (neighbors_in (scene_frame (pool_df prev) (scene r)) i r)).
    2:{ apply map_ext. intro p. rewrite next_row_bearing_rad. reflexivity. }
    unfold next_row, rebuilt_row. rewrite Hin, point_update_stats.
    rewrite stats_of_again. reflexivity.
  - rewrite (next_row_excluded (iteration_body prev)) by assumption.
    rewrite next_row_excluded by assumption. reflexivity.
Qed.

Lemma stable_pool_fixed (prev : list ORow) :
  Forall reason_consistent prev ->
  length (pool_df (iteration_body prev)) = length (pool_df prev) ->
  iteration_body (iteration_body prev) = iteration_body prev.
Proof.
  intros Hc Hlen. apply nth_error_ext. intro i.
  rewrite (body_nth (iteration_body prev)), (body_nth prev).
  destruct (nth_error prev i) as [r|] eqn:Hi; [|reflexivity].
  cbn [option_map]. f_equal. apply stable_pool_row; assumption.
Qed.

(** *** Sorting by scene and the columns that are never written *)

Lemma string_compare_refl (s : string) : String.compare s s = Eq.
Proof.
  assert (H := String.compare_antisym s s).
  destruct (String.compare s s); simpl in H; auto; discriminate.
Qed.

Lemma key_le_same (k x y : Row) :
  key_eqb k x = true -> key_eqb k y = true -> key_le x y = true.
Proof.
  unfold key_eqb, key_le. intros Hx Hy.
  apply andb_true_iff in Hx, Hy. destruct Hx as [Hx1 Hx2], Hy as [Hy1 Hy2].
  apply String.eqb_eq in Hx1, Hx2, Hy1, Hy2.
  rewrite <- Hx1, <- Hx2, <- Hy1, <- Hy2.
  rewrite string_compare_refl. unfold String.leb.
  rewrite string_compare_refl. reflexivity.
Qed.

Lemma key_le_total (a b : Row) : key_le a b = false -> key_le b a = true.
Proof.
  unfold key_le, String.leb.
  rewrite (String.compare_antisym (File1 b) (File1 a)).
  rewrite (String.compare_antisym (File2 b) (File2 a)).
  destruct (String.compare (File1 a) (File1 b)); simpl; auto;
    destruct (String.compare (File2 a) (File2 b)); simpl; auto; discriminate.
Qed.

Lemma insert_row_perm (x : Row) (l : list Row) :
  Permutation (x :: l) (insert_row x l).
Proof.
  induction l as [|y l IH]; simpl; auto.
  destruct (key_le x y); auto.
  apply perm_trans with (y :: x :: l); [apply perm_swap|].
  apply perm_skip. assumption.
Qed.

Lemma sort_values_perm (df : list Row) : Permutation df (sort_values df).
Proof.
  induction df as [|x df IH]; simpl; auto.
  apply perm_trans with (x :: sort_values df); auto.
  apply insert_row_perm.
Qed.

Lemma insert_row_sorted (x : Row) (l : list Row) :
  Sorted by_key l -> Sorted by_key (insert_row x l).
Proof.
  induction l as [|y l IH]; simpl; intro Hs.
  - repeat constructor.
  - destruct (key_le x y) eqn:Hxy.
    + constructor; [assumption|]. constructor. exact Hxy.
    + inversion Hs as [|? ? Hs' Hhd]; subst.
      constructor; [apply IH; assumption|].
      destruct l as [|z l]; simpl.
      * constructor. apply key_le_total. assumption.
      * destruct (key_le x z).
        -- constructor. apply key_le_total. assumption.
        -- inversion Hhd; subst. constructor. assumption.
Qed.

Lemma sort_values_sorted (df : list Row) : Sorted by_key (sort_values df).
Proof.
  induction df as [|x df IH]; simpl; [constructor|].
  apply insert_row_sorted. assumption.
Qed.

Lemma filter_insert_row (k x : Row) (l : list Row) :
  filter (key_eqb k) (insert_row x l)
  = if key_eqb k x then x :: filter (key_eqb k) l else filter (key_eqb k) l.
Proof.
  induction l as [|y l IH]; simpl; auto.
  destruct (key_le x y) eqn:Hxy; simpl.
  - reflexivity.
  - rewrite IH. destruct (key_eqb k y) eqn:Hy; auto.
    destruct (key_eqb k x) eqn:Hx; auto.
    rewrite (key_le_same k x y Hx Hy) in Hxy. discriminate.
Qed.

Lemma sort_values_stable (k : Row) (df : list Row) :
  filter (key_eqb k) (sort_values df) = filter (key_eqb k) df.
Proof.
  induction df as [|x df IH]; simpl; auto.
  rewrite filter_insert_row, IH. reflexivity.
Qed.

Lemma sort_values_sorted_id (df : list Row) :
  Sorted by_key df -> sort_values df = df.
Proof.
  induction df as [|x df IH]; simpl; auto. intro Hs.
  inversion Hs as [|? ? Hs' Hhd]; subst. rewrite IH by assumption.
  destruct df as [|y df]; simpl; auto.
  inversion Hhd as [|? ? Hxy]; subst. unfold by_key in Hxy. rewrite Hxy. reflexivity.
Qed.

Lemma map_base_prepare (df : list Row) : map base (prepare df) = sort_values df.
Proof.
  unfold prepare. rewrite map_map. cbn [base init_row]. apply map_id.
Qed.

Lemma next_row_fixed (out : list ORow) (i : nat) (ri : ORow) :
  fixed_columns (next_row out i ri) = fixed_columns ri.
Proof.
  unfold next_row, rebuilt_row, point_update.
  destruct (is_inlier ri); [destruct (neighbors_in _ _ _)|]; reflexivity.
Qed.

Lemma body_fixed (out : list ORow) :
  map fixed_columns (iteration_body out) = map fixed_columns out.
Proof.
  rewrite body_eq, map_map.
  rewrite <- (map_snd_indexed out) at 2. rewrite map_map.
  apply map_ext. intros [i r]. apply next_row_fixed.
Qed.

Lemma loop_fixed (n : nat) (c : option nat) (out : list ORow) (q : Quiver) :
  map fixed_columns (fst (loop n c out q)) = map fixed_columns out.
Proof.
  revert c out q; induction n as [|n IH]; intros c out q; simpl; auto.
  destruct (stable c (inlier_count out)); simpl; auto.
  rewrite IH. apply body_fixed.
Qed.

Lemma loop_base (n : nat) (c : option nat) (out : list ORow) (q : Quiver) :
  map base (fst (loop n c out q)) = map base out.
Proof.
  assert (H := loop_fixed n c out q).
  apply (f_equal (map (fun t : Row * float * float * float * nat =>
                         fst (fst (fst (fst t)))))) in H.
  rewrite !map_map in H. exact H.
Qed.

(** *** The clamp of circular_std *)

Lemma SFeqb_refl (f : spec_float) : f <> S754_nan -> SFeqb f f = true.
Proof.
  destruct f as [s|s| |s m e]; unfold SFeqb; simpl; intro H.
  - reflexivity.
  - destruct s; reflexivity.
  - exfalso. apply H. reflexivity.
  - rewrite Z.compare_refl, Pos.compare_cont_refl. destruct s; reflexivity.
Qed.

Lemma leb_not_nan_r (x y : float) : PrimFloat.leb x y = true -> is_nan y = false.
Proof.
  rewrite FloatAxioms.leb_spec. unfold is_nan. rewrite FloatAxioms.eqb_spec.
  intro H. rewrite SFeqb_refl; [reflexivity|].
  intro Hn. rewrite Hn in H. destruct (Prim2SF x); discriminate.
Qed.

Lemma leb_not_nan_l (x y : float) : PrimFloat.leb x y = true -> is_nan x = false.
Proof.
  rewrite FloatAxioms.leb_spec. unfold is_nan. rewrite FloatAxioms.eqb_spec.
  intro H. rewrite SFeqb_refl; [reflexivity|].
  intro Hn. rewrite Hn in H. discriminate.
Qed.

Lemma above_one (x : float) :
  PrimFloat.leb 1 x = true ->
  PrimFloat.ltb clamp_floor x = true /\ PrimFloat.ltb x 1 = false.
Proof.
  rewrite FloatAxioms.leb_spec, !FloatAxioms.ltb_spec.
  change (Prim2SF 1) with (S754_finite false 4503599627370496 (-52)).
  change (Prim2SF clamp_floor) with (S754_finite false 4951760157141521 (-92)).
  destruct (Prim2SF x) as [s|s| |s m e]; unfold SFleb, SFltb, SFcompare;
    try discriminate.
  - destruct s; [discriminate|]. auto.
  - destruct s; [discriminate|].
    destruct (Z.compare_spec (-52) e) as [He|He|He]; try discriminate.
    + subst e. intro H. split; [reflexivity|].
      cbv iota. rewrite (ZC4 m 4503599627370496).
      destruct (Pos.compare_cont Eq 4503599627370496 m); try discriminate; reflexivity.
    + intros _. 
      replace ((-92 ?= e)%Z) with Lt by (symmetry; apply Z.compare_lt_iff; lia).
      replace ((e ?= -52)%Z) with Gt by (symmetry; apply Z.compare_gt_iff; lia).
      auto.
Qed.

Lemma below_floor (x : float) :
  PrimFloat.leb x clamp_floor = true -> PrimFloat.ltb clamp_floor x = false.
Proof.
  rewrite FloatAxioms.leb_spec, FloatAxioms.ltb_spec.
  change (Prim2SF clamp_floor) with (S754_finite false 4951760157141521 (-92)).
  destruct (Prim2SF x) as [s|s| |s m e]; unfold SFleb, SFltb, SFcompare;
    try discriminate; try reflexivity.
  - destruct s; [reflexivity|discriminate].
  - destruct s; [reflexivity|].
    destruct (Z.compare_spec e (-92)) as [He|He|He]; try discriminate.
    + subst e. intro H. change ((-92 ?= -92)%Z) with Eq. cbv iota.
      rewrite (ZC4 4951760157141521 m).
      destruct (Pos.compare_cont Eq m 4951760157141521); try discriminate; reflexivity.
    + intros _.
      replace ((-92 ?= e)%Z) with Gt by (symmetry; apply Z.compare_gt_iff; lia).
      reflexivity.
Qed.

Lemma clip_above_one (x : float) :
  PrimFloat.leb 1 x = true -> np_clip x clamp_floor clamp_ceiling = 1%float.
Proof.
  intro H. destruct (above_one x H) as [H1 H2].
  unfold np_clip, np_maximum, np_minimum, clamp_ceiling.
  rewrite H1, orb_true_r, (leb_not_nan_r 1 x H), H2. reflexivity.
Qed.

Lemma clip_below_floor (x : float) :
  PrimFloat.leb x clamp_floor = true -> np_clip x clamp_floor clamp_ceiling = clamp_floor.
Proof.
  intro H. unfold np_clip, np_maximum, np_minimum.
  rewrite (below_floor x H), (leb_not_nan_l x clamp_floor H). reflexivity.
Qed.

(** *** Sums *)

Lemma add_zero_r (x : float) : (x + 0 = x \/ (x = -0 /\ x + 0 = 0))%float.
Proof.
  destruct (Prim2SF x) as [[|]| | |] eqn:H.
  - right. assert (x = (-0)%float) as -> by (apply Prim2SF_inj; rewrite H; reflexivity).
    split; reflexivity.
  - left. apply Prim2SF_inj. rewrite add_spec, H. reflexivity.
  - left. apply Prim2SF_inj. rewrite add_spec, H. reflexivity.
  - left. apply Prim2SF_inj. rewrite add_spec, H. reflexivity.
  - left. apply Prim2SF_inj. rewrite add_spec, H. reflexivity.
Qed.

Lemma add_zero_sign (x : float) : (0 + x = -0 + x \/ x = -0)%float.
Proof.
  destruct (Prim2SF x) as [[|]| | |] eqn:H.
  - right. apply Prim2SF_inj. rewrite H. reflexivity.
  - left. apply Prim2SF_inj. rewrite !add_spec, H. reflexivity.
  - left. apply Prim2SF_inj. rewrite !add_spec, H. reflexivity.
  - left. apply Prim2SF_inj. rewrite !add_spec, H. reflexivity.
  - left. apply Prim2SF_inj. rewrite !add_spec, H. reflexivity.
Qed.

(** Two running sums that agree, or are [0.0] and [-0.0], stay so when the
    same entry is added to both ... *)
Lemma add_same (G F x : float) :
  (G = F \/ (G = 0 /\ F = -0))%float ->
  (G + x = F + x \/ (G + x = 0 /\ F + x = -0))%float.
Proof.
  intros [->|[-> ->]]; [left; reflexivity|].
  destruct (add_zero_sign x) as [H| ->]; [left; exact H|].
  right. split; reflexivity.
Qed.

(** ... and when [0.0] is added to the first only. *)
Lemma add_zero_only (G F : float) :
  (G = F \/ (G = 0 /\ F = -0))%float ->
  (G + 0 = F \/ (G + 0 = 0 /\ F = -0))%float.
Proof.
  intros [->|[-> ->]].
  - destruct (add_zero_r F) as [H|[-> H]]; [left; exact H|].
    right. split; reflexivity.
  - right. split; reflexivity.
Qed.

Lemma fold_add_start (xs : list float) : forall G F : float,
  (G = F \/ (G = 0 /\ F = -0))%float ->
  (fold_left add xs G = fold_left add xs F
   \/ (fold_left add xs G = 0 /\ fold_left add xs F = -0))%float.
Proof.
  induction xs as [|x xs IH]; intros G F H; [exact H|].
  cbn [fold_left]. apply IH, add_same, H.
Qed.

Lemma fold_add_replace_nan (xs : list float) : forall G F : float,
  (G = F \/ (G = 0 /\ F = -0))%float ->
  (fold_left add (replace_nan xs) G
   = fold_left add (filter (fun x => negb (is_nan x)) xs) F
   \/ (fold_left add (replace_nan xs) G = 0
       /\ fold_left add (filter (fun x => negb (is_nan x)) xs) F = -0))%float.
Proof.
  induction xs as [|x xs IH]; intros G F H; [exact H|].
  cbn [replace_nan map filter fold_left]. fold (replace_nan xs).
  destruct (is_nan x); cbn [negb fold_left].
  - apply IH, add_zero_only, H.
  - apply IH, add_same, H.
Qed.

Lemma zero_add_start (G F : float) :
  (G = F \/ (G = 0 /\ F = -0))%float -> (0 + G = 0 + F)%float.
Proof. intros [->|[-> ->]]; reflexivity. Qed.

Lemma block_sum_short (xs : list float) :
  (length xs < 8)%nat -> block_sum xs = fold_left add xs (-0)%float.
Proof.
  intro H. do 8 (destruct xs as [|? xs]; [reflexivity|]).
  cbn [length] in H. lia.
Qed.

Lemma pairwise_sum_block (fuel : nat) (xs : list float) :
  (length xs <= 128)%nat -> pairwise_sum fuel xs = block_sum xs.
Proof.
  intro H. destruct fuel as [|fuel]; [reflexivity|].
  cbn [pairwise_sum]. apply Nat.leb_le in H. rewrite H. reflexivity.
Qed.

(** The split leaves two shorter, non-empty parts. *)
Lemma split_point (n : nat) :
  (128 < n)%nat ->
  (0 < n / 2 - (n / 2) mod 8 < n)%nat.
Proof.
  intro H.
  pose proof (Nat.div_mod_eq n 2) as H2.
  pose proof (Nat.mod_upper_bound n 2 ltac:(lia)) as H3.
  pose proof (Nat.mod_upper_bound (n / 2) 8 ltac:(lia)) as H4.
  lia.
Qed.

(** Fuel: the depth bound never cuts the recursion short. *)
Lemma pairwise_sum_any_fuel (f : nat) : forall (g : nat) (xs : list float),
  (length xs <= f)%nat -> (length xs <= g)%nat ->
  pairwise_sum f xs = pairwise_sum g xs.
Proof.
  induction f as [|f IH]; intros g xs Hf Hg.
  - rewrite !pairwise_sum_block by lia. reflexivity.
  - destruct g as [|g]; [rewrite !pairwise_sum_block by lia; reflexivity|].
    cbn [pairwise_sum]. destruct (length xs <=? 128)%nat eqn:Hn; [reflexivity|].
    apply Nat.leb_gt in Hn. pose proof (split_point _ Hn) as Hs.
    rewrite (IH g (firstn _ xs)), (IH g (skipn _ xs)); [reflexivity| | | |];
      rewrite ?length_firstn, ?length_skipn; lia.
Qed.

Lemma pairwise_sum_fuel (f : nat) (xs : list float) :
  (length xs <= f)%nat -> pairwise_sum f xs = pairwise_sum (length xs) xs.
Proof. intro H. apply pairwise_sum_any_fuel; [exact H|lia]. Qed.

(** A list longer than 128 is summed as its two parts are. *)
Lemma np_sum_split (xs : list float) :
  (128 < length xs)%nat ->
  np_sum xs
  = (0 + (pairwise_sum (length xs) (firstn (length xs / 2 - (length xs / 2) mod 8) xs)
          + pairwise_sum (length xs) (skipn (length xs / 2 - (length xs / 2) mod 8) xs)))%float.
Proof.
  intro H. unfold np_sum. pose proof (split_point _ H) as Hs.
  set (n2 := (length xs / 2 - (length xs / 2) mod 8)%nat) in *.
  set (R := (pairwise_sum (length xs) (firstn n2 xs)
             + pairwise_sum (length xs) (skipn n2 xs))%float).
  rewrite (pairwise_sum_any_fuel (length xs) (S (length xs)) xs) by lia.
  cbn [pairwise_sum]. apply Nat.leb_gt in H. rewrite H. fold n2. subst R.
  reflexivity.
Qed.

(** Fewer than 8 entries are added from left to right; the start of the
    loop, [0.0] or [-0.0], makes no difference. *)
Lemma np_sum_short (xs : list float) :
  (length xs < 8)%nat ->
  np_sum xs = (0 + fold_left add xs (-0))%float
  /\ np_sum xs = (0 + fold_left add xs 0)%float.
Proof.
  intro H. unfold np_sum.
  rewrite pairwise_sum_block, block_sum_short by lia.
  split; [reflexivity|]. symmetry. apply zero_add_start, fold_add_start.
  right. split; reflexivity.
Qed.

(** Zeros add up to zero, in any order. *)
Lemma zero_add_zero (a b : float) :
  (a = 0 \/ a = -0)%float -> (b = 0 \/ b = -0)%float ->
  (a + b = 0 \/ a + b = -0)%float.
Proof. intros [->| ->] [->| ->]; (left; reflexivity) || (right; reflexivity). Qed.

Lemma fold_zeros (xs : list float) : forall G : float,
  Forall (fun x => x = 0%float) xs -> (G = 0 \/ G = -0)%float ->
  (fold_left add xs G = 0 \/ fold_left add xs G = -0)%float.
Proof.
  induction xs as [|x xs IH]; intros G Hxs HG; [exact HG|].
  inversion Hxs as [|? ? Hx Hxs']; subst. cbn [fold_left].
  apply IH; [exact Hxs'|]. apply zero_add_zero; [exact HG|left; reflexivity].
Qed.

Lemma accumulate_zeros (n : nat) : forall (xs : list float) (r0 r1 r2 r3 r4 r5 r6 r7 : float),
  (length xs <= n)%nat ->
  Forall (fun x => x = 0%float) xs ->
  (r0 = 0 \/ r0 = -0)%float -> (r1 = 0 \/ r1 = -0)%float ->
  (r2 = 0 \/ r2 = -0)%float -> (r3 = 0 \/ r3 = -0)%float ->
  (r4 = 0 \/ r4 = -0)%float -> (r5 = 0 \/ r5 = -0)%float ->
  (r6 = 0 \/ r6 = -0)%float -> (r7 = 0 \/ r7 = -0)%float ->
  (accumulate r0 r1 r2 r3 r4 r5 r6 r7 xs = 0
   \/ accumulate r0 r1 r2 r3 r4 r5 r6 r7 xs = -0)%float.
Proof.
  induction n as [|n IH]; intros xs r0 r1 r2 r3 r4 r5 r6 r7 Hn Hxs H0 H1 H2 H3 H4 H5 H6 H7.
  - destruct xs; [|cbn [length] in Hn; lia]. cbn [accumulate fold_left].
    repeat apply zero_add_zero; assumption.
  - do 8 (destruct xs as [|? xs];
          [cbn [accumulate]; apply fold_zeros;
           [exact Hxs | repeat apply zero_add_zero; assumption]|]).
    cbn [accumulate].
    repeat match goal with
           | H : Forall _ (_ :: _) |- _ => inversion H; subst; clear H
           end.
    cbn [length] in Hn.
    apply IH;
      first [lia | assumption | apply zero_add_zero; [assumption|left; reflexivity]].
Qed.

Lemma block_sum_zeros (xs : list float) :
  Forall (fun x => x = 0%float) xs ->
  (block_sum xs = 0 \/ block_sum xs = -0)%float.
Proof.
  intro H. unfold block_sum.
  do 8 (destruct xs as [|? xs];
        [apply fold_zeros; [exact H|right; reflexivity]|]).
  repeat match goal with
         | H : Forall _ (_ :: _) |- _ => inversion H; subst; clear H
         end.
  apply (accumulate_zeros (length xs));
    first [lia | assumption | left; reflexivity].
Qed.

Lemma Forall_firstn_skipn {A : Type} (P : A -> Prop) (n : nat) (xs : list A) :
  Forall P xs -> Forall P (firstn n xs) /\ Forall P (skipn n xs).
Proof.
  intro H. rewrite <- (firstn_skipn n xs) in H.
  apply Forall_app in H. exact H.
Qed.

Lemma pairwise_sum_zeros (fuel : nat) : forall xs : list float,
  Forall (fun x => x = 0%float) xs ->
  (pairwise_sum fuel xs = 0 \/ pairwise_sum fuel xs = -0)%float.
Proof.
  induction fuel as [|fuel IH]; intros xs H; [apply block_sum_zeros, H|].
  cbn [pairwise_sum]. destruct (length xs <=? 128)%nat; [apply block_sum_zeros, H|].
  destruct (Forall_firstn_skipn _ (length xs / 2 - (length xs / 2) mod 8) xs H).
  apply zero_add_zero; apply IH; assumption.
Qed.

Lemma np_sum_zeros (xs : list float) :
  Forall (fun x => is_nan x = true) xs ->
  np_sum (replace_nan xs) = 0%float /\ count_not_nan xs = 0%nat.
Proof.
  intro H. split.
  - unfold np_sum.
    destruct (pairwise_sum_zeros (length (replace_nan xs)) (replace_nan xs)) as [-> | ->];
      try reflexivity.
    unfold replace_nan. apply Forall_map.
    apply (Forall_impl _ (P := fun x => is_nan x = true)); [|exact H].
    intros x ->. reflexivity.
  - unfold count_not_nan. induction H as [|x xs Hx _ IH]; [reflexivity|].
    cbn [filter]. rewrite Hx. exact IH.
Qed.

Lemma nanmean_all_nan (xs : list float) :
  Forall (fun x => is_nan x = true) xs -> np_nanmean xs = nan.
Proof.
  intro H. unfold np_nanmean. destruct (np_sum_zeros xs H) as [-> ->]. reflexivity.
Qed.

Lemma filter_not_nan (xs : list float) :
  replace_nan (filter (fun x => negb (is_nan x)) xs)
  = filter (fun x => negb (is_nan x)) xs
  /\ count_not_nan (filter (fun x => negb (is_nan x)) xs) = count_not_nan xs
  /\ (length (filter (fun x => negb (is_nan x)) xs) <= length xs)%nat.
Proof.
  unfold count_not_nan. induction xs as [|x xs [IH1 [IH2 IH3]]]; [repeat split; constructor|].
  cbn [filter]. destruct (is_nan x) eqn:Hx; cbn [negb].
  - repeat split; [exact IH1|exact IH2|cbn [length]; lia].
  - cbn [replace_nan map filter length]. rewrite Hx. cbn [negb length].
    fold (replace_nan (filter (fun x => negb (is_nan x)) xs)).
    rewrite IH1, IH2. repeat split. lia.
Qed.

(** Below 8 entries [np.nanmean] is exactly the mean of the entries that
    are not NaN, wherever the NaN entries stand. *)
Lemma nanmean_short (xs : list float) :
  (length xs < 8)%nat ->
  np_nanmean xs = np_mean (filter (fun x => negb (is_nan x)) xs).
Proof.
  intro H. unfold np_nanmean, np_mean.
  destruct (filter_not_nan xs) as [_ [_ Hl]].
  fold (count_not_nan xs). f_equal.
  assert (Hr : length (replace_nan xs) = length xs) by apply length_map.
  rewrite (proj1 (np_sum_short (replace_nan xs) ltac:(lia))).
  rewrite (proj1 (np_sum_short (filter (fun x => negb (is_nan x)) xs) ltac:(lia))).
  apply zero_add_start, fold_add_replace_nan. left. reflexivity.
Qed.

Lemma filter_map_not_nan (f : float -> float) (a : list float) :
  f nan = nan ->
  filter (fun x => negb (is_nan x)) (map f (filter (fun x => negb (is_nan x)) a))
  = filter (fun x => negb (is_nan x)) (map f a).
Proof.
  intro Hf. induction a as [|x a IH]; [reflexivity|].
  cbn [filter map]. destruct (is_nan x) eqn:Hx; cbn [negb].
  - rewrite (is_nan_eq x Hx), Hf. cbn [is_nan negb]. exact IH.
  - cbn [map filter]. rewrite IH. reflexivity.
Qed.

(** *** The loop *)

Lemma iter_shift (out : list ORow) (i : nat) :
  Nat.iter i iteration_body (iteration_body out)
  = Nat.iter (S i) iteration_body out.
Proof. symmetry. apply Nat.iter_succ_r. Qed.

(** A loop of [n] iterations makes [k <= n] passes: no stop test succeeds
    before iteration [k], and either [k = n] or the test of iteration [k]
    succeeds.  Every iteration entered records one payload. *)
Lemma loop_run (n : nat) : forall (prev : option nat) (out : list ORow) (q : Quiver),
  exists k, k <= n
    /\ fst (loop n prev out q) = Nat.iter k iteration_body out
    /\ (forall j, j < k ->
          stable (previous_count prev out j)
                 (inlier_count (Nat.iter j iteration_body out)) = false)
    /\ ((k = n /\ length (snd (loop n prev out q)) = length q + n)
        \/ (k < n
            /\ stable (previous_count prev out k)
                      (inlier_count (Nat.iter k iteration_body out)) = true
            /\ length (snd (loop n prev out q)) = length q + S k)).
Proof.
  induction n as [|n IH]; intros prev out q.
  - exists 0. split; [lia|]. split; [reflexivity|]. split; [intros j Hj; lia|].
    left. split; [reflexivity|]. cbn [loop snd]. lia.
  - cbn [loop]. destruct (stable prev (inlier_count out)) eqn:Hs.
    + exists 0. split; [lia|]. split; [reflexivity|]. split; [intros j Hj; lia|].
      right. split; [lia|]. split; [exact Hs|].
      cbn [snd]. rewrite length_app. cbn [length]. lia.
    + destruct (IH (Some (inlier_count out)) (iteration_body out)
                   (q ++ [quiver_payload (pool_df out)]))
        as [k [Hk [Hf [Hno Hend]]]].
      rewrite length_app in Hend. cbn [length] in Hend.
      exists (S k). split; [lia|]. split; [rewrite Hf; apply iter_shift|].
      assert (Hp : forall j,
                 previous_count (Some (inlier_count out)) (iteration_body out) j
                 = previous_count prev out (S j)).
      { intros [|i]; [reflexivity|]. cbn [previous_count].
        rewrite iter_shift. reflexivity. }
      split.
      * intros [|j] Hj; [exact Hs|].
        specialize (Hno j ltac:(lia)). rewrite Hp, iter_shift in Hno. exact Hno.
      * destruct Hend as [[-> Hl]|[Hlt [Hst Hl]]].
        -- left. split; [reflexivity|lia].
        -- right. split; [lia|]. rewrite Hp, iter_shift in Hst.
           split; [exact Hst|lia].
Qed.

Lemma iteration_tables_bound (n : nat) (c : option nat) (out : list ORow) :
  length (iteration_tables n c out) <= n.
Proof.
  revert c out; induction n as [|n IH]; intros c out; cbn [iteration_tables length].
  - lia.
  - destruct (stable c (inlier_count out)); cbn [length]; [lia|].
    specialize (IH (Some (inlier_count out)) (iteration_body out)). lia.
Qed.

Lemma loop_quiver (n : nat) (c : option nat) (out : list ORow) (q : Quiver) :
  length (snd (loop n c out q)) = length q + length (iteration_tables n c out).
Proof.
  revert c out q; induction n as [|n IH]; intros c out q;
    cbn [loop iteration_tables length snd].
  - lia.
  - destruct (stable c (inlier_count out)); cbn [snd length].
    + rewrite length_app. reflexivity.
    + rewrite IH, length_app. cbn [length]. lia.
Qed.

(** *** The pool and the reason digit *)

Lemma classified_pool_by_reason (r : ORow) :
  pool_by_reason (set_category r (category_of r)).
Proof.
  unfold pool_by_reason, is_inlier, reason_digit, category_of,
    statistical_confidence_flag.
  cbn [outlier_category set_category].
  destruct (gtb (distance_z_score r) 3), (gtb (bearing_z_score r) 3),
    (min_neighbors <=? Z.of_nat (neighbor_count r))%Z; vm_compute;
    split; intro H; try reflexivity; discriminate.
Qed.

Lemma body_pool_by_reason (out : list ORow) :
  Forall pool_by_reason (iteration_body out).
Proof.
  unfold iteration_body, classify. apply Forall_forall. intros r Hr.
  apply in_map_iff in Hr. destruct Hr as [x [<- _]].
  apply classified_pool_by_reason.
Qed.

Lemma prepare_pool_by_reason (df : list Row) :
  Forall pool_by_reason (prepare df).
Proof.
  unfold prepare. apply Forall_forall. intros r Hr.
  apply in_map_iff in Hr. destruct Hr as [x [<- _]].
  split; reflexivity.
Qed.

(** *** Rows outside the pool *)

Lemma set_category_same (r : ORow) : set_category r (outlier_category r) = r.
  Proof. destruct r; reflexivity. Qed.

Lemma next_row_frozen (out : list ORow) (i : nat) (r : ORow) :
  consistent r -> is_inlier r = false -> next_row out i r = r.
Proof.
  intros Hc Hi. rewrite next_row_excluded by assumption.
  unfold consistent in Hc. rewrite <- Hc. apply set_category_same.
Qed.

Lemma body_frozen (out : list ORow) :
  Forall (fun r => is_inlier r = false -> consistent r) out ->
  frozen out (iteration_body out).
Proof.
  intros Hc i r Hr Hi. rewrite body_nth, Hr. cbn [option_map]. f_equal.
  apply next_row_frozen; [|assumption].
  rewrite Forall_forall in Hc. apply Hc; [|assumption].
  eapply nth_error_In; eassumption.
Qed.

Lemma frozen_trans (a b c : list ORow) : frozen a b -> frozen b c -> frozen a c.
Proof.
  intros Hab Hbc i r Hr Hi. apply Hbc; [|assumption]. apply Hab; assumption.
Qed.

Lemma history_Sorted_frozen (n : nat) (c : option nat) (out : list ORow) :
  Forall (fun r => is_inlier r = false -> consistent r) out ->
  Sorted frozen (history n c out).
Proof.
  revert c out; induction n as [|n IH]; intros c out Hc; simpl.
  - repeat constructor.
  - destruct (stable c (inlier_count out)).
    + repeat constructor.
    + constructor.
      * apply IH. eapply Forall_impl; [|apply body_consistent]. auto.
      * fold (iteration_body out).
        destruct (history_head n (Some (inlier_count out)) (iteration_body out))
          as [rest ->].
        constructor. apply body_frozen. assumption.
Qed.

Lemma prepare_all_inliers (df : list Row) :
  Forall (fun r => is_inlier r = true) (prepare df).
Proof.
  unfold prepare. apply Forall_forall. intros r Hr.
  apply in_map_iff in Hr. destruct Hr as [x [<- _]]. reflexivity.
Qed.

(** *** Scenes do not interact *)

Lemma filter_indexed_agree (F : nat * ORow -> bool) (k : nat) (l l' : list ORow) :
  Forall2 (fun x x' => forall j, F (j, x) = true \/ F (j, x') = true -> x = x') l l' ->
  filter F (indexed_from k l) = filter F (indexed_from k l').
Proof.
  intro H. revert k. induction H as [|x x' l l' Hx _ IH]; intro k; [reflexivity|].
  rewrite !indexed_from_cons. cbn [filter].
  destruct (F (k, x)) eqn:H1.
  - rewrite <- (Hx k (or_introl H1)), H1. f_equal. apply IH.
  - destruct (F (k, x')) eqn:H2.
    + rewrite (Hx k (or_intror H2)) in H1. congruence.
    + apply IH.
Qed.

Lemma neighbors_agree (s : nat) (out out' : list ORow) (i : nat) (ri : ORow) :
  Forall2 (same_scene s) out out' -> scene ri = s ->
  neighbors_in (scene_frame (pool_df out) (scene ri)) i ri
  = neighbors_in (scene_frame (pool_df out') (scene ri)) i ri.
Proof.
  intros H Hs. rewrite !neighbors_now. unfold indexed.
  fold (indexed_from 0 out). fold (indexed_from 0 out').
  apply filter_indexed_agree.
  eapply Forall2_impl; [|exact H].
  intros x x' Hx j Hj. apply Hx. unfold near in Hj. cbn [fst snd] in Hj.
  destruct Hj as [Hj|Hj]; [left|right];
    apply andb_true_iff in Hj; destruct Hj as [_ Hj];
    apply andb_true_iff in Hj; destruct Hj as [Hj _];
    apply Nat.eqb_eq in Hj; congruence.
Qed.

Lemma next_row_agree (s : nat) (out out' : list ORow) (i : nat) (ri : ORow) :
  Forall2 (same_scene s) out out' -> scene ri = s ->
  next_row out i ri = next_row out' i ri.
Proof.
  intros H Hs. unfold next_row, rebuilt_row, point_update.
  rewrite (neighbors_agree s out out' i ri H Hs). reflexivity.
Qed.

Lemma Forall2_map_indexed_from (R R' : ORow -> ORow -> Prop)
    (f f' : nat * ORow -> ORow) (k : nat) (l l' : list ORow) :
  (forall j x x', R x x' -> R' (f (j, x)) (f' (j, x'))) ->
  Forall2 R l l' ->
  Forall2 R' (map f (indexed_from k l)) (map f' (indexed_from k l')).
Proof.
  intros Hf H. revert k. induction H as [|x x' l l' Hx _ IH]; intro k.
  - constructor.
  - rewrite !indexed_from_cons. cbn [map]. constructor; [auto|apply IH].
Qed.

Lemma body_same_scene (s : nat) (out out' : list ORow) :
  Forall2 (same_scene s) out out' ->
  Forall2 (same_scene s) (iteration_body out) (iteration_body out').
Proof.
  intro H. rewrite !body_eq. unfold indexed.
  fold (indexed_from 0 out). fold (indexed_from 0 out').
  apply Forall2_map_indexed_from with (R := same_scene s); [|assumption].
  intros j x x' Hx. cbn [fst snd]. intro Hs.
  rewrite !next_row_scene in Hs. assert (Hxx := Hx Hs). subst x'.
  apply next_row_agree with (s := s); [assumption|]. tauto.
Qed.

(** *** Short runs *)

Lemma filter_full {A : Type} (P : A -> bool) (l : list A) :
  length (filter P l) = length l -> Forall (fun x => P x = true) l.
Proof.
  induction l as [|x l IH]; cbn [filter length]; intro H; [constructor|].
  assert (Hle := filter_length_le P l).
  destruct (P x) eqn:HP; cbn [length] in H; [|lia].
  constructor; [assumption|]. apply IH. lia.
Qed.

Lemma filter_all {A : Type} (P : A -> bool) (l : list A) :
  Forall (fun x => P x = true) l -> filter P l = l.
Proof.
  induction 1 as [|x l Hx _ IH]; cbn [filter]; [reflexivity|].
  rewrite Hx, IH. reflexivity.
Qed.

Lemma filter_none {A : Type} (P : A -> bool) (l : list A) :
  (forall x, In x l -> P x = false) -> filter P l = [].
Proof.
  induction l as [|x l IH]; cbn [filter]; intro H; [reflexivity|].
  rewrite (H x (or_introl eq_refl)). apply IH. intros y Hy. apply H. right. exact Hy.
Qed.

Lemma filter_length_lt {A : Type} (P : A -> bool) (l : list A) (x : A) :
  In x l -> P x = false -> length (filter P l) < length l.
Proof.
  induction l as [|y l IH]; cbn [filter length In]; intros Hin HP; [tauto|].
  assert (Hle := filter_length_le P l).
  destruct Hin as [->|Hin].
  - rewrite HP. lia.
  - assert (IH' := IH Hin HP). destruct (P y); cbn [length]; lia.
Qed.

Lemma full_count_full_pool (out : list ORow) :
  inlier_count out = length out -> length (pool_df out) = length out.
Proof.
  intro H. apply filter_full in H. unfold pool_df.
  rewrite <- (indexed_length out). f_equal. apply filter_all.
  apply Forall_forall. intros [j r] Hin. apply in_indexed in Hin.
  cbn [snd]. apply is_01_inlier. unfold is_01.
  rewrite Forall_forall in H. apply H. eapply nth_error_In; eassumption.
Qed.

Lemma prepare_count (df : list Row) :
  inlier_count (prepare df) = length (prepare df).
Proof.
  unfold inlier_count. f_equal. apply filter_all.
  unfold prepare. apply Forall_forall. intros r Hr.
  apply in_map_iff in Hr. destruct Hr as [x [<- _]]. reflexivity.
Qed.

Lemma two_passes (df : list Row) (q : Quiver) :
  fst (loop 2 None (prepare df) q)
  = iteration_body (iteration_body (prepare df)).
Proof.
  cbn [loop stable fst].
  destruct (Nat.eqb (inlier_count (iteration_body (prepare df)))
                    (inlier_count (prepare df))) eqn:Hst; [|reflexivity].
  cbn [fst]. symmetry. apply stable_pool_fixed.
  - apply Inv_prepare.
  - apply Nat.eqb_eq in Hst. rewrite prepare_count in Hst.
    rewrite <- (body_length (prepare df)) in Hst.
    rewrite (full_count_full_pool _ Hst), body_length.
    symmetry. apply full_count_full_pool. apply prepare_count.
Qed.

Lemma neighbors_lt (out : list ORow) (i : nat) (ri : ORow) :
  nth_error out i = Some ri ->
  length (neighbors_in (scene_frame (pool_df out) (scene ri)) i ri) < length out.
Proof.
  intro Hr. rewrite neighbors_now, <- (indexed_length out).
  apply filter_length_lt with (x := (i, ri)).
  - apply in_indexed. assumption.
  - unfold near. cbn [fst snd]. rewrite !Nat.eqb_refl.
    cbn [negb andb]. apply andb_false_r.
Qed.

Lemma prepare_counts_below (df : list Row) : counts_below (prepare df).
Proof.
  unfold counts_below. apply Forall_forall. intros r Hr.
  assert (H0 : neighbor_count r = 0).
  { unfold prepare in Hr. apply in_map_iff in Hr.
    destruct Hr as [x [<- _]]. reflexivity. }
  rewrite H0. destruct (prepare df); [destruct Hr|cbn [length]; lia].
Qed.

Lemma next_row_count_below (out : list ORow) (i : nat) (ri : ORow) :
  counts_below out -> nth_error out i = Some ri ->
  neighbor_count (next_row out i ri) < length out.
Proof.
  intros Hq Hr. destruct (is_inlier ri) eqn:Hi.
  - rewrite next_row_count by assumption. apply neighbors_lt. assumption.
  - rewrite next_row_excluded by assumption. cbn [neighbor_count set_category].
    unfold counts_below in Hq. rewrite Forall_forall in Hq. apply Hq.
    eapply nth_error_In; eassumption.
Qed.

Lemma body_counts_below (out : list ORow) :
  counts_below out -> counts_below (iteration_body out).
Proof.
  intro Hq. unfold counts_below. rewrite body_length.
  apply Forall_forall. intros r' Hr'.
  apply In_nth_error in Hr'. destruct Hr' as [i Hi].
  rewrite body_nth in Hi.
  destruct (nth_error out i) as [r|] eqn:Hr; [|discriminate].
  cbn [option_map] in Hi. injection Hi as <-.
  apply next_row_count_below; assumption.
Qed.

Lemma small_confidence (r : ORow) (n : nat) :
  neighbor_count r < n -> (Z.of_nat n <= min_neighbors)%Z ->
  statistical_confidence_flag r = 0.
Proof.
  intros H1 H2. unfold statistical_confidence_flag.
  destruct (Z.leb_spec min_neighbors (Z.of_nat (neighbor_count r))); [lia|reflexivity].
Qed.

Lemma confidence_digit_classified (r : ORow) :
  statistical_confidence_flag r = 0 ->
  confidence_digit (set_category r (category_of r)) = Some "0"%char.
Proof.
  intro H. unfold confidence_digit, category_of.
  cbn [outlier_category set_category]. rewrite H.
  destruct (gtb (distance_z_score r) 3), (gtb (bearing_z_score r) 3); reflexivity.
Qed.

Lemma small_body_confidence (out : list ORow) :
  counts_below out -> (Z.of_nat (length out) <= min_neighbors)%Z ->
  Forall (fun r => confidence_digit r = Some "0"%char) (iteration_body out).
Proof.
  intros Hq Hm. apply Forall_forall. intros r' Hr'.
  apply In_nth_error in Hr'. destruct Hr' as [i Hi].
  rewrite body_nth in Hi.
  destruct (nth_error out i) as [r|] eqn:Hr; [|discriminate].
  cbn [option_map] in Hi. injection Hi as <-.
  assert (Hc := next_row_count_below out i r Hq Hr).
  unfold next_row in *. cbn [neighbor_count set_category] in Hc.
  apply confidence_digit_classified.
  eapply small_confidence; eassumption.
Qed.

Lemma small_body_count (out : list ORow) :
  counts_below out -> (Z.of_nat (length out) <= min_neighbors)%Z ->
  inlier_count (iteration_body out) = 0.
Proof.
  intros Hq Hm. unfold inlier_count. rewrite filter_none; [reflexivity|].
  intros r Hr. assert (H := small_body_confidence out Hq Hm).
  rewrite Forall_forall in H. specialize (H r Hr).
  unfold confidence_digit in H.
  destruct (String.eqb (outlier_category r) "01") eqn:He; [|reflexivity].
  apply String.eqb_eq in He. rewrite He in H. discriminate.
Qed.

Lemma prepare_length (df : list Row) : length (prepare df) = length df.
Proof.
  unfold prepare. rewrite length_map. symmetry.
  apply Permutation_length, sort_values_perm.
Qed.

Lemma small_run (df : list Row) (k : nat) (q : Quiver) :
  (Z.of_nat (length df) <= min_neighbors)%Z ->
  fst (loop (S (S k)) None (prepare df) q)
  = iteration_body (iteration_body (prepare df)).
Proof.
  intro Hm. rewrite <- prepare_length in Hm.
  assert (Hq := prepare_counts_below df).
  assert (H2 := small_body_count (prepare df) Hq Hm).
  cbn [loop stable]. rewrite H2.
  destruct (Nat.eqb 0 (inlier_count (prepare df))) eqn:Hst.
  - cbn [fst]. apply Nat.eqb_eq in Hst. rewrite prepare_count in Hst.
    assert (Hb := body_length (prepare df)).
    assert (Hbb := body_length (iteration_body (prepare df))).
    destruct (iteration_body (prepare df)) as [|x t]; [|cbn [length] in Hb; lia].
    destruct (iteration_body []); [reflexivity|cbn [length] in Hbb; lia].
  - destruct k as [|k]; [reflexivity|].
    cbn [loop stable].
    rewrite small_body_count.
    + reflexivity.
    + apply body_counts_below. assumption.
    + rewrite body_length. assumption.
Qed.

(** *** The recorded neighbor relation *)

Lemma neighbor_symmetry (out : list ORow) (i j : nat) (ri rj ri' rj' : ORow) :
  nth_error out i = Some ri -> nth_error out j = Some rj ->
  is_inlier ri = true ->
  nth_error (iteration_body out) i = Some ri' ->
  nth_error (iteration_body out) j = Some rj' ->
  In j (recorded_neighbors ri') ->
  in_ball E radius_m (xy rj) (xy ri) = true ->
  In i (recorded_neighbors rj').
Proof.
  intros Hi Hj Hini Hi' Hj' Hin Hball.
  rewrite body_nth, Hi in Hi'. cbn [option_map] in Hi'. injection Hi' as <-.
  rewrite body_nth, Hj in Hj'. cbn [option_map] in Hj'. injection Hj' as <-.
  rewrite recorded_neighbors_next in Hin by assumption.
  apply in_map_iff in Hin. destruct Hin as [[j' r] [Hj' Hin]].
  cbn [fst] in Hj'. subst j'.
  apply in_neighbors_now in Hin. destruct Hin as (Hr & Hinj & Hsc & Hne & _).
  assert (r = rj) by congruence. subst r.
  rewrite recorded_neighbors_next by assumption.
  apply in_map_iff. exists (i, ri). split; [reflexivity|].
  apply in_neighbors_now. repeat split; auto.
Qed.

(** *** The quiver payloads *)

Lemma loop_payloads (n : nat) (c : option nat) (out : list ORow) (q : Quiver) :
  snd (loop n c out q)
  = q ++ map (fun t => quiver_payload (pool_df t)) (iteration_tables n c out).
Proof.
  revert c out q; induction n as [|n IH]; intros c out q;
    cbn [loop iteration_tables map snd].
  - rewrite app_nil_r. reflexivity.
  - destruct (stable c (inlier_count out)); cbn [snd map]; [reflexivity|].
    rewrite IH, <- app_assoc. reflexivity.
Qed.

Lemma tables_Sorted (n : nat) (c : option nat) (out : list ORow) :
  Inv out -> Sorted shrinks (iteration_tables n c out).
Proof.
  revert c out; induction n as [|n IH]; intros c out HI; cbn [iteration_tables].
  - constructor.
  - destruct (stable c (inlier_count out)).
    + repeat constructor.
    + constructor.
      * apply IH. apply Inv_body. assumption.
      * destruct n as [|n]; cbn [iteration_tables]; constructor.
        apply body_shrinks. assumption.
Qed.

Lemma pool_prepare (df : list Row) : pool_df (prepare df) = indexed (prepare df).
Proof.
  unfold pool_df. apply filter_all. apply Forall_forall. intros [j r] Hin.
  apply in_indexed in Hin. cbn [snd].
  assert (H := prepare_all_inliers df). rewrite Forall_forall in H. apply H.
  eapply nth_error_In; eassumption.
Qed.

Lemma first_payload (df : list Row) :
  quiver_payload (pool_df (prepare df))
  = (map X1 (sort_values df), map Y1 (sort_values df),
     map dx (sort_values df), map dy (sort_values df)).
Proof.
  assert (H : forall g : Row -> float,
            map (fun p : nat * ORow => g (base (snd p))) (indexed (prepare df))
            = map g (sort_values df)).
  { intro g. rewrite <- (map_base_prepare df), map_map.
    rewrite <- (map_map snd (fun r => g (base r))), map_snd_indexed.
    reflexivity. }
  rewrite pool_prepare. unfold quiver_payload. rewrite !H. reflexivity.
Qed.

(** *** Positions that are not finite *)

Lemma forallb_perm {A : Type} (g : A -> bool) (l l' : list A) :
  Permutation l l' -> forallb g l = forallb g l'.
Proof.
  induction 1 as [|x l l' _ IH|x y l|l l' l'' _ IH1 _ IH2]; cbn [forallb].
  - reflexivity.
  - rewrite IH. reflexivity.
  - destruct (g x), (g y); reflexivity.
  - rewrite IH1. exact IH2.
Qed.

Lemma forallb_map {A B : Type} (g : B -> bool) (f : A -> B) (l : list A) :
  forallb g (map f l) = forallb (fun x => g (f x)) l.
Proof. induction l as [|x l IH]; cbn [map forallb]; [|rewrite IH]; reflexivity. Qed.

Lemma map_base_body (out : list ORow) :
  map base (iteration_body out) = map base out.
Proof.
  rewrite body_eq, map_map.
  rewrite <- (map_snd_indexed out) at 2. rewrite map_map.
  apply map_ext. intros [i r]. apply next_row_base.
Qed.

Lemma tree_data_ok_finite (out : list ORow) :
  forallb finite_row (map base out) = true -> tree_data_ok out = true.
Proof.
  intro H. unfold tree_data_ok, pool_df. apply forallb_forall.
  intros [j r] Hin. apply filter_In in Hin. destruct Hin as [Hin _].
  apply in_indexed in Hin. cbn [snd].
  rewrite forallb_forall in H. apply H. apply in_map.
  eapply nth_error_In; eassumption.
Qed.

Lemma loop_checked_finite (n : nat) : forall (prev : option nat) (out : list ORow) (q : Quiver),
  forallb finite_row (map base out) = true ->
  loop_checked n prev out q = Some (loop n prev out q).
Proof.
  induction n as [|n IH]; intros prev out q H; [reflexivity|].
  cbn [loop_checked loop].
  destruct (stable prev (inlier_count out)); [reflexivity|].
  rewrite (tree_data_ok_finite out H). apply IH.
  rewrite map_base_body. exact H.
Qed.

Lemma tree_data_ok_prepare (df : list Row) :
  tree_data_ok (prepare df) = forallb finite_row df.
Proof.
  unfold tree_data_ok. rewrite pool_prepare.
  rewrite <- (forallb_map (fun r => finite_row (base r)) snd), map_snd_indexed.
  rewrite <- (forallb_map finite_row base), map_base_prepare.
  symmetry. apply forallb_perm, sort_values_perm.
Qed.

End OutlierSearch.

(** * The claims *)

Local Close Scope float_scope.

(** C1.  The count the loop tests is not the size of the pool.  On the
    one-row table [lone] with the default radius (20 km) and minimum
    neighbor count (10), the second iteration starts with a pool of one
    row (category "00") and an inlier count of 0: only "01" rows are
    counted, while the pool takes "00" and "01". *)
Theorem inlier_count_misses_low_confidence :
  map (fun t => (length (pool_df t), inlier_count t, map outlier_category t))
      (iteration_tables RefLibm.ext 20 10 2 None (prepare RefLibm.ext lone))
  = [ (1, 1, ["01"%string]); (1, 0, ["00"%string]) ].
Proof. vm_compute. reflexivity. Qed.

(** C2. Monotonicity.  Along the tables of a run (the table at the start
    of every iteration and the table returned), each table is related to
    every later one: the count of "01" rows tested by the loop does not
    grow, the size of the pool does not grow, and a row outside the pool
    is outside the pool of every later table; in every table a row is in
    the pool exactly when the reason digit of its category is 0, so a row
    with a non-zero reason digit never has a reason-0 category again. *)
Theorem monotone_run (E : Extern) (radius_km : float) (min_neighbors : Z)
    (df : list Row) (iter_count : nat) :
  StronglySorted shrinks
    (history E radius_km min_neighbors iter_count None (prepare E df))
  /\ Forall (Forall pool_by_reason)
       (history E radius_km min_neighbors iter_count None (prepare E df))
  /\ fst (outlier_search E radius_km min_neighbors df iter_count)
     = last (history E radius_km min_neighbors iter_count None (prepare E df))
            (prepare E df).
Proof.
  split; [|split].
  - apply Sorted_StronglySorted.
    + intros a b c. apply shrinks_trans.
    + apply history_Sorted. apply Inv_prepare.
  - apply history_Forall.
    + intros o _. apply body_pool_by_reason.
    + apply prepare_pool_by_reason.
  - apply loop_history.
Qed.

(** C3.  The stop test can fire before the fixed point.  On [cascade] with
    the default radius and minimum neighbor count, the count of "01" rows
    is 5, 0, 0 at the first three iterations, so the third iteration stops
    the loop although the second one moved row 3 out of the pool; one more
    pass of the loop body then moves row 2 from "00" to "10". *)
Theorem stops_before_fixed_point :
  map inlier_count
      (iteration_tables RefLibm.ext 20 10 4 None (prepare RefLibm.ext cascade))
  = [5; 0; 0]
  /\ map (fun t => length (pool_df t))
         (iteration_tables RefLibm.ext 20 10 4 None (prepare RefLibm.ext cascade))
     = [5; 4; 3]
  /\ map outlier_category (fst (outlier_search RefLibm.ext 20 10 cascade 4))
     = ["00"; "00"; "00"; "10"; "10"]%string
  /\ map outlier_category
         (iteration_body RefLibm.ext 20 10
            (fst (outlier_search RefLibm.ext 20 10 cascade 4)))
     = ["00"; "00"; "10"; "10"; "10"]%string.
Proof. vm_compute. repeat split; reflexivity. Qed.

(** C4. Classifier postcondition.  An iteration leaves one row for every
    row of the table, in the same order and with the same observation,
    pool member or not, and every one of them carries the category built
    from its stored z-scores and neighbor count: a flag is a z-score above
    3 (never set for a NaN), the reason is 3, 1, 2 or 0 as both, only the
    distance, only the bearing or no flag is set, the confidence is 1
    exactly when the neighbor count reaches [min_neighbors], and the
    category is the two digits in that order.  A row outside the pool is
    the row it was, with the category of the z-scores and the count it
    had; and the z-scores, the count and the neighbor list of every row
    are those the neighbor step of this iteration left. *)
Theorem classifier_postcondition (E : Extern) (radius_km : float)
    (min_neighbors : Z) (out_df : list ORow) :
  length (iteration_body E radius_km min_neighbors out_df) = length out_df
  /\ Forall2
       (fun r r' =>
          fixed_columns r' = fixed_columns r
          /\ classified min_neighbors r'
          /\ (is_inlier r = false ->
              r' = set_category r (category_of min_neighbors r)))
       out_df (iteration_body E radius_km min_neighbors out_df)
  /\ Forall2
       (fun b r' =>
          r' = set_category b (category_of min_neighbors b)
          /\ distance_z_score r' = distance_z_score b
          /\ bearing_z_score r' = bearing_z_score b
          /\ neighbor_count r' = neighbor_count b
          /\ neighbor_indices r' = neighbor_indices b)
       (build_neighbors E radius_km out_df (pool_df out_df))
       (iteration_body E radius_km min_neighbors out_df).
Proof.
  split; [apply body_length|]. split.
  - rewrite body_eq. apply Forall2_indexed_from. intros j x.
    split; [apply next_row_fixed|].
    split; [apply set_category_classified|]. apply next_row_excluded.
  - unfold iteration_body, classify.
    induction (build_neighbors E radius_km out_df (pool_df out_df)) as [|b l IH];
      constructor; [repeat split|exact IH].
Qed.

(** C5.  Neighbor search.  After an iteration, the neighbor list recorded
    for a member of the pool holds, without repetition, exactly the labels
    of the other rows of the pool of that iteration that belong to the
    same scene and lie in the closed ball of radius [radius_km * 1000]
    around the member; the neighbor count is its length.  Nothing of the
    previous lists enters: the list is a function of the current pool. *)
Theorem neighbor_search_exact (E : Extern) (radius_km : float)
    (min_neighbors : Z) (out_df : list ORow) (i : nat) (ri ri' : ORow) :
  nth_error out_df i = Some ri ->
  is_inlier ri = true ->
  nth_error (iteration_body E radius_km min_neighbors out_df) i = Some ri' ->
  NoDup (recorded_neighbors ri')
  /\ neighbor_count ri' = length (recorded_neighbors ri')
  /\ forall j, In j (recorded_neighbors ri') <->
       j <> i /\ exists rj, nth_error out_df j = Some rj
                            /\ is_inlier rj = true
                            /\ scene rj = scene ri
                            /\ in_ball E (radius_km * 1000)%float (xy ri) (xy rj)
                               = true.
Proof. exact (neighbor_set_exact E radius_km min_neighbors out_df i ri ri'). Qed.

Lemma neighbor_search_exact_witness :
  let out := prepare RefLibm.ext cascade in
  let out' := iteration_body RefLibm.ext 20 10 out in
  (nth_error out 0 = Some (row_at out 0)
   /\ is_inlier (row_at out 0) = true
   /\ nth_error out' 0 = Some (row_at out' 0))
  /\ recorded_neighbors (row_at out' 0) = [1; 2; 3; 4]
  /\ NoDup (recorded_neighbors (row_at out' 0))
  /\ neighbor_count (row_at out' 0) = length (recorded_neighbors (row_at out' 0)).
Proof.
  cbv zeta.
  assert (H1 : nth_error (prepare RefLibm.ext cascade) 0
               = Some (row_at (prepare RefLibm.ext cascade) 0))
    by (vm_compute; reflexivity).
  assert (H2 : is_inlier (row_at (prepare RefLibm.ext cascade) 0) = true)
    by (vm_compute; reflexivity).
  assert (H3 : nth_error (iteration_body RefLibm.ext 20 10 (prepare RefLibm.ext cascade)) 0
               = Some (row_at (iteration_body RefLibm.ext 20 10
                                 (prepare RefLibm.ext cascade)) 0))
    by (vm_compute; reflexivity).
  split; [auto|]. split; [vm_compute; reflexivity|].
  split.
  - exact (proj1 (neighbor_search_exact RefLibm.ext 20 10 _ 0 _ _ H1 H2 H3)).
  - exact (proj1 (proj2 (neighbor_search_exact RefLibm.ext 20 10 _ 0 _ _ H1 H2 H3))).
Defined.

(** C6 as stated fails: the table comes back sorted by (File1, File2), not
    in input order.  The two rows of [two_scenes] are returned reversed. *)
Lemma output_order_is_sorted_order :
  map base (fst (outlier_search RefLibm.ext 20 10 two_scenes 1)) = rev two_scenes
  /\ map File1 two_scenes = ["S1A_0103"; "S1A_0101"]%string
  /\ map (fun r => File1 (base r))
         (fst (outlier_search RefLibm.ext 20 10 two_scenes 1))
     = ["S1A_0101"; "S1A_0103"]%string.
Proof. vm_compute. repeat split; reflexivity. Qed.

(** C6, amended.  The table returned holds the input records with their
    position and kinematics columns unchanged, in the order of a stable
    sort by (File1, File2): a permutation of the input, ordered by the
    pair, in which the records of one pair keep their input order (so an
    input already ordered by the pair comes back in input order).  The
    derived columns and the scene id are those given before the first
    iteration; only the classification columns are written afterwards. *)
Theorem frame_and_sorted_order (E : Extern) (radius_km : float)
    (min_neighbors : Z) (df : list Row) (iter_count : nat) :
  let out := fst (outlier_search E radius_km min_neighbors df iter_count) in
  map base out = sort_values df
  /\ Permutation df (sort_values df)
  /\ Sorted by_key (sort_values df)
  /\ (forall k, filter (key_eqb k) (sort_values df) = filter (key_eqb k) df)
  /\ (Sorted by_key df -> map base out = df)
  /\ map fixed_columns out = map fixed_columns (prepare E df).
Proof.
  cbv zeta. unfold outlier_search.
  assert (Hb : map base (fst (loop E radius_km min_neighbors iter_count None
                                   (prepare E df) []))
               = sort_values df).
  { rewrite loop_base. apply map_base_prepare. }
  split; [exact Hb|].
  split; [apply sort_values_perm|].
  split; [apply sort_values_sorted|].
  split; [intro k; apply sort_values_stable|].
  split; [intro Hs; rewrite Hb; apply sort_values_sorted_id; exact Hs|].
  apply loop_fixed.
Qed.

(** C7.  Degenerate neighborhoods.  For a member of the pool an iteration
    writes: with no neighbor, count 0, no list, NaN for both z-scores and a
    category with reason digit 0; with a local standard deviation that is
    zero or NaN, NaN for the z-score of that metric.  The pass is total:
    it returns a table with the rows of the one it was given. *)
Theorem degenerate_neighborhoods (E : Extern) (radius_km : float)
    (min_neighbors : Z) (out_df : list ORow) (i : nat) (ri ri' : ORow) :
  nth_error out_df i = Some ri ->
  is_inlier ri = true ->
  nth_error (iteration_body E radius_km min_neighbors out_df) i = Some ri' ->
  let nb := neighbors_in E radius_km
              (scene_frame (pool_df out_df) (scene ri)) i ri in
  let dist_std := np_nanstd (map (fun p => total_distance_km (base (snd p))) nb) in
  let bear_std := circular_std E (map (fun p => bearing_rad (snd p)) nb) in
  (nb = [] ->
     neighbor_count ri' = 0 /\ neighbor_indices ri' = None
     /\ distance_z_score ri' = nan /\ bearing_z_score ri' = nan
     /\ reason_digit ri' = Some "0"%char)
  /\ (PrimFloat.eqb dist_std 0 = true \/ is_nan dist_std = true ->
      distance_z_score ri' = nan)
  /\ (PrimFloat.eqb bear_std 0 = true \/ is_nan bear_std = true ->
      bearing_z_score ri' = nan)
  /\ length (iteration_body E radius_km min_neighbors out_df) = length out_df.
Proof.
  intros H1 H2 H3.
  destruct (degenerate_rows E radius_km min_neighbors out_df i ri ri' H1 H2 H3)
    as (Ha & Hb & Hc).
  cbv zeta. repeat split; try assumption.
  - apply Ha. assumption.
  - apply Ha. assumption.
  - apply Ha. assumption.
  - apply Ha. assumption.
  - apply Ha. assumption.
  - apply body_length.
Qed.

Lemma degenerate_neighborhoods_witness :
  let out := prepare RefLibm.ext two_scenes in
  let out' := iteration_body RefLibm.ext 20 10 out in
  (nth_error out 0 = Some (row_at out 0)
   /\ is_inlier (row_at out 0) = true
   /\ nth_error out' 0 = Some (row_at out' 0)
   /\ neighbors_in RefLibm.ext 20
        (scene_frame (pool_df out) (scene (row_at out 0))) 0 (row_at out 0) = [])
  /\ neighbor_count (row_at out' 0) = 0
  /\ neighbor_indices (row_at out' 0) = None
  /\ distance_z_score (row_at out' 0) = nan
  /\ bearing_z_score (row_at out' 0) = nan
  /\ reason_digit (row_at out' 0) = Some "0"%char.
Proof.
  cbv zeta.
  assert (H1 : nth_error (prepare RefLibm.ext two_scenes) 0
               = Some (row_at (prepare RefLibm.ext two_scenes) 0))
    by (vm_compute; reflexivity).
  assert (H2 : is_inlier (row_at (prepare RefLibm.ext two_scenes) 0) = true)
    by (vm_compute; reflexivity).
  assert (H3 : nth_error (iteration_body RefLibm.ext 20 10
                            (prepare RefLibm.ext two_scenes)) 0
               = Some (row_at (iteration_body RefLibm.ext 20 10
                                 (prepare RefLibm.ext two_scenes)) 0))
    by (vm_compute; reflexivity).
  assert (H4 : neighbors_in RefLibm.ext 20
                 (scene_frame (pool_df (prepare RefLibm.ext two_scenes))
                    (scene (row_at (prepare RefLibm.ext two_scenes) 0))) 0
                 (row_at (prepare RefLibm.ext two_scenes) 0) = [])
    by (vm_compute; reflexivity).
  split; [auto|].
  exact (proj1 (degenerate_neighborhoods RefLibm.ext 20 10 _ 0 _ _ H1 H2 H3) H4).
Defined.

(** C8.  circular_mean is the arctangent of the NaN-ignoring means of the
    sines and of the cosines; it is NaN when every angle is NaN, for every
    math library that maps NaN to NaN; below 8 entries np.nanmean is
    exactly the mean of the entries that are not NaN, and circular_mean is
    that of the angles that are not NaN, wherever the NaN entries stand
    (from 8 entries on the zeros that stand for the NaN entries take part
    in numpy's order of summation, and the last bits can differ, as for
    nan, 1e16, 1, 1, 0, 0, 0, 0); and for the bearings 1, 359 and 2
    degrees the reference library gives 0.6667 degrees. *)
Theorem circular_mean_wraps (E : Extern) :
  np_sin E nan = nan ->
  np_cos E nan = nan ->
  np_arctan2 E nan nan = nan ->
  (forall a, circular_mean E a
             = np_arctan2 E (np_nanmean (map (np_sin E) a))
                            (np_nanmean (map (np_cos E) a)))
  /\ (forall a, Forall (fun x => is_nan x = true) a -> circular_mean E a = nan)
  /\ (forall xs, (length xs < 8)%nat ->
        np_nanmean xs = np_mean (filter (fun x => negb (is_nan x)) xs))
  /\ (forall a, (length a < 8)%nat ->
        circular_mean E a
        = circular_mean E (filter (fun x => negb (is_nan x)) a))
  /\ (np_nanmean [nan; 1e16; 1; 1; 0; 0; 0; 0]
      =? np_mean (filter (fun x => negb (is_nan x))
                         [nan; 1e16; 1; 1; 0; 0; 0; 0]))%float = false
  /\ (let m := (circular_mean RefLibm.ext (map np_deg2rad [1; 359; 2]%float)
                 * (180 / RefLibm.pi))%float in
      (0.66 <? m)%float && (m <? 0.68)%float = true).
Proof.
  intros Hs Hc Ha.
  split; [reflexivity|]. split; [|split; [|split; [|split]]].
  - intros a Hnan. unfold circular_mean.
    assert (Hsin : Forall (fun x => is_nan x = true) (map (np_sin E) a)).
    { apply Forall_forall. intros y Hy. apply in_map_iff in Hy.
      destruct Hy as [x [<- Hx]]. rewrite Forall_forall in Hnan.
      rewrite (is_nan_eq x (Hnan x Hx)), Hs. reflexivity. }
    assert (Hcos : Forall (fun x => is_nan x = true) (map (np_cos E) a)).
    { apply Forall_forall. intros y Hy. apply in_map_iff in Hy.
      destruct Hy as [x [<- Hx]]. rewrite Forall_forall in Hnan.
      rewrite (is_nan_eq x (Hnan x Hx)), Hc. reflexivity. }
    rewrite (nanmean_all_nan _ Hsin), (nanmean_all_nan _ Hcos). exact Ha.
  - exact nanmean_short.
  - intros a Hlen. unfold circular_mean.
    destruct (filter_not_nan a) as [_ [_ Hl]].
    rewrite !nanmean_short by (rewrite length_map; lia).
    rewrite (filter_map_not_nan (np_sin E) a Hs).
    rewrite (filter_map_not_nan (np_cos E) a Hc). reflexivity.
  - vm_compute. reflexivity.
  - vm_compute. reflexivity.
Qed.

Lemma circular_mean_wraps_witness :
  circular_mean RefLibm.ext [nan; nan] = nan
  /\ circular_mean RefLibm.ext
       (np_deg2rad 1 :: nan :: np_deg2rad 359 :: nan :: np_deg2rad 2 :: nil)
     = circular_mean RefLibm.ext (map np_deg2rad [1; 359; 2]%float).
Proof.
  split.
  - apply (proj1 (proj2 (circular_mean_wraps RefLibm.ext eq_refl eq_refl eq_refl))).
    repeat constructor.
  - apply (proj1 (proj2 (proj2 (proj2
             (circular_mean_wraps RefLibm.ext eq_refl eq_refl eq_refl))))
             (np_deg2rad 1 :: nan :: np_deg2rad 359 :: nan :: np_deg2rad 2 :: nil)).
    cbn [length]. lia.
Defined.

(** C9.  circular_std is sqrt(-2 ln R') with R' the mean resultant
    length R clamped to [1e-12, 1], but identical angles do not always give
    zero: the clamp bounds R from above only, and in binary64
    sin^2 + cos^2 can round below 1.  Two angles of 3 degrees give an R one
    unit in the last place below 1 and a standard deviation of 2^-26,
    three angles of 4 degrees give 2.107e-8, while two angles of 45
    degrees give zero.  The zero test that guards the bearing z-score then
    fails: with the settings of detect_outliers, an observation at 4
    degrees between two neighbors at 3 degrees gets a bearing z-score above
    one million and category "20", while the same observation at 46
    degrees between neighbors at 45 degrees gets the z-score NaN and stays
    "00".  For uniformly spread angles the result is finite: about 7.434
    when R falls below the clamp floor, about 7.340 for an R of 2e-12, just
    above it.  (The sines and cosines are those of the reference
    library.) *)
Theorem circular_std_identical_not_zero :
  (forall (E : Extern) (a : list float),
     circular_std E a
     = sqrt (-2 * np_log E (np_clip (resultant_length E a)
                                    clamp_floor clamp_ceiling))%float)
  /\ (resultant_length RefLibm.ext (map np_deg2rad [3; 3]%float)
      = 0x1.fffffffffffffp-1%float
      /\ circular_std RefLibm.ext (map np_deg2rad [3; 3]%float) = 0x1p-26%float
      /\ PrimFloat.eqb (circular_std RefLibm.ext (map np_deg2rad [3; 3]%float)) 0
         || is_nan (circular_std RefLibm.ext (map np_deg2rad [3; 3]%float))
         = false)
  /\ (let s := circular_std RefLibm.ext (map np_deg2rad [4; 4; 4]%float) in
      (2.1e-8 <? s)%float && (s <? 2.2e-8)%float = true)
  /\ (circular_std RefLibm.ext (map np_deg2rad [45; 45]%float) = (-0)%float
      /\ PrimFloat.eqb (circular_std RefLibm.ext (map np_deg2rad [45; 45]%float)) 0
         = true)
  /\ (let out := fst (outlier_search RefLibm.ext 25 8 (two_against_one 3 4) 2) in
      map outlier_category out = ["00"; "00"; "20"]%string
      /\ (1000000 <? bearing_z_score (row_at out 2))%float = true)
  /\ (let out := fst (outlier_search RefLibm.ext 25 8 (two_against_one 45 46) 2) in
      map outlier_category out = ["00"; "00"; "00"]%string
      /\ is_nan (bearing_z_score (row_at out 2)) = true)
  /\ (let a := map np_deg2rad [0; 90; 180; 270]%float in
      (resultant_length RefLibm.ext a <? clamp_floor)%float = true
      /\ circular_std RefLibm.ext a = 0x1.dbc41b3571826p+2%float
      /\ is_finite (circular_std RefLibm.ext a) = true)
  /\ (let a := map np_deg2rad [0; 0x1.6800000001f9cp+7]%float in
      (clamp_floor <? resultant_length RefLibm.ext a)%float
      && (resultant_length RefLibm.ext a <? 2.1e-12)%float = true
      /\ is_finite (circular_std RefLibm.ext a) = true
      /\ (7.33 <? circular_std RefLibm.ext a)%float
         && (circular_std RefLibm.ext a <? 7.35)%float = true).
Proof.
  split; [reflexivity|]. vm_compute. repeat split; reflexivity.
Qed.

(** C10. Neighbor bookkeeping.  In every table of a run, each row has
    either neighbor count 0 and no neighbor list, or a list of pairwise
    distinct labels of other rows of its scene, none of them its own, whose
    length is its neighbor count. *)
Theorem neighbor_bookkeeping (E : Extern) (radius_km : float)
    (min_neighbors : Z) (df : list Row) (iter_count : nat) :
  Forall neighbors_ok
    (history E radius_km min_neighbors iter_count None (prepare E df)).
Proof.
  apply history_Forall.
  - apply neighbors_ok_body.
  - apply neighbors_ok_prepare.
Qed.

(** * Further properties of the loop *)

(** The stop rule.  A run of [outlier_search] returns the table after
    exactly [k] passes of the loop body over the prepared table, where [k]
    is the first iteration (counted from 0, and not the first one) whose
    count of "01" rows equals the count of the iteration before it, or
    [iter_count] when there is none.  The iteration that stops records its
    quiver payload and makes no pass: neighbors are not rebuilt and no row
    is reclassified. *)
Theorem stop_rule (E : Extern) (radius_km : float) (min_neighbors : Z)
    (df : list Row) (iter_count : nat) :
  exists k,
    k <= iter_count
    /\ fst (outlier_search E radius_km min_neighbors df iter_count)
       = table_after E radius_km min_neighbors df k
    /\ (forall j, S j < k ->
          count_after E radius_km min_neighbors df (S j)
          <> count_after E radius_km min_neighbors df j)
    /\ ((k = iter_count
         /\ length (snd (outlier_search E radius_km min_neighbors df iter_count))
            = iter_count)
        \/ (k < iter_count
            /\ (exists i, k = S i
                  /\ count_after E radius_km min_neighbors df (S i)
                     = count_after E radius_km min_neighbors df i)
            /\ length (snd (outlier_search E radius_km min_neighbors df iter_count))
               = S k)).
Proof.
  unfold outlier_search.
  destruct (loop_run E radius_km min_neighbors iter_count None (prepare E df) [])
    as [k [Hk [Hf [Hno Hend]]]].
  exists k. split; [exact Hk|]. split; [exact Hf|]. split.
  - intros j Hj. specialize (Hno (S j) Hj).
    cbn [previous_count stable] in Hno. apply Nat.eqb_neq in Hno. exact Hno.
  - destruct Hend as [[-> Hl]|[Hlt [Hst Hl]]].
    + left. split; [reflexivity|exact Hl].
    + right. split; [exact Hlt|]. split; [|exact Hl].
      destruct k as [|i]; [discriminate Hst|].
      exists i. split; [reflexivity|].
      cbn [previous_count stable] in Hst. apply Nat.eqb_eq in Hst. exact Hst.
Qed.

(** Idempotence at a stable pool.  For every table of a run: if one pass
    of the loop body leaves the size of the pool unchanged, a second pass
    changes nothing, in any column. *)
Theorem stable_pool_is_fixed_point (E : Extern) (radius_km : float)
    (min_neighbors : Z) (df : list Row) (iter_count : nat) :
  Forall (fun t =>
            length (pool_df (iteration_body E radius_km min_neighbors t))
            = length (pool_df t) ->
            iteration_body E radius_km min_neighbors
              (iteration_body E radius_km min_neighbors t)
            = iteration_body E radius_km min_neighbors t)
         (history E radius_km min_neighbors iter_count None (prepare E df)).
Proof.
  eapply Forall_impl;
    [|apply (history_Forall E radius_km min_neighbors
               (Inv E radius_km min_neighbors));
      [apply Inv_body|apply Inv_prepare]].
  intros t [Hc _] Hlen. apply stable_pool_fixed; assumption.
Qed.

(** Bounded run.  A run enters at most [iter_count] iterations and records
    one quiver payload per iteration entered; with [iter_count = 1] it is
    exactly one pass of the loop body over the prepared table. *)
Theorem bounded_run (E : Extern) (radius_km : float) (min_neighbors : Z)
    (df : list Row) (iter_count : nat) :
  length (iteration_tables E radius_km min_neighbors iter_count None (prepare E df))
  <= iter_count
  /\ length (snd (outlier_search E radius_km min_neighbors df iter_count))
     = length (iteration_tables E radius_km min_neighbors iter_count None
                 (prepare E df))
  /\ fst (outlier_search E radius_km min_neighbors df 1)
     = iteration_body E radius_km min_neighbors (prepare E df).
Proof.
  split; [apply iteration_tables_bound|]. split; [|reflexivity].
  unfold outlier_search. rewrite loop_quiver. reflexivity.
Qed.

(** Scenario B of the design.  With a minimum of 3 neighbors, one pass
    over [scenario_b] gives the observation at 80 km a distance z-score
    above 3, three neighbors and category "11", and the other three
    category "01". *)
Theorem scenario_b_classified :
  let out := fst (outlier_search RefLibm.ext 20 3 scenario_b 1) in
  map outlier_category out = ["01"; "01"; "01"; "11"]%string
  /\ map neighbor_count out = [3; 3; 3; 3]
  /\ gtb (distance_z_score (row_at out 3)) 3 = true.
Proof. vm_compute. repeat split; reflexivity. Qed.

(** Flagged rows are frozen.  Across the tables of a run, each one against
    every later one: a row outside the pool keeps every column (neighbor
    list, neighbor count, both z-scores and the category) of the pass that
    took it out of the pool; later passes neither recompute nor clear
    them. *)
Theorem flagged_rows_frozen (E : Extern) (radius_km : float)
    (min_neighbors : Z) (df : list Row) (iter_count : nat) :
  StronglySorted frozen
    (history E radius_km min_neighbors iter_count None (prepare E df)).
Proof.
  apply Sorted_StronglySorted.
  - intros a b c. apply frozen_trans.
  - apply history_Sorted_frozen.
    eapply Forall_impl; [|apply prepare_all_inliers].
    intros r Hr Hf. congruence.
Qed.

(** Two iterations are two passes.  With [iter_count = 2], the value
    [detect_outliers] passes, the stop test never changes the result: the
    returned table is the loop body applied twice to the prepared table.
    (The test can only succeed at the second iteration when every row is
    still "01", and then the second pass changes nothing.) *)
Theorem two_iterations_two_passes (E : Extern) (radius_km : float)
    (min_neighbors : Z) (df : list Row) :
  fst (outlier_search E radius_km min_neighbors df 2)
  = iteration_body E radius_km min_neighbors
      (iteration_body E radius_km min_neighbors (prepare E df)).
Proof. apply two_passes. Qed.

(** Scenes do not interact within a pass.  If two tables hold the same
    rows of scene [s] at the same positions, and no other row of either
    belongs to [s], then after one pass of the loop body they still do:
    what the pass writes for an observation depends on the observations of
    its own scene only. *)
Theorem scenes_do_not_interact (E : Extern) (radius_km : float)
    (min_neighbors : Z) (s : nat) (out out' : list ORow) :
  Forall2 (same_scene s) out out' ->
  Forall2 (same_scene s)
          (iteration_body E radius_km min_neighbors out)
          (iteration_body E radius_km min_neighbors out').
Proof. apply body_same_scene. Qed.

Lemma scenes_do_not_interact_witness :
  Forall2 (same_scene 1)
          (prepare RefLibm.ext (with_later_pair 30 120))
          (prepare RefLibm.ext (with_later_pair 70 10))
  /\ Forall2 (same_scene 1)
       (iteration_body RefLibm.ext 20 3 (prepare RefLibm.ext (with_later_pair 30 120)))
       (iteration_body RefLibm.ext 20 3 (prepare RefLibm.ext (with_later_pair 70 10))).
Proof.
  assert (H : Forall2 (same_scene 1)
                (prepare RefLibm.ext (with_later_pair 30 120))
                (prepare RefLibm.ext (with_later_pair 70 10))).
  { vm_compute.
    repeat (apply Forall2_cons;
            [intros [H|H]; try reflexivity; discriminate H|]).
    apply Forall2_nil. }
  split; [exact H|].
  exact (scenes_do_not_interact RefLibm.ext 20 3 1 _ _ H).
Defined.

(** Small tables.  When the table has at most [min_neighbors] observations
    no observation can have [min_neighbors] neighbors, so: every category
    returned has confidence digit 0, and for every [iter_count] of 2 or
    more the run is exactly two passes of the loop body (the count of "01"
    rows is 0 after the first pass, so the stop test succeeds at the third
    iteration at the latest, whatever the second pass changed). *)
Theorem small_table_run (E : Extern) (radius_km : float) (min_neighbors : Z)
    (df : list Row) (k : nat) :
  (Z.of_nat (length df) <= min_neighbors)%Z ->
  Forall (fun r => confidence_digit r = Some "0"%char)
         (fst (outlier_search E radius_km min_neighbors df (S k)))
  /\ fst (outlier_search E radius_km min_neighbors df (S (S k)))
     = iteration_body E radius_km min_neighbors
         (iteration_body E radius_km min_neighbors (prepare E df)).
Proof.
  intro Hm.
  assert (Hm' : (Z.of_nat (length (prepare E df)) <= min_neighbors)%Z)
    by (rewrite prepare_length; assumption).
  split; [|apply small_run; assumption].
  destruct k as [|k].
  - change (fst (outlier_search E radius_km min_neighbors df 1))
      with (iteration_body E radius_km min_neighbors (prepare E df)).
    apply small_body_confidence; [apply prepare_counts_below|assumption].
  - unfold outlier_search. rewrite small_run by assumption.
    apply small_body_confidence.
    + apply body_counts_below, prepare_counts_below.
    + rewrite body_length. assumption.
Qed.

Lemma small_table_run_witness :
  (Z.of_nat (length cascade) <= 10)%Z
  /\ Forall (fun r => confidence_digit r = Some "0"%char)
            (fst (outlier_search RefLibm.ext 20 10 cascade 3))
  /\ fst (outlier_search RefLibm.ext 20 10 cascade 4)
     = iteration_body RefLibm.ext 20 10
         (iteration_body RefLibm.ext 20 10 (prepare RefLibm.ext cascade)).
Proof.
  assert (H : (Z.of_nat (length cascade) <= 10)%Z) by (vm_compute; discriminate).
  split; [exact H|].
  exact (small_table_run RefLibm.ext 20 10 cascade 2 H).
Defined.

(** The recorded neighbor relation is as symmetric as the ball test.
    After a pass, if [j] is among the recorded neighbors of a pool member
    [i] and the ball test also holds from [j] to [i], then [i] is among the
    recorded neighbors of [j]. *)
Theorem neighbors_symmetric (E : Extern) (radius_km : float)
    (min_neighbors : Z) (out_df : list ORow) (i j : nat)
    (ri rj ri' rj' : ORow) :
  nth_error out_df i = Some ri -> nth_error out_df j = Some rj ->
  is_inlier ri = true ->
  nth_error (iteration_body E radius_km min_neighbors out_df) i = Some ri' ->
  nth_error (iteration_body E radius_km min_neighbors out_df) j = Some rj' ->
  In j (recorded_neighbors ri') ->
  in_ball E (radius_m radius_km) (xy rj) (xy ri) = true ->
  In i (recorded_neighbors rj').
Proof. apply neighbor_symmetry. Qed.

Lemma neighbors_symmetric_witness :
  In 1 (recorded_neighbors
          (row_at (iteration_body RefLibm.ext 20 3 (prepare RefLibm.ext scenario_b)) 0))
  /\ in_ball RefLibm.ext (radius_m 20)
             (xy (row_at (prepare RefLibm.ext scenario_b) 1))
             (xy (row_at (prepare RefLibm.ext scenario_b) 0)) = true
  /\ In 0 (recorded_neighbors
             (row_at (iteration_body RefLibm.ext 20 3 (prepare RefLibm.ext scenario_b)) 1)).
Proof.
  set (out := prepare RefLibm.ext scenario_b).
  set (out' := iteration_body RefLibm.ext 20 3 out).
  assert (H1 : nth_error out 0 = Some (row_at out 0)) by reflexivity.
  assert (H2 : nth_error out 1 = Some (row_at out 1)) by reflexivity.
  assert (H3 : is_inlier (row_at out 0) = true) by reflexivity.
  assert (H4 : nth_error out' 0 = Some (row_at out' 0)) by (vm_compute; reflexivity).
  assert (H5 : nth_error out' 1 = Some (row_at out' 1)) by (vm_compute; reflexivity).
  assert (H6 : In 1 (recorded_neighbors (row_at out' 0))) by (vm_compute; auto).
  assert (H7 : in_ball RefLibm.ext (radius_m 20) (xy (row_at out 1)) (xy (row_at out 0))
               = true) by (vm_compute; reflexivity).
  split; [exact H6|]. split; [exact H7|].
  exact (neighbors_symmetric RefLibm.ext 20 3 out 0 1 _ _ _ _ H1 H2 H3 H4 H5 H6 H7).
Defined.

(** The quiver payloads.  The payloads returned by [outlier_search] are,
    in order, the X, Y, u and v arrays of the pool at the start of each
    iteration entered; the first one holds every observation of the table,
    in sorted order; and from one iteration to every later one the pool
    they are taken from does not grow. *)
Theorem quiver_payloads_are_pools (E : Extern) (radius_km : float)
    (min_neighbors : Z) (df : list Row) (iter_count : nat) :
  snd (outlier_search E radius_km min_neighbors df iter_count)
  = map (fun t => quiver_payload (pool_df t))
        (iteration_tables E radius_km min_neighbors iter_count None (prepare E df))
  /\ hd_error (snd (outlier_search E radius_km min_neighbors df (S iter_count)))
     = Some (map X1 (sort_values df), map Y1 (sort_values df),
             map dx (sort_values df), map dy (sort_values df))
  /\ StronglySorted
       (fun t t' => length (pool_df t') <= length (pool_df t))
       (iteration_tables E radius_km min_neighbors iter_count None (prepare E df)).
Proof.
  split; [|split].
  - unfold outlier_search. rewrite loop_payloads. reflexivity.
  - unfold outlier_search. rewrite loop_payloads.
    cbn [iteration_tables map app hd_error]. rewrite first_payload. reflexivity.
  - assert (H : StronglySorted shrinks
                  (iteration_tables E radius_km min_neighbors iter_count None
                     (prepare E df))).
    { apply Sorted_StronglySorted.
      - intros a b c. apply shrinks_trans.
      - apply tables_Sorted. apply Inv_prepare. }
    induction H as [|t l Hl IH Ht]; constructor; [exact IH|].
    eapply Forall_impl; [|exact Ht]. intros t' (_ & Hp & _). exact Hp.
Qed.

(** * Properties of the configuration reader *)

Lemma lookup_assign (k k' : string) (v : json) (d : dict) :
  lookup k' (assign k v d)
  = if String.eqb k' k
    then match lookup k d with Some _ => Some v | None => None end
    else lookup k' d.
Proof.
  induction d as [|[k0 v0] d IH]; cbn [assign lookup].
  - destruct (String.eqb k' k); reflexivity.
  - destruct (String.eqb k k0) eqn:H0; cbn [lookup].
    + apply String.eqb_eq in H0. subst k0.
      destruct (String.eqb k' k); reflexivity.
    + destruct (String.eqb k' k0) eqn:H1.
      * apply String.eqb_eq in H1. subst k0.
        rewrite String.eqb_sym, H0. reflexivity.
      * exact IH.
Qed.

Lemma keys_assign (k : string) (v : json) (d : dict) :
  map fst (assign k v d) = map fst d.
Proof.
  induction d as [|[k0 v0] d IH]; cbn [assign map fst]; [reflexivity|].
  destruct (String.eqb k k0); cbn [map fst]; congruence.
Qed.

Lemma check_keys_assign (k : string) (v : json) (d : dict) :
  check_keys (assign k v d) = check_keys d.
  Proof. unfold check_keys. rewrite keys_assign. reflexivity. Qed.

Lemma check_keys_cases (d : dict) (fs : list string) :
  check_keys d fs = (Return tt, fs)
  \/ check_keys d fs = (SystemExit 2, fs)
  \/ check_keys d fs = (SystemExit 3, fs).
Proof.
  unfold check_keys, exit_if, bind, ret, error_msg.
  destruct (set_minus required_json_keys (map fst d)),
           (set_minus (map fst d) required_json_keys); cbn; auto.
Qed.

Lemma set_minus_In (a b : list string) (k : string) :
  In k (set_minus a b) <-> In k a /\ ~ In k b.
Proof.
  unfold set_minus. rewrite filter_In, negb_true_iff.
  split; intros [H1 H2]; split; auto.
  - intro Hin. assert (Hex : existsb (String.eqb k) b = true).
    { apply existsb_exists. exists k. split; [assumption|apply String.eqb_refl]. }
    congruence.
  - destruct (existsb (String.eqb k) b) eqn:Hex; [|reflexivity].
    apply existsb_exists in Hex. destruct Hex as [x [Hx Hk]].
    apply String.eqb_eq in Hk. subst x. contradiction.
Qed.

Lemma check_keys_Return (d : dict) (fs : list string) (u : unit) (fs' : list string) :
  check_keys d fs = (Return u, fs') ->
  fs' = fs /\ forall k, In k (map fst d) <-> In k required_json_keys.
Proof.
  unfold check_keys, exit_if, bind, ret, error_msg.
  destruct (set_minus required_json_keys (map fst d)) as [|m ms] eqn:Hm;
    [|cbn; discriminate].
  destruct (set_minus (map fst d) required_json_keys) as [|e es] eqn:He;
    [|cbn; discriminate].
  cbn. intro H. injection H as _ <-. split; [reflexivity|].
  intro k. split; intro Hin.
  - destruct (in_dec string_dec k required_json_keys) as [Hr|Hr]; [assumption|].
    assert (Hk : In k (set_minus (map fst d) required_json_keys))
      by (apply set_minus_In; auto).
    rewrite He in Hk. destruct Hk.
  - destruct (in_dec string_dec k (map fst d)) as [Hr|Hr]; [assumption|].
    assert (Hk : In k (set_minus required_json_keys (map fst d)))
      by (apply set_minus_In; auto).
    rewrite Hm in Hk. destruct Hk.
Qed.

Lemma check_keys_missing (d : dict) (fs : list string) (k : string) :
  In k required_json_keys -> ~ In k (map fst d) ->
  check_keys d fs = (SystemExit 2, fs).
Proof.
  intros H1 H2.
  assert (Hk : In k (set_minus required_json_keys (map fst d)))
    by (apply set_minus_In; auto).
  unfold check_keys, exit_if, bind, ret, error_msg.
  destruct (set_minus required_json_keys (map fst d)); [destruct Hk|reflexivity].
Qed.

Lemma check_keys_extra (d : dict) (fs : list string) (k : string) :
  (forall r, In r required_json_keys -> In r (map fst d)) ->
  In k (map fst d) -> ~ In k required_json_keys ->
  check_keys d fs = (SystemExit 3, fs).
Proof.
  intros Hall H1 H2.
  assert (Hk : In k (set_minus (map fst d) required_json_keys))
    by (apply set_minus_In; auto).
  unfold check_keys, exit_if, bind, ret, error_msg.
  destruct (set_minus required_json_keys (map fst d)) as [|m ms] eqn:Hm.
  - destruct (set_minus (map fst d) required_json_keys); [destruct Hk|reflexivity].
  - assert (Hin : In m (set_minus required_json_keys (map fst d)))
      by (rewrite Hm; left; reflexivity).
    apply set_minus_In in Hin. destruct Hin as [Hr Hn]. elim Hn. auto.
Qed.

(** How each step of the validation ends: the directories created so far
    and, by outcome, what is known of the value read. *)
Lemma bind_elim {A B : Type} (m : M A) (k : A -> M B) (fs : list string)
    (P : outcome B * list string -> Prop) :
  (forall a fs1, m fs = (Return a, fs1) -> P (k a fs1)) ->
  (forall rc fs1, m fs = (SystemExit rc, fs1) -> P (SystemExit rc, fs1)) ->
  (forall e fs1, m fs = (Raised e, fs1) -> P (Raised e, fs1)) ->
  P (bind m k fs).
Proof.
  intros H1 H2 H3. unfold bind.
  destruct (m fs) as [[a|rc|e] fs1]; auto.
Qed.

Lemma get_bool_inv (d : dict) (k : string) (rc : Z) (fs : list string)
    (o : outcome bool) (fs1 : list string) :
  get_bool d k rc fs = (o, fs1) ->
  fs1 = fs
  /\ match o with
     | Return b => lookup k d = Some (JBool b)
     | SystemExit rc' => rc' = rc
     | Raised _ => True
     end.
Proof.
  unfold get_bool, getitem, bind, ret, error_msg, raise.
  destruct (lookup k d) as [[]|]; intro H; injection H as <- <-; auto.
Qed.

Lemma get_int_inv (d : dict) (k : string) (rc : Z) (fs : list string)
    (o : outcome Z) (fs1 : list string) :
  get_int d k rc fs = (o, fs1) ->
  fs1 = fs
  /\ match o with
     | Return z =>
       lookup k d = Some (JInt z)
       \/ exists b, lookup k d = Some (JBool b) /\ z = (if b then 1 else 0)%Z
     | SystemExit rc' => rc' = rc
     | Raised _ => True
     end.
Proof.
  unfold get_int, getitem, bind, ret, error_msg, raise.
  destruct (lookup k d) as [[]|]; intro H; injection H as <- <-; eauto.
Qed.

Lemma get_float_inv (d : dict) (k : string) (rc : Z) (fs : list string)
    (o : outcome float) (fs1 : list string) :
  get_float d k rc fs = (o, fs1) ->
  fs1 = fs
  /\ match o with
     | Return f => lookup k d = Some (JFloat f)
     | SystemExit rc' => rc' = rc
     | Raised _ => True
     end.
Proof.
  unfold get_float, getitem, bind, ret, error_msg, raise.
  destruct (lookup k d) as [[]|]; intro H; injection H as <- <-; auto.
Qed.

Lemma get_path_inv (os : OS) (d : dict) (k : string) (fs : list string)
    (o : outcome string) (fs1 : list string) :
  get_path os d k fs = (o, fs1) ->
  fs1 = fs
  /\ match o with
     | Return p => exists s, lookup k d = Some (JStr s) /\ p = normpath os s
     | SystemExit _ => False
     | Raised _ => True
     end.
Proof.
  unfold get_path, getitem, bind, ret, error_msg, raise.
  destruct (lookup k d) as [[]|]; intro H; injection H as <- <-; eauto.
Qed.

Lemma get_delimiter_inv (os : OS) (d : dict) (fs : list string)
    (o : outcome string) (fs1 : list string) :
  get_delimiter os d fs = (o, fs1) ->
  fs1 = fs
  /\ match o with
     | Return t => exists s, lookup "delimiter" d = Some (JStr s)
                             /\ unicode_escape os s = Some t
     | SystemExit _ => False
     | Raised _ => True
     end.
Proof.
  unfold get_delimiter, getitem, bind, ret, error_msg, raise.
  destruct (lookup "delimiter" d) as [[| | | |s| |]|];
    try (intro H; injection H as <- <-; auto; fail).
  destruct (unicode_escape os s) eqn:He; intro H; injection H as <- <-; eauto.
Qed.

Lemma getitem_inv (d : dict) (k : string) (fs : list string)
    (o : outcome json) (fs1 : list string) :
  getitem d k fs = (o, fs1) ->
  fs1 = fs
  /\ match o with
     | Return v => lookup k d = Some v
     | SystemExit _ => False
     | Raised _ => True
     end.
Proof.
  unfold getitem, ret, raise.
  destruct (lookup k d); intro H; injection H as <- <-; auto.
Qed.

Lemma exit_if_inv (cond : bool) (rc : Z) (fs : list string)
    (o : outcome unit) (fs1 : list string) :
  exit_if cond rc fs = (o, fs1) ->
  fs1 = fs
  /\ match o with
     | Return _ => cond = false
     | SystemExit rc' => rc' = rc /\ cond = true
     | Raised _ => False
     end.
Proof.
  unfold exit_if, ret, error_msg.
  destruct cond; intro H; injection H as <- <-; auto.
Qed.

Lemma makedirs_inv (os : OS) (p : string) (fs : list string)
    (o : outcome unit) (fs1 : list string) :
  makedirs os p fs = (o, fs1) ->
  fs1 = match o with
        | Return _ => fs ++ [p]
        | _ => fs
        end
  /\ match o with
     | Return _ => makedirs_raises os p = false
     | SystemExit _ => False
     | Raised e => e = OSError /\ makedirs_raises os p = true
     end.
Proof.
  unfold makedirs.
  destruct (makedirs_raises os p); intro H; injection H as <- <-; auto.
Qed.

Lemma check_keys_inv (d : dict) (fs : list string)
    (o : outcome unit) (fs1 : list string) :
  check_keys d fs = (o, fs1) ->
  fs1 = fs
  /\ match o with
     | Return _ => forall k, In k (map fst d) <-> In k required_json_keys
     | SystemExit rc => rc = 2%Z \/ rc = 3%Z
     | Raised _ => False
     end.
Proof.
  intro H. destruct o as [u|rc|e].
  - apply check_keys_Return in H. exact H.
  - destruct (check_keys_cases d fs) as [H1|[H1|H1]];
      rewrite H1 in H; inversion H; auto.
  - destruct (check_keys_cases d fs) as [H1|[H1|H1]];
      rewrite H1 in H; inversion H.
Qed.

(** One step of the chain: the first call of the sequence is split by
    outcome, and what it says of its result is put in the context. *)
Ltac step_inv H :=
  first [ apply get_bool_inv in H | apply get_int_inv in H
        | apply get_float_inv in H | apply get_path_inv in H
        | apply get_delimiter_inv in H | apply getitem_inv in H
        | apply exit_if_inv in H
        | apply makedirs_inv in H; cbv beta iota in H
        | apply check_keys_inv in H ].

Ltac step :=
  match goal with
  | |- context [bind ?m ?k ?fs] =>
    pattern (bind m k fs); apply bind_elim;
    [ let a := fresh "a" in let fs1 := fresh "fs" in let H := fresh "Hs" in
      intros a fs1 H; step_inv H; destruct H as [-> H]; cbv beta zeta
    | let rc := fresh "rc" in let fs1 := fresh "fs" in let H := fresh "Hx" in
      intros rc fs1 H; step_inv H; destruct H as [-> H]; cbv beta
    | let e := fresh "e" in let fs1 := fresh "fs" in let H := fresh "Hr" in
      intros e fs1 H; step_inv H; destruct H as [-> H]; cbv beta ]
  end.

Lemma validate_Return (os : OS) (config : dict) (fs fs' : list string) (c : Config) :
  validate os config fs = (Return c, fs') ->
  (forall k, In k (map fst config) <-> In k required_json_keys)
  /\ path_exists os (if batch_process c then sar_drift_directory c
                     else sar_drift_file c) = true
  /\ (use_geotiff c = true -> path_exists os (sar_geotiff_file c) = true)
  /\ path_exists os (netcdf_cdl_file c) = true
  /\ path_exists os (output_dir c) = true
  /\ (0 <= skip_rows_before_header c)%Z
  /\ (1 <= ignore_vector_threshold c)%Z
  /\ (1 <= vector_stride c)%Z
  /\ isinstance_int (inlier_vector_stride c) = true
  /\ lookup "inlier_vector_stride" config = Some (inlier_vector_stride c)
  /\ [formatted_data_dir c; gpkg_dir c; nc_dir c; png_dir c]
     = subfolders os (output_dir c)
  /\ fs' = fs ++ subfolders os (output_dir c).
Proof.
  unfold validate.
  repeat (step; [|intro Hd; discriminate Hd|intro Hd; discriminate Hd]).
  unfold ret. intro H. injection H as <- <-.
  cbn [batch_process sar_drift_directory sar_drift_file use_geotiff
       sar_geotiff_file netcdf_cdl_file output_dir skip_rows_before_header
       ignore_vector_threshold vector_stride inlier_vector_stride
       formatted_data_dir gpkg_dir nc_dir png_dir].
  repeat match goal with
         | H : negb _ = false |- _ => apply negb_false_iff in H
         | H : Z.ltb _ _ = false |- _ => apply Z.ltb_ge in H
         end.
  repeat apply conj; try assumption.
  - match goal with
    | H1 : negb (path_exists os ?p) && ?b = false,
      H2 : negb (path_exists os ?q) && negb ?b = false |- _ =>
      destruct b, (path_exists os p), (path_exists os q);
        try reflexivity; discriminate
    end.
  - intros ->.
    match goal with
    | H1 : negb (path_exists os ?p) && true = false |- _ =>
      destruct (path_exists os p); [reflexivity|discriminate]
    end.
  - reflexivity.
  - unfold subfolders. cbn [map]. rewrite <- !app_assoc. reflexivity.
Qed.

Lemma bind_exit {A B : Type} (m : M A) (k : A -> M B) (fs fs1 : list string)
    (rc : Z) :
  m fs = (SystemExit rc, fs1) -> bind m k fs = (SystemExit rc, fs1).
  Proof. intro H. unfold bind. rewrite H. reflexivity. Qed.

Lemma bind_ret {A B : Type} (a : A) (k : A -> M B) (fs : list string) :
  bind (ret a) k fs = k a fs.
  Proof. reflexivity. Qed.

Lemma bind_with (v : json) {A : Type} (m : M A) (k k' : A -> M Config)
    (fs : list string) :
  (forall a fs1, k a fs1 = with_inlier_vector_stride v (k' a fs1)) ->
  bind m k fs = with_inlier_vector_stride v (bind m k' fs).
Proof.
  intro H. unfold bind. destruct (m fs) as [[a|rc|e] fs1]; [apply H| |]; reflexivity.
Qed.

(** Reading a key other than the one assigned. *)
Lemma getitem_assign_ne (k k' : string) (v : json) (d : dict) :
  String.eqb k' k = false -> getitem (assign k v d) k' = getitem d k'.
  Proof. intro H. unfold getitem. rewrite lookup_assign, H. reflexivity. Qed.

Lemma get_bool_assign_ne (k k' : string) (v : json) (d : dict) (rc : Z) :
  String.eqb k' k = false -> get_bool (assign k v d) k' rc = get_bool d k' rc.
  Proof. intro H. unfold get_bool. rewrite getitem_assign_ne by exact H. reflexivity. Qed.

Lemma get_int_assign_ne (k k' : string) (v : json) (d : dict) (rc : Z) :
  String.eqb k' k = false -> get_int (assign k v d) k' rc = get_int d k' rc.
  Proof. intro H. unfold get_int. rewrite getitem_assign_ne by exact H. reflexivity. Qed.

Lemma get_float_assign_ne (k k' : string) (v : json) (d : dict) (rc : Z) :
  String.eqb k' k = false -> get_float (assign k v d) k' rc = get_float d k' rc.
  Proof. intro H. unfold get_float. rewrite getitem_assign_ne by exact H. reflexivity. Qed.

Lemma get_path_assign_ne (os : OS) (k k' : string) (v : json) (d : dict) :
  String.eqb k' k = false -> get_path os (assign k v d) k' = get_path os d k'.
  Proof. intro H. unfold get_path. rewrite getitem_assign_ne by exact H. reflexivity. Qed.

Lemma get_delimiter_assign_ne (os : OS) (k : string) (v : json) (d : dict) :
  String.eqb "delimiter" k = false ->
  get_delimiter os (assign k v d) = get_delimiter os d.
  Proof. intro H. unfold get_delimiter. rewrite getitem_assign_ne by exact H. reflexivity. Qed.

Lemma getitem_assign_eq (k : string) (v v' : json) (d : dict) :
  lookup k d = Some v -> getitem (assign k v' d) k = ret v'.
Proof.
  intro H. unfold getitem. rewrite lookup_assign, String.eqb_refl, H. reflexivity.
Qed.

(** A JSON boolean under a key read as an integer is read as 1 or 0. *)
Lemma get_int_assign_bool (k : string) (b : bool) (d : dict) (rc : Z) :
  lookup k d = Some (JBool b) ->
  get_int (assign k (JInt (if b then 1 else 0)) d) k rc = get_int d k rc.
Proof.
  intro H. unfold get_int, getitem.
  rewrite lookup_assign, String.eqb_refl, H. reflexivity.
Qed.

Ltac other_key k :=
  try (rewrite (get_bool_assign_ne _ k) by reflexivity);
  try (rewrite (get_int_assign_ne _ k) by reflexivity);
  try (rewrite (get_float_assign_ne _ k) by reflexivity);
  try (rewrite (get_path_assign_ne _ _ k) by reflexivity);
  try (rewrite (getitem_assign_ne _ k) by reflexivity).

Ltac other_keys :=
  rewrite ?check_keys_assign;
  try (rewrite get_delimiter_assign_ne by reflexivity);
  other_key "batch_process"%string;
  other_key "sar_drift_directory"%string;
  other_key "sar_drift_filename"%string;
  other_key "use_geotiff"%string;
  other_key "sar_geotiff_filename"%string;
  other_key "netcdf_cdl_file"%string;
  other_key "output_dir"%string;
  other_key "skip_rows_before_header"%string;
  other_key "detect_outliers"%string;
  other_key "ignore_vector_threshold"%string;
  other_key "create_region_plot"%string;
  other_key "vector_stride"%string;
  other_key "inlier_vector_stride"%string;
  other_key "quiver_scale_small_area"%string;
  other_key "quiver_scale_large_area"%string;
  other_key "precision"%string;
  other_key "verbose"%string.

Lemma validate_statuses (os : OS) (config : dict) (fs : list string) :
  status_in [2; 3; 4; 5; 6; 7; 8; 9; 10; 11; 12; 13; 14; 15; 16; 17; 18; 19;
             21; 22; 23; 24]%Z
            (fst (validate os config fs)) = true.
Proof.
  unfold validate.
  repeat (step;
          [|solve [ contradiction
                  | subst; reflexivity
                  | destruct Hx as [-> | ->]; reflexivity
                  | destruct Hx as [-> Hx]; first [reflexivity|congruence] ]
           |reflexivity]).
  reflexivity.
Qed.

Lemma validate_exit (os : OS) (config : dict) (fs fs' : list string) (rc : Z) :
  validate os config fs = (SystemExit rc, fs') ->
  ((rc <= 10)%Z /\ fs' = fs)
  \/ ((11 <= rc)%Z
      /\ exists out, path_exists os out = true /\ fs' = fs ++ subfolders os out).
Proof.
  unfold validate.
  do 13 (step;
         [|intro Hd; injection Hd as <- <-; left;
           solve [ contradiction
                 | subst; split; [lia|reflexivity]
                 | destruct Hx as [-> | ->]; split; [lia|reflexivity]
                 | destruct Hx as [-> Hx]; split; [lia|reflexivity] ]
          |intro Hd; discriminate Hd]).
  repeat (step;
          [|intro Hd; injection Hd as <- <-;
            first
              [ contradiction
              | right; split;
                [ solve [ subst; lia | destruct Hx as [-> Hx]; lia ]
                | match goal with
                  | H : negb (path_exists os ?p) = false |- _ =>
                    exists p; split;
                    [ apply negb_false_iff in H; exact H
                    | unfold subfolders; cbn [map]; rewrite <- !app_assoc;
                      reflexivity ]
                  end ] ]
           |intro Hd; discriminate Hd]).
  intro Hd. discriminate Hd.
Qed.

Lemma read_json_config_Return (os : OS) (load : string -> exn + json)
    (args : parsed) (fs fs' : list string) (c : Config) :
  read_json_config os load args fs = (Return c, fs') ->
  exists f config,
    args = Namespace (Some f) /\ f <> EmptyString
    /\ load (normpath os f) = inr (JDict config)
    /\ validate os config fs = (Return c, fs').
Proof.
  unfold read_json_config. intro H.
  destruct args as [| |[[|ch f]|]]; try discriminate H.
  destruct (load (normpath os (String ch f))) as [e|[| | | | | |config]] eqn:Hl;
    try discriminate H.
  exists (String ch f), config.
  split; [reflexivity|]. split; [discriminate|]. split; [exact Hl|exact H].
Qed.

(** What an accepted configuration guarantees.  When [read_json_config]
    returns, the command line was parsed, the config file argument was
    given and not empty, the file
    held a dict whose keys are exactly the required ones, and of the dict
    returned: the input that the mode uses exists (the directory in batch
    mode, the single file otherwise), the GeoTIFF exists if it is to be
    used, the CDL file and the output directory exist, the numbers of rows
    to skip is not negative, the vector threshold and the vector stride
    are at least 1, 'inlier_vector_stride' is the value of the file, an
    integer or a boolean with no bound, and the four subfolders of the
    output directory are the ones created, in order, by the call. *)
Theorem accepted_config (os : OS) (load : string -> exn + json)
    (args : parsed) (fs fs' : list string) (c : Config) :
  read_json_config os load args fs = (Return c, fs') ->
  exists f config,
    args = Namespace (Some f) /\ f <> EmptyString
    /\ load (normpath os f) = inr (JDict config)
    /\ (forall k, In k (map fst config) <-> In k required_json_keys)
    /\ path_exists os (if batch_process c then sar_drift_directory c
                       else sar_drift_file c) = true
    /\ (use_geotiff c = true -> path_exists os (sar_geotiff_file c) = true)
    /\ path_exists os (netcdf_cdl_file c) = true
    /\ path_exists os (output_dir c) = true
    /\ (0 <= skip_rows_before_header c)%Z
    /\ (1 <= ignore_vector_threshold c)%Z
    /\ (1 <= vector_stride c)%Z
    /\ isinstance_int (inlier_vector_stride c) = true
    /\ lookup "inlier_vector_stride" config = Some (inlier_vector_stride c)
    /\ [formatted_data_dir c; gpkg_dir c; nc_dir c; png_dir c]
       = subfolders os (output_dir c)
    /\ fs' = fs ++ subfolders os (output_dir c).
Proof.
  intro H.
  destruct (read_json_config_Return os load args fs fs' c H)
    as (f & config & Hf & Hne & Hl & Hv).
  exists f, config.
  split; [exact Hf|]. split; [exact Hne|]. split; [exact Hl|].
  apply validate_Return. exact Hv.
Qed.

Lemma accepted_config_witness :
  read_json_config example_os (fun _ => inr (JDict example_config))
                   (Namespace (Some "config.json"%string)) []
  = (Return example_accepted,
     [ "/out/formatted_data"; "/out/gpkg"; "/out/nc"; "/out/png" ]%string)
  /\ path_exists example_os (sar_drift_file example_accepted) = true
  /\ (1 <= vector_stride example_accepted)%Z.
Proof.
  assert (H : read_json_config example_os (fun _ => inr (JDict example_config))
                (Namespace (Some "config.json"%string)) []
              = (Return example_accepted,
                 [ "/out/formatted_data"; "/out/gpkg"; "/out/nc"; "/out/png" ]%string))
    by (vm_compute; reflexivity).
  split; [exact H|].
  destruct (accepted_config _ _ _ _ _ _ H)
    as (f & config & _ & _ & _ & _ & Hp & _ & _ & _ & _ & _ & Hv & _).
  split; [exact Hp|exact Hv].
Defined.

(** Exit statuses.  Whatever the command line, the file system and the
    file, a call of [read_json_config] that exits does so with status 0
    (the help of argparse), with status 2 (a command line that argparse
    rejects, or a missing key), or with one of the other statuses from 1
    to 19 or from 21 to 24: status 20 is never produced (its test repeats
    the test of status 18 on 'vector_stride'). *)
Theorem exit_statuses (os : OS) (load : string -> exn + json)
    (args : parsed) (fs : list string) :
  status_in [0; 1; 2; 3; 4; 5; 6; 7; 8; 9; 10; 11; 12; 13; 14; 15; 16; 17;
             18; 19; 21; 22; 23; 24]%Z
            (fst (read_json_config os load args fs)) = true
  /\ fst (read_json_config os load Help fs) = SystemExit 0
  /\ fst (read_json_config os load UsageError fs) = SystemExit 2
  /\ (forall rc, fst (read_json_config os load args fs) = SystemExit rc ->
        rc = 0%Z -> args = Help).
Proof.
  split; [|split; [reflexivity|split; [reflexivity|]]].
  - unfold read_json_config.
    destruct args as [| |[[|ch f]|]]; try reflexivity.
    destruct (load (normpath os (String ch f))) as [e|[| | | | | |config]];
      try reflexivity.
    assert (H := validate_statuses os config fs).
    destruct (validate os config fs) as [[c|rc|e] fs1]; try reflexivity.
    cbn [fst status_in existsb] in *.
    apply orb_true_iff. right. apply orb_true_iff. right. exact H.
  - intros rc H ->. unfold read_json_config in H.
    destruct args as [| |[[|ch f]|]]; try reflexivity; try discriminate H.
    destruct (load (normpath os (String ch f))) as [e|[| | | | | |config]];
      try discriminate H.
    assert (Hs := validate_statuses os config fs).
    rewrite H in Hs. discriminate Hs.
Qed.

(** A rejected configuration can leave directories behind.  When
    [read_json_config] exits with a status up to 10, it has created no
    directory; when it exits with a status from 11 on, it has created the
    four subfolders of an existing output directory. *)
Theorem rejected_after_makedirs (os : OS) (load : string -> exn + json)
    (args : parsed) (fs fs' : list string) (rc : Z) :
  read_json_config os load args fs = (SystemExit rc, fs') ->
  ((rc <= 10)%Z /\ fs' = fs)
  \/ ((11 <= rc)%Z
      /\ exists out, path_exists os out = true /\ fs' = fs ++ subfolders os out).
Proof.
  unfold read_json_config. intro H.
  destruct args as [| |[[|ch f]|]].
  - injection H as <- <-. left. split; [lia|reflexivity].
  - injection H as <- <-. left. split; [lia|reflexivity].
  - injection H as <- <-. left. split; [lia|reflexivity].
  - destruct (load (normpath os (String ch f))) as [e|[| | | | | |config]];
      try discriminate H.
    apply validate_exit in H. exact H.
  - injection H as <- <-. left. split; [lia|reflexivity].
Qed.

Lemma rejected_after_makedirs_witness :
  read_json_config example_os
    (fun _ => inr (JDict (assign "precision" (JStr "3") example_config)))
    (Namespace (Some "config.json"%string)) []
  = (SystemExit 23,
     [ "/out/formatted_data"; "/out/gpkg"; "/out/nc"; "/out/png" ]%string)
  /\ (((23 <= 10)%Z
       /\ [ "/out/formatted_data"; "/out/gpkg"; "/out/nc"; "/out/png" ]%string = [])
      \/ ((11 <= 23)%Z
          /\ exists out,
               path_exists example_os out = true
               /\ [ "/out/formatted_data"; "/out/gpkg"; "/out/nc"; "/out/png" ]%string
                  = [] ++ subfolders example_os out)).
Proof.
  assert (H : read_json_config example_os
                (fun _ => inr (JDict (assign "precision" (JStr "3") example_config)))
                (Namespace (Some "config.json"%string)) []
              = (SystemExit 23,
                 [ "/out/formatted_data"; "/out/gpkg"; "/out/nc"; "/out/png" ]%string))
    by (vm_compute; reflexivity).
  split; [exact H|].
  exact (rejected_after_makedirs _ _ _ _ _ _ H).
Defined.

(** The key check.  A dict that lacks a required key is rejected with
    status 2, whatever else it holds (unexpected keys included); a dict
    with every required key and a key that is not required is rejected
    with status 3.  Neither reads a value or creates a directory. *)
Theorem key_check (os : OS) (config : dict) (fs : list string) :
  ((exists k, In k required_json_keys /\ ~ In k (map fst config)) ->
   validate os config fs = (SystemExit 2, fs))
  /\ ((forall k, In k required_json_keys -> In k (map fst config)) ->
      (exists k, In k (map fst config) /\ ~ In k required_json_keys) ->
      validate os config fs = (SystemExit 3, fs)).
Proof.
  split.
  - intros [k [H1 H2]]. unfold validate. apply bind_exit.
    apply check_keys_missing with k; assumption.
  - intros Hall [k [H1 H2]]. unfold validate. apply bind_exit.
    apply check_keys_extra with k; assumption.
Qed.

Lemma key_check_witness :
  validate example_os (("comment"%string, JNull) :: tl example_config) []
  = (SystemExit 2, [])
  /\ validate example_os (("comment"%string, JNull) :: example_config) []
     = (SystemExit 3, []).
Proof.
  split.
  - apply (proj1 (key_check example_os _ [])).
    exists "sar_drift_directory"%string. split.
    + left. reflexivity.
    + intro H. vm_compute in H.
      repeat (destruct H as [H|H]; [discriminate H|]). exact H.
  - apply (proj2 (key_check example_os _ [])).
    + intros k Hk. right. vm_compute in Hk. vm_compute.
      repeat (destruct Hk as [Hk|Hk]; [rewrite <- Hk; tauto|]). destruct Hk.
    + exists "comment"%string. split.
      * left. reflexivity.
      * intro H. vm_compute in H.
        repeat (destruct H as [H|H]; [discriminate H|]). exact H.
Defined.

(** 'inlier_vector_stride' is never range-checked.  For a dict that holds
    an integer or a boolean under 'inlier_vector_stride', replacing it by
    any other integer or boolean, zero and negative integers included,
    changes nothing in the outcome but the value returned under that key:
    the same exit status or exception, the same directories created, and
    on acceptance the same dict but for that entry. *)
Theorem inlier_vector_stride_unchecked (os : OS) (config : dict)
    (v v' : json) (fs : list string) :
  lookup "inlier_vector_stride" config = Some v ->
  isinstance_int v = true -> isinstance_int v' = true ->
  validate os (assign "inlier_vector_stride" v' config) fs
  = with_inlier_vector_stride v' (validate os config fs).
Proof.
  intros Hl Hv Hv'. unfold validate. other_keys.
  rewrite (getitem_assign_eq _ v v' config Hl).
  unfold getitem at 1. rewrite Hl.
  do 26 (apply bind_with; intros ? ?).
  rewrite !bind_ret, Hv, Hv'.
  repeat (apply bind_with; intros ? ?).
  reflexivity.
Qed.

Lemma inlier_vector_stride_unchecked_witness :
  lookup "inlier_vector_stride" example_config = Some (JInt 4)
  /\ fst (validate example_os
            (assign "inlier_vector_stride" (JInt (-7)) example_config) [])
     = fst (with_inlier_vector_stride (JInt (-7))
              (validate example_os example_config [])).
Proof.
  assert (H : lookup "inlier_vector_stride" example_config = Some (JInt 4))
    by reflexivity.
  split; [exact H|].
  rewrite (inlier_vector_stride_unchecked example_os example_config
             (JInt 4) (JInt (-7)) [] H eq_refl eq_refl).
  reflexivity.
Defined.

(** Booleans pass as integers.  Under 'skip_rows_before_header',
    'ignore_vector_threshold', 'vector_stride' and 'precision' a JSON
    boolean is not rejected: the dict is treated exactly as if the key
    held 1 for true and 0 for false. *)
Theorem booleans_pass_as_integers (os : OS) (config : dict) (k : string)
    (b : bool) (fs : list string) :
  In k converted_int_keys ->
  lookup k config = Some (JBool b) ->
  validate os (assign k (JInt (if b then 1 else 0)) config) fs
  = validate os config fs.
Proof.
  intros Hin Hl. unfold converted_int_keys in Hin. cbn [In] in Hin.
  destruct Hin as [<-|[<-|[<-|[<-|[]]]]]; unfold validate; other_keys;
    rewrite (get_int_assign_bool _ b config _ Hl); reflexivity.
Qed.

Lemma booleans_pass_as_integers_witness :
  In "skip_rows_before_header"%string converted_int_keys
  /\ lookup "skip_rows_before_header" example_config = Some (JBool true)
  /\ validate example_os
       (assign "skip_rows_before_header" (JInt 1) example_config) []
     = validate example_os example_config [].
Proof.
  assert (H1 : In "skip_rows_before_header"%string converted_int_keys)
    by (left; reflexivity).
  assert (H2 : lookup "skip_rows_before_header" example_config = Some (JBool true))
    by reflexivity.
  split; [exact H1|]. split; [exact H2|].
  exact (booleans_pass_as_integers example_os example_config _ true [] H1 H2).
Defined.

(** * Properties of the grid mapping *)

(** ** The order of binary64 numbers *)

Lemma SFcompare_rank (f1 f2 : spec_float) :
  f1 <> S754_nan -> f2 <> S754_nan ->
  SFcompare f1 f2 = Some (NetCDF.lex3 (NetCDF.rank f1) (NetCDF.rank f2)).
Proof.
  intros H1 H2.
  destruct f1 as [s1|s1| |s1 m1 e1], f2 as [s2|s2| |s2 m2 e2];
    try congruence; unfold NetCDF.lex3, NetCDF.rank, SFcompare;
    try (destruct s1); try (destruct s2); try reflexivity;
    cbn [fst snd]; rewrite ?Z.compare_refl.
  - rewrite !Z.compare_opp, (Z.compare_antisym e1 e2).
    destruct (Z.compare e1 e2); cbn [CompOpp]; try reflexivity.
    f_equal. change (Z.pos m2 ?= Z.pos m1)%Z with (Pos.compare m2 m1).
    rewrite (Pos.compare_antisym m1 m2). reflexivity.
Qed.

Lemma lex3_spec (a b : Z * Z * Z) :
  match NetCDF.lex3 a b with
  | Lt => (fst (fst a) < fst (fst b)
           \/ (fst (fst a) = fst (fst b)
               /\ (snd (fst a) < snd (fst b)
                   \/ (snd (fst a) = snd (fst b) /\ snd a < snd b))))%Z
  | Eq => (fst (fst a) = fst (fst b) /\ snd (fst a) = snd (fst b)
           /\ snd a = snd b)%Z
  | Gt => (fst (fst b) < fst (fst a)
           \/ (fst (fst a) = fst (fst b)
               /\ (snd (fst b) < snd (fst a)
                   \/ (snd (fst a) = snd (fst b) /\ snd b < snd a))))%Z
  end.
Proof.
  unfold NetCDF.lex3.
  destruct (Z.compare_spec (fst (fst a)) (fst (fst b)));
    destruct (Z.compare_spec (snd (fst a)) (snd (fst b)));
    destruct (Z.compare_spec (snd a) (snd b)); lia.
Qed.

Lemma not_nan_SF (x : float) : is_nan x = false -> Prim2SF x <> S754_nan.
Proof.
  unfold is_nan. rewrite FloatAxioms.eqb_spec. intros H Hn.
  rewrite Hn in H. discriminate H.
Qed.

Lemma leb_rank (x y : float) :
  is_nan x = false -> is_nan y = false ->
  PrimFloat.leb x y
  = match NetCDF.lex3 (NetCDF.rank (Prim2SF x)) (NetCDF.rank (Prim2SF y)) with
    | Gt => false
    | _ => true
    end.
Proof.
  intros Hx Hy. rewrite FloatAxioms.leb_spec. unfold SFleb.
  rewrite SFcompare_rank by (apply not_nan_SF; assumption).
  destruct (NetCDF.lex3 _ _); reflexivity.
Qed.

Lemma ltb_rank (x y : float) :
  is_nan x = false -> is_nan y = false ->
  PrimFloat.ltb x y
  = match NetCDF.lex3 (NetCDF.rank (Prim2SF x)) (NetCDF.rank (Prim2SF y)) with
    | Lt => true
    | _ => false
    end.
Proof.
  intros Hx Hy. rewrite FloatAxioms.ltb_spec. unfold SFltb.
  rewrite SFcompare_rank by (apply not_nan_SF; assumption).
  destruct (NetCDF.lex3 _ _); reflexivity.
Qed.

Ltac by_rank :=
  repeat match goal with
         | H : context [PrimFloat.leb ?a ?b] |- _ =>
           rewrite (leb_rank a b) in H by assumption
         | H : context [PrimFloat.ltb ?a ?b] |- _ =>
           rewrite (ltb_rank a b) in H by assumption
         | |- context [PrimFloat.leb ?a ?b] =>
           rewrite (leb_rank a b) by assumption
         | |- context [PrimFloat.ltb ?a ?b] =>
           rewrite (ltb_rank a b) by assumption
         end;
  repeat match goal with
         | |- context [NetCDF.lex3 ?a ?b] =>
           let H := fresh "Hlex" in
           assert (H := lex3_spec a b); destruct (NetCDF.lex3 a b)
         | H : context [NetCDF.lex3 ?a ?b] |- _ =>
           let H' := fresh "Hlex" in
           assert (H' := lex3_spec a b); destruct (NetCDF.lex3 a b)
         end;
  try discriminate; try reflexivity; try lia.

Lemma leb_refl (x : float) : is_nan x = false -> PrimFloat.leb x x = true.
  Proof. intro Hx. by_rank. Qed.

Lemma not_leb_ltb (x y : float) :
  is_nan x = false -> is_nan y = false ->
  PrimFloat.leb x y = false -> PrimFloat.ltb y x = true.
  Proof. intros Hx Hy H. by_rank. Qed.

Lemma ltb_leb (x y : float) :
  is_nan x = false -> is_nan y = false ->
  PrimFloat.ltb x y = true -> PrimFloat.leb x y = true.
  Proof. intros Hx Hy H. by_rank. Qed.

Lemma ltb_leb_trans (x y z : float) :
  is_nan x = false -> is_nan y = false -> is_nan z = false ->
  PrimFloat.ltb x y = true -> PrimFloat.leb y z = true ->
  PrimFloat.ltb x z = true.
  Proof. intros Hx Hy Hz H1 H2. by_rank. Qed.

Lemma leb_trans (x y z : float) :
  is_nan x = false -> is_nan y = false -> is_nan z = false ->
  PrimFloat.leb x y = true -> PrimFloat.leb y z = true ->
  PrimFloat.leb x z = true.
  Proof. intros Hx Hy Hz H1 H2. by_rank. Qed.

(** ** np.argmin *)

Lemma argmin_from_lt (l : list float) (mp : float) (k i : nat) :
  k < i -> NetCDF.argmin_from mp k i l < i + length l.
Proof.
  revert mp k i; induction l as [|x l IH]; intros mp k i Hk; cbn [NetCDF.argmin_from length].
  - lia.
  - destruct (negb (PrimFloat.leb mp x)).
    + destruct (is_nan x); [lia|].
      assert (H := IH x i (S i)). lia.
    + assert (H := IH mp k (S i)). lia.
Qed.

Lemma np_argmin_lt (a : list float) (k : nat) :
  NetCDF.np_argmin a = Some k -> k < length a.
Proof.
  destruct a as [|x l]; cbn [NetCDF.np_argmin length]; intro H; [discriminate|].
  injection H as <-. destruct (is_nan x); [lia|].
  assert (H := argmin_from_lt l x 0 1). lia.
Qed.

Lemma np_argmin_nonempty (x : float) (l : list float) :
  exists k, NetCDF.np_argmin (x :: l) = Some k /\ k < S (length l).
Proof.
  eexists. split; [reflexivity|].
  apply (np_argmin_lt (x :: l)). reflexivity.
Qed.

Lemma argmin_from_spec (l p : list float) (mp : float) (k : nat) :
  Forall (fun v => is_nan v = false) (p ++ l) ->
  nth_error p k = Some mp ->
  (forall j v, nth_error p j = Some v ->
     PrimFloat.leb mp v = true /\ (j < k -> PrimFloat.ltb mp v = true)) ->
  exists m,
    nth_error (p ++ l) (NetCDF.argmin_from mp k (length p) l) = Some m
    /\ forall j v, nth_error (p ++ l) j = Some v ->
         PrimFloat.leb m v = true
         /\ (j < NetCDF.argmin_from mp k (length p) l -> PrimFloat.ltb m v = true).
Proof.
  revert p mp k; induction l as [|x l IH]; intros p mp k Hn Hk Hmin.
  - cbn [NetCDF.argmin_from]. rewrite app_nil_r. exists mp. auto.
  - assert (Hp : p ++ x :: l = (p ++ [x]) ++ l)
      by (rewrite <- app_assoc; reflexivity).
    assert (Hnn : forall j v, nth_error (p ++ x :: l) j = Some v -> is_nan v = false).
    { intros j v Hv. rewrite Forall_forall in Hn. apply Hn.
      eapply nth_error_In; eassumption. }
    assert (Hkp : k < length p) by (apply nth_error_Some; congruence).
    assert (Hmp : is_nan mp = false).
    { apply (Hnn k). rewrite nth_error_app1 by assumption. exact Hk. }
    assert (Hx : is_nan x = false).
    { apply (Hnn (length p)). rewrite nth_error_app2 by lia.
      rewrite Nat.sub_diag. reflexivity. }
    assert (Hpv : forall j v, nth_error p j = Some v -> is_nan v = false).
    { intros j v Hv. apply (Hnn j). rewrite nth_error_app1; [exact Hv|].
      apply nth_error_Some. congruence. }
    cbn [NetCDF.argmin_from]. rewrite Hx, Hp.
    replace (S (length p)) with (length (p ++ [x]))
      by (rewrite length_app; cbn [length]; lia).
    destruct (PrimFloat.leb mp x) eqn:Hle; cbn [negb].
    + apply IH.
      * rewrite <- Hp. exact Hn.
      * rewrite nth_error_app1 by assumption. exact Hk.
      * intros j v Hv.
        destruct (Nat.lt_ge_cases j (length p)) as [Hj|Hj].
        -- rewrite nth_error_app1 in Hv by assumption. apply Hmin. exact Hv.
        -- rewrite nth_error_app2 in Hv by assumption.
           destruct (j - length p) as [|n] eqn:Hd; cbn [nth_error] in Hv.
           ++ injection Hv as <-. split; [exact Hle|lia].
           ++ destruct n; discriminate Hv.
    + assert (Hlt : PrimFloat.ltb x mp = true) by (apply not_leb_ltb; assumption).
      apply IH.
      * rewrite <- Hp. exact Hn.
      * rewrite nth_error_app2 by lia. rewrite Nat.sub_diag. reflexivity.
      * intros j v Hv.
        destruct (Nat.lt_ge_cases j (length p)) as [Hj|Hj].
        -- rewrite nth_error_app1 in Hv by assumption.
           assert (Hv' := Hpv j v Hv).
           destruct (Hmin j v Hv) as [Hmv _].
           assert (Hxv : PrimFloat.ltb x v = true)
             by (apply (ltb_leb_trans x mp v); assumption).
           split; [apply ltb_leb; assumption|intros _; exact Hxv].
        -- rewrite nth_error_app2 in Hv by assumption.
           destruct (j - length p) as [|n] eqn:Hd; cbn [nth_error] in Hv.
           ++ injection Hv as <-. split; [apply leb_refl; assumption|lia].
           ++ destruct n; discriminate Hv.
Qed.

Lemma np_argmin_spec (a : list float) (k : nat) :
  Forall (fun v => is_nan v = false) a ->
  NetCDF.np_argmin a = Some k ->
  exists m,
    nth_error a k = Some m
    /\ forall j v, nth_error a j = Some v ->
         PrimFloat.leb m v = true /\ (j < k -> PrimFloat.ltb m v = true).
Proof.
  destruct a as [|x l]; intros Hn Hk; [discriminate Hk|].
  assert (Hx : is_nan x = false) by (inversion Hn; assumption).
  cbn [NetCDF.np_argmin] in Hk. rewrite Hx in Hk. injection Hk as <-.
  apply (argmin_from_spec l [x] x 0).
  - exact Hn.
  - reflexivity.
  - intros [|[|j]] v Hv; cbn [nth_error] in Hv; try discriminate Hv.
    injection Hv as <-. split; [apply leb_refl; assumption|lia].
Qed.

(** ** Writes to the grid *)

Lemma shaped_np_full (ny nx : nat) (v : float) :
  NetCDF.shaped ny nx (NetCDF.np_full ny nx v).
Proof.
  unfold NetCDF.shaped, NetCDF.np_full. split; [apply repeat_length|].
  apply Forall_forall. intros row Hr. apply repeat_spec in Hr. subst row.
  apply repeat_length.
Qed.

Lemma item_np_full (ny nx : nat) (v : float) (y x : nat) :
  y < ny -> x < nx -> NetCDF.item (NetCDF.np_full ny nx v) y x = Some v.
Proof.
  intros Hy Hx. unfold NetCDF.item, NetCDF.np_full.
  rewrite nth_error_repeat by assumption. apply nth_error_repeat. assumption.
Qed.

Lemma setitem_ok (a : NetCDF.Grid) (ny nx y x : nat) (v : float) :
  NetCDF.shaped ny nx a -> y < ny -> x < nx ->
  exists a',
    NetCDF.setitem a y x v = Some a'
    /\ NetCDF.shaped ny nx a'
    /\ forall y' x',
         NetCDF.item a' y' x'
         = if Nat.eqb y' y && Nat.eqb x' x then Some v else NetCDF.item a y' x'.
Proof.
  intros [Hlen Hrows] Hy Hx. unfold NetCDF.setitem.
  destruct (nth_error a y) as [row|] eqn:Hrow;
    [|apply nth_error_None in Hrow; lia].
  assert (Hrl : length row = nx).
  { rewrite Forall_forall in Hrows. apply Hrows.
    eapply nth_error_In; eassumption. }
  rewrite Hrl. destruct (Nat.ltb_spec x nx) as [_|Hge]; [|lia].
  eexists. split; [reflexivity|]. split.
  - split; [rewrite update_at_length; exact Hlen|].
    apply Forall_forall. intros r Hr.
    apply In_nth_error in Hr. destruct Hr as [j Hj].
    destruct (Nat.eq_dec y j) as [<-|Hne].
    + rewrite nth_error_update_at_eq, Hrow in Hj. cbn [option_map] in Hj.
      injection Hj as <-. rewrite update_at_length. exact Hrl.
    + rewrite nth_error_update_at_ne in Hj by assumption.
      rewrite Forall_forall in Hrows. apply Hrows.
      eapply nth_error_In; eassumption.
  - intros y' x'. unfold NetCDF.item.
    destruct (Nat.eqb_spec y' y) as [->|Hne]; cbn [andb].
    + rewrite nth_error_update_at_eq, Hrow. cbn [option_map].
      destruct (Nat.eqb_spec x' x) as [->|Hnx].
      * rewrite nth_error_update_at_eq.
        destruct (nth_error row x) eqn:Hc; [reflexivity|].
        apply nth_error_None in Hc. lia.
      * rewrite nth_error_update_at_ne by congruence. reflexivity.
    + rewrite nth_error_update_at_ne by congruence. reflexivity.
Qed.

Lemma map_row_spec (x0 y0 : float) (xs ys : list float) (st : NetCDF.State)
    (row : NetCDF.Obs) :
  NetCDF.ready (x0 :: xs) (y0 :: ys) st ->
  exists st',
    NetCDF.map_row (x0 :: xs) (y0 :: ys) st row = Some st'
    /\ NetCDF.ready (x0 :: xs) (y0 :: ys) st'
    /\ NetCDF.printed st' = NetCDF.printed st
    /\ forall y x,
         NetCDF.cell (NetCDF.netcdf_grid st') y x
         = if NetCDF.maps_to (x0 :: xs) (y0 :: ys) y x row
           then Some (NetCDF.values row)
           else NetCDF.cell (NetCDF.netcdf_grid st) y x.
Proof.
  intros (H1 & H2 & H3 & H4 & Him).
  unfold NetCDF.map_row, NetCDF.maps_to, NetCDF.nearest. cbn [map].
  destruct (np_argmin_nonempty
              (abs (x0 - NetCDF.X1 row))
              (map (fun c => abs (c - NetCDF.X1 row)%float) xs)) as [kx [-> Hkx]].
  destruct (np_argmin_nonempty
              (abs (y0 - NetCDF.Y1 row))
              (map (fun c => abs (c - NetCDF.Y1 row)%float) ys)) as [ky [-> Hky]].
  rewrite length_map in Hkx, Hky.
  rewrite Him. cbn [existsb].
  destruct (setitem_ok _ _ _ ky kx (NetCDF.Speed_kmdy row) H1 Hky Hkx)
    as (a1 & -> & S1 & I1).
  destruct (setitem_ok _ _ _ ky kx (NetCDF.dx row) H2 Hky Hkx)
    as (a2 & -> & S2 & I2).
  destruct (setitem_ok _ _ _ ky kx (NetCDF.dy row) H3 Hky Hkx)
    as (a3 & -> & S3 & I3).
  destruct (setitem_ok _ _ _ ky kx (NetCDF.Bear_deg row) H4 Hky Hkx)
    as (a4 & -> & S4 & I4).
  eexists. split; [reflexivity|].
  split; [exact (conj S1 (conj S2 (conj S3 (conj S4 eq_refl))))|].
  split; [reflexivity|].
  intros y x. unfold NetCDF.cell.
  cbn [NetCDF.netcdf_grid NetCDF.var_Speed_kmdy NetCDF.var_dx NetCDF.var_dy
       NetCDF.var_Bear_deg].
  rewrite I1, I2, I3, I4.
  destruct (Nat.eqb y ky && Nat.eqb x kx); reflexivity.
Qed.

Lemma find_snoc {A : Type} (f : A -> bool) (l : list A) (x : A) :
  find f (l ++ [x])
  = match find f l with
    | Some a => Some a
    | None => if f x then Some x else None
    end.
Proof.
  induction l as [|y l IH]; cbn [app find]; [reflexivity|].
  destruct (f y); [reflexivity|exact IH].
Qed.

Lemma map_rows_spec (x0 y0 : float) (xs ys : list float) (rows : list NetCDF.Obs)
    (st : NetCDF.State) :
  NetCDF.ready (x0 :: xs) (y0 :: ys) st ->
  exists st',
    NetCDF.map_rows (x0 :: xs) (y0 :: ys) st rows = Some st'
    /\ NetCDF.ready (x0 :: xs) (y0 :: ys) st'
    /\ NetCDF.printed st' = NetCDF.printed st
    /\ forall y x,
         NetCDF.cell (NetCDF.netcdf_grid st') y x
         = match NetCDF.last_at (x0 :: xs) (y0 :: ys) rows y x with
           | Some row => Some (NetCDF.values row)
           | None => NetCDF.cell (NetCDF.netcdf_grid st) y x
           end.
Proof.
  revert st; induction rows as [|row rows IH]; intros st Hst.
  - exists st. cbn [NetCDF.map_rows]. auto.
  - cbn [NetCDF.map_rows].
    destruct (map_row_spec x0 y0 xs ys st row Hst) as (st1 & -> & Hr1 & Hp1 & Hc1).
    destruct (IH st1 Hr1) as (st' & Hm & Hr & Hp & Hc).
    exists st'. split; [exact Hm|]. split; [exact Hr|].
    split; [congruence|].
    intros y x. rewrite Hc. unfold NetCDF.last_at. cbn [rev].
    rewrite find_snoc, Hc1.
    destruct (find (NetCDF.maps_to (x0 :: xs) (y0 :: ys) y x) (rev rows));
      [reflexivity|].
    destruct (NetCDF.maps_to (x0 :: xs) (y0 :: ys) y x row); reflexivity.
Qed.

(** The last observation wins.  For coordinate arrays that are not empty,
    the mapping loop of [create_netcdf] ends without an exception, leaves
    [index_mapping] empty and prints no duplicate warning, whatever the
    table; every row is written, so each cell of the four variables holds
    the values of the last row of the table that maps to it, and NaN when
    no row does.  (The loop tests [index_key in index_mapping] and never
    adds a key.) *)
Theorem last_observation_wins (x0 y0 : float) (xs ys : list float)
    (rows : list NetCDF.Obs) :
  exists st,
    NetCDF.mapping (x0 :: xs) (y0 :: ys) rows = Some st
    /\ NetCDF.index_mapping st = []
    /\ NetCDF.printed st = []
    /\ forall y x, y < length (y0 :: ys) -> x < length (x0 :: xs) ->
         NetCDF.cell (NetCDF.netcdf_grid st) y x
         = Some match NetCDF.last_at (x0 :: xs) (y0 :: ys) rows y x with
                | Some row => NetCDF.values row
                | None => (nan, nan, nan, nan)
                end.
Proof.
  unfold NetCDF.mapping.
  destruct (map_rows_spec x0 y0 xs ys rows
              {| NetCDF.netcdf_grid := NetCDF.empty_dataset (x0 :: xs) (y0 :: ys);
                 NetCDF.index_mapping := []; NetCDF.printed := [] |})
    as (st & Hm & Hr & Hp & Hc).
  - unfold NetCDF.ready, NetCDF.empty_dataset.
    cbn [NetCDF.netcdf_grid NetCDF.index_mapping NetCDF.var_Speed_kmdy
         NetCDF.var_dx NetCDF.var_dy NetCDF.var_Bear_deg].
    repeat (split; [apply shaped_np_full|]). reflexivity.
  - exists st. split; [exact Hm|].
    split; [apply Hr|]. split; [exact Hp|].
    intros y x Hy Hx. rewrite Hc.
    destruct (NetCDF.last_at (x0 :: xs) (y0 :: ys) rows y x); [reflexivity|].
    unfold NetCDF.cell, NetCDF.empty_dataset.
    cbn [NetCDF.netcdf_grid NetCDF.var_Speed_kmdy NetCDF.var_dx NetCDF.var_dy
         NetCDF.var_Bear_deg].
    rewrite item_np_full by assumption. reflexivity.
Qed.

(** The nearest grid cell.  When none of the distances from the
    coordinates to a value is NaN, the position chosen by
    [np.argmin(np.abs(coords - v))] is a position of the array, its
    coordinate is at least as close to the value as every coordinate of
    the array, and strictly closer than every coordinate before it. *)
Theorem nearest_cell (coords : list float) (v : float) (k : nat) :
  Forall (fun c => is_nan (abs (c - v)%float) = false) coords ->
  NetCDF.nearest coords v = Some k ->
  exists ck,
    nth_error coords k = Some ck
    /\ forall j c, nth_error coords j = Some c ->
         PrimFloat.leb (abs (ck - v)%float) (abs (c - v)%float) = true
         /\ (j < k ->
             PrimFloat.ltb (abs (ck - v)%float) (abs (c - v)%float) = true).
Proof.
  intros Hn Hk. unfold NetCDF.nearest in Hk.
  apply np_argmin_spec in Hk; [|rewrite Forall_map; exact Hn].
  destruct Hk as (m & Hm & Hall).
  rewrite nth_error_map in Hm.
  destruct (nth_error coords k) as [ck|] eqn:Hck; [|discriminate Hm].
  cbn [option_map] in Hm. injection Hm as <-.
  exists ck. split; [reflexivity|].
  intros j c Hc. apply (Hall j).
  rewrite nth_error_map, Hc. reflexivity.
Qed.

Lemma nearest_cell_witness :
  NetCDF.nearest [0; 1000; 2000; 3000]%float 1500%float = Some 1
  /\ exists ck,
       nth_error [0; 1000; 2000; 3000]%float 1 = Some ck
       /\ forall j c, nth_error [0; 1000; 2000; 3000]%float j = Some c ->
            PrimFloat.leb (abs (ck - 1500)%float) (abs (c - 1500)%float) = true
            /\ (j < 1 ->
                PrimFloat.ltb (abs (ck - 1500)%float) (abs (c - 1500)%float) = true).
Proof.
  assert (H : NetCDF.nearest [0; 1000; 2000; 3000]%float 1500%float = Some 1)
    by reflexivity.
  split; [exact H|].
  apply (nearest_cell [0; 1000; 2000; 3000]%float 1500%float 1); [|exact H].
  repeat (constructor; [reflexivity|]). constructor.
Defined.

(** * Properties of the file selection *)

Lemma prefix_spec (p s : string) :
  String.prefix p s = true <-> exists b, s = (p ++ b)%string.
Proof.
  revert s; induction p as [|c p IH]; intros [|c' s]; cbn [String.prefix String.append].
  - split; [intros _; exists EmptyString; reflexivity|reflexivity].
  - split; [intros _; exists (String c' s); reflexivity|reflexivity].
  - split; [discriminate|intros [b Hb]; discriminate Hb].
  - destruct (Ascii.ascii_dec c c') as [->|Hne].
    + rewrite IH. split; intros [b Hb]; exists b; congruence.
    + split; [discriminate|]. intros [b Hb]. congruence.
Qed.

Lemma str_in_spec (sub s : string) :
  str_in sub s = true <-> exists a b, s = (a ++ sub ++ b)%string.
Proof.
  induction s as [|c s IH]; cbn [str_in]; rewrite orb_true_iff, prefix_spec.
  - split.
    + intros [[b Hb]|H]; [|discriminate H]. exists EmptyString, b. exact Hb.
    + intros [a [b Hab]]. left. destruct a; [exists b; exact Hab|discriminate Hab].
  - rewrite IH. split.
    + intros [[b Hb]|[a [b Hab]]].
      * exists EmptyString, b. exact Hb.
      * exists (String c a), b. cbn [String.append]. congruence.
    + intros [a [b Hab]]. destruct a as [|c' a].
      * left. exists b. exact Hab.
      * right. exists a, b. cbn [String.append] in Hab. congruence.
Qed.

(** Files are selected by substring.  In batch mode [main] processes the
    matches of [glob] whose path contains '.txt' or '.csv' anywhere (in a
    directory name, or before another extension), and no other file;
    otherwise it processes the one file of the configuration. *)
Theorem files_by_substring (os : OS) (glob : string -> list string)
    (config : Config) (file : string) :
  In file (data_files os glob config)
  <-> if batch_process config
      then In file (glob (path_join os (sar_drift_directory config) "*"))
           /\ exists a b, file = (a ++ ".txt" ++ b)%string
                          \/ file = (a ++ ".csv" ++ b)%string
      else file = sar_drift_file config.
Proof.
  unfold data_files. destruct (batch_process config).
  - rewrite filter_In, orb_true_iff, !str_in_spec. split.
    + intros [Hin [[a [b H]]|[a [b H]]]]; split; auto; exists a, b; auto.
    + intros [Hin [a [b [H|H]]]]; split; auto; [left|right]; exists a, b; exact H.
  - cbn [In]. split; [intros [H|[]]; auto|auto].
Qed.

(** The single file exists.  When [read_json_config] returns a
    configuration that is not in batch mode, the list of files that [main]
    processes holds one file, and this file exists. *)
Theorem single_file_exists (os : OS) (load : string -> exn + json)
    (glob : string -> list string) (args : parsed)
    (fs fs' : list string) (c : Config) :
  read_json_config os load args fs = (Return c, fs') ->
  batch_process c = false ->
  data_files os glob c = [sar_drift_file c]
  /\ path_exists os (sar_drift_file c) = true.
Proof.
  intros H Hb.
  destruct (read_json_config_Return os load args fs fs' c H)
    as (f & config & _ & _ & _ & Hv).
  destruct (validate_Return os config fs fs' c Hv) as (_ & Hp & _).
  rewrite Hb in Hp. unfold data_files. rewrite Hb. auto.
Qed.

Lemma single_file_exists_witness :
  read_json_config example_os (fun _ => inr (JDict example_config))
                   (Namespace (Some "config.json"%string)) []
  = (Return example_accepted,
     [ "/out/formatted_data"; "/out/gpkg"; "/out/nc"; "/out/png" ]%string)
  /\ data_files example_os (fun _ => []) example_accepted = [ "/data/drift.txt"%string ]
  /\ path_exists example_os "/data/drift.txt" = true.
Proof.
  assert (H : read_json_config example_os (fun _ => inr (JDict example_config))
                (Namespace (Some "config.json"%string)) []
              = (Return example_accepted,
                 [ "/out/formatted_data"; "/out/gpkg"; "/out/nc"; "/out/png" ]%string))
    by (vm_compute; reflexivity).
  split; [exact H|].
  exact (single_file_exists example_os _ (fun _ => []) _ _ _ _ H eq_refl).
Defined.

(** * Properties of the timestamps of a file name *)

Lemma digit_code (k : Z) : nat_of_ascii (digit k) = 48 + Z.to_nat (k mod 10).
Proof.
  unfold digit. apply nat_ascii_embedding.
  assert (H := Z.mod_pos_bound k 10). lia.
Qed.

Lemma isdigit_digit (k : Z) : isdigit (digit k) = true.
Proof.
  unfold isdigit. rewrite digit_code.
  assert (H := Z.mod_pos_bound k 10).
  apply andb_true_iff. split; apply Nat.leb_le; lia.
Qed.

Lemma isdigit_not_underscore (c : ascii) :
  isdigit c = true -> Ascii.eqb c "_" = false.
Proof.
  intro H. destruct (Ascii.eqb_spec c "_"%char) as [->|Hne]; [discriminate H|reflexivity].
Qed.

Lemma stamp_app (t : datetime) (rest : string) :
  stamp t rest = (stamp t EmptyString ++ rest)%string.
  Proof. reflexivity. Qed.

Lemma match_here_stamp (t : datetime) (rest : string) :
  match_here DT_RE (stamp t rest) = Some (stamp t EmptyString).
Proof.
  unfold stamp, pad2, DT_RE.
  repeat (cbn [match_here cls_ok option_map];
          rewrite ?isdigit_digit, ?Ascii.eqb_refl).
  reflexivity.
Qed.

Lemma findall_from_skip (a s : string) :
  findall_from (String.length a) (a ++ s) = findall_from 0 s.
Proof.
  induction a as [|c a IH]; [reflexivity|].
  cbn [String.length String.append findall_from]. exact IH.
Qed.

Lemma findall_stamp (t : datetime) (rest : string) :
  findall_from 0 (stamp t rest) = stamp t EmptyString :: findall_from 0 rest.
Proof.
  assert (Hm := match_here_stamp t rest).
  rewrite stamp_app in *.
  destruct (stamp t EmptyString) as [|c body] eqn:Hs; [discriminate Hs|].
  cbn [String.append] in *. cbn [findall_from]. rewrite Hm. f_equal.
  assert (Hlen : String.length body = 18).
  { unfold stamp, pad2 in Hs. injection Hs as _ <-. reflexivity. }
  rewrite <- Hlen. apply findall_from_skip.
Qed.

Lemma match_here_app_None (p q : list cls) (s : string) :
  match_here p s = None -> match_here (p ++ q) s = None.
Proof.
  revert s; induction p as [|k p IH]; intros s H; [discriminate H|].
  cbn [app match_here] in *. destruct s as [|c s]; [reflexivity|].
  destruct (cls_ok k c); [|reflexivity].
  destruct (match_here p s) eqn:Hp; [discriminate H|].
  rewrite (IH s Hp). reflexivity.
Qed.

(** No match of the year and its underscore starts in a text that has
    none, when the text is followed by four digits. *)
Lemma no_year_across (pre : string) (d0 d1 d2 d3 : ascii) (r : string) :
  pre <> EmptyString ->
  isdigit d0 = true -> isdigit d1 = true -> isdigit d2 = true ->
  isdigit d3 = true ->
  match_here [D; D; D; D; U] pre = None ->
  match_here [D; D; D; D; U]
             (pre ++ String d0 (String d1 (String d2 (String d3 r)))) = None.
Proof.
  intros Hne H0 H1 H2 H3 Hpre.
  assert (U0 := isdigit_not_underscore d0 H0).
  assert (U1 := isdigit_not_underscore d1 H1).
  assert (U2 := isdigit_not_underscore d2 H2).
  assert (U3 := isdigit_not_underscore d3 H3).
  destruct pre as [|c1 [|c2 [|c3 [|c4 [|c5 pre]]]]]; [congruence| | | | |];
    cbn [String.append match_here cls_ok option_map] in *;
    rewrite ?H0, ?H1, ?H2, ?H3, ?U0, ?U1, ?U2, ?U3;
    cbn [option_map];
    repeat match goal with
           | |- context [isdigit ?c] => destruct (isdigit c)
           end;
    try reflexivity.
  destruct (Ascii.eqb c5 "_"); [discriminate Hpre|reflexivity].
Qed.

Lemma findall_pre (pre : string) (d0 d1 d2 d3 : ascii) (r : string) :
  isdigit d0 = true -> isdigit d1 = true -> isdigit d2 = true ->
  isdigit d3 = true ->
  no_year_start pre = true ->
  findall_from 0 (pre ++ String d0 (String d1 (String d2 (String d3 r))))
  = findall_from 0 (String d0 (String d1 (String d2 (String d3 r)))).
Proof.
  intros H0 H1 H2 H3. induction pre as [|c pre IH]; intro Hn; [reflexivity|].
  cbn [no_year_start] in Hn.
  destruct (match_here [D; D; D; D; U] (String c pre)) eqn:Hy; [discriminate Hn|].
  assert (Hx := no_year_across (String c pre) d0 d1 d2 d3 r
                  ltac:(discriminate) H0 H1 H2 H3 Hy).
  apply (match_here_app_None _ [D; D; U; D; D; U; D; D; U; D; D; U; D; D]) in Hx.
  change ([D; D; D; D; U] ++ [D; D; U; D; D; U; D; D; U; D; D; U; D; D])
    with DT_RE in Hx.
  cbn [String.append] in *. cbn [findall_from]. rewrite Hx. apply IH. exact Hn.
Qed.

Lemma findall_pre_stamp (pre : string) (t : datetime) (rest : string) :
  no_year_start pre = true ->
  findall_from 0 (pre ++ stamp t rest) = findall_from 0 (stamp t rest).
Proof.
  intro Hn. unfold stamp.
  set (r := String "_"%char _). unfold pad2.
  apply findall_pre; try apply isdigit_digit. exact Hn.
Qed.

Lemma digit_value (k : Z) : (Z.of_nat (nat_of_ascii (digit k)) - 48 = k mod 10)%Z.
Proof.
  rewrite digit_code. assert (H := Z.mod_pos_bound k 10). lia.
Qed.

Lemma int_pad2 (n : Z) :
  (0 <= n < 100)%Z -> int (pad2 n EmptyString) = n.
Proof.
  intro H. unfold int, pad2. cbn [int_acc]. rewrite !digit_value.
  Z.to_euclidean_division_equations. lia.
Qed.

Lemma int_pad4 (y : Z) :
  (0 <= y < 10000)%Z -> int (pad2 (y / 100) (pad2 y EmptyString)) = y.
Proof.
  intro H. unfold int, pad2. cbn [int_acc]. rewrite !digit_value.
  Z.to_euclidean_division_equations. lia.
Qed.

Lemma valid_fits (t : datetime) :
  valid_datetime t = true -> fits_digits t = true.
Proof.
  unfold valid_datetime, fits_digits.
  rewrite !andb_true_iff, !Z.leb_le, !Z.ltb_lt.
  intros H.
  assert (Hd : (days_in_month (year t) (month t) <= 31)%Z).
  { unfold days_in_month.
    repeat match goal with
           | |- context [match ?p with _ => _ end] => destruct p
           end; lia. }
  lia.
Qed.

Lemma strptime_stamp (t : datetime) :
  fits_digits t = true ->
  strptime (stamp t EmptyString) = if valid_datetime t then Some t else None.
Proof.
  unfold fits_digits. rewrite !andb_true_iff, !Z.leb_le, !Z.ltb_lt. intro H.
  unfold strptime.
  change (substring 0 4 (stamp t EmptyString))
    with (pad2 (year t / 100) (pad2 (year t) EmptyString)).
  change (substring 5 2 (stamp t EmptyString)) with (pad2 (month t) EmptyString).
  change (substring 8 2 (stamp t EmptyString)) with (pad2 (day t) EmptyString).
  change (substring 11 2 (stamp t EmptyString)) with (pad2 (hour t) EmptyString).
  change (substring 14 2 (stamp t EmptyString)) with (pad2 (minute t) EmptyString).
  change (substring 17 2 (stamp t EmptyString)) with (pad2 (second t) EmptyString).
  rewrite int_pad4 by lia. rewrite !int_pad2 by lia.
  destruct t as [y mo d h mi se]. reflexivity.
Qed.

Lemma findall_none (s : string) :
  no_year_start s = true -> findall_from 0 s = [].
Proof.
  induction s as [|c s IH]; intro Hn; [reflexivity|].
  cbn [no_year_start] in Hn.
  destruct (match_here [D; D; D; D; U] (String c s)) eqn:Hy; [discriminate Hn|].
  apply (match_here_app_None _ [D; D; U; D; D; U; D; D; U; D; D; U; D; D]) in Hy.
  change ([D; D; D; D; U] ++ [D; D; U; D; D; U; D; D; U; D; D; U; D; D])
    with DT_RE in Hy.
  cbn [findall_from]. rewrite Hy. apply IH. exact Hn.
Qed.

Lemma findall_two (pre mid post : string) (t1 t2 : datetime) :
  no_year_start pre = true -> no_year_start mid = true ->
  findall (pre ++ stamp t1 (mid ++ stamp t2 post))
  = stamp t1 EmptyString :: stamp t2 EmptyString :: findall post.
Proof.
  intros Hp Hm. unfold findall.
  rewrite findall_pre_stamp by assumption. rewrite findall_stamp.
  rewrite findall_pre_stamp by assumption. rewrite findall_stamp.
  reflexivity.
Qed.

(** Reading back two timestamps.  For a file name made of a text, a
    timestamp in the format "%Y_%m_%d_%H_%M_%S", a second text, a second
    timestamp and anything after it, where neither text holds four digits
    followed by an underscore: [_parse_pair_times] returns the two dates
    and times, in the order of the name, when both are valid; whatever
    follows the second timestamp, further timestamps included, is
    ignored.  (The texts are taken to be ASCII.) *)
Theorem parse_pair_times_reads_back (pre mid post : string)
    (t1 t2 : datetime) :
  is_ascii pre = true -> is_ascii mid = true ->
  no_year_start pre = true -> no_year_start mid = true ->
  valid_datetime t1 = true -> valid_datetime t2 = true ->
  _parse_pair_times (pre ++ stamp t1 (mid ++ stamp t2 post)) = Some (t1, t2).
Proof.
  intros _ _ Hp Hm H1 H2. unfold _parse_pair_times.
  rewrite findall_two by assumption.
  rewrite !strptime_stamp by (apply valid_fits; assumption).
  rewrite H1, H2. reflexivity.
Qed.

Lemma parse_pair_times_reads_back_witness :
  _parse_pair_times
    "S1A_2024_02_29_08_12_45_S1B_2024_03_01_09_00_07_0050000m_2024_03_02_00_00_00.txt"
  = Some (first_time, second_time).
Proof.
  apply (parse_pair_times_reads_back
           "S1A_" "_S1B_" "_0050000m_2024_03_02_00_00_00.txt"
           first_time second_time); reflexivity.
Defined.

(** The ValueError of [_parse_pair_times].  It is raised for a name in
    which no four digits followed by an underscore start, for a name with
    one timestamp around which none start, and for a name with two
    timestamps of which one is not a date and a time (month 13, 30
    February, hour 24, second 60). *)
Theorem parse_pair_times_errors (pre mid post : string) (t1 t2 : datetime) :
  is_ascii pre = true -> is_ascii mid = true ->
  no_year_start pre = true -> no_year_start mid = true ->
  fits_digits t1 = true -> fits_digits t2 = true ->
  _parse_pair_times pre = None
  /\ _parse_pair_times (pre ++ stamp t1 mid) = None
  /\ (valid_datetime t1 && valid_datetime t2 = false ->
      _parse_pair_times (pre ++ stamp t1 (mid ++ stamp t2 post)) = None).
Proof.
  intros _ _ Hp Hm H1 H2. unfold _parse_pair_times, findall.
  split; [rewrite findall_none by assumption; reflexivity|].
  split.
  - rewrite findall_pre_stamp by assumption.
    rewrite findall_stamp, findall_none by assumption. reflexivity.
  - intro Hv. fold (findall (pre ++ stamp t1 (mid ++ stamp t2 post))).
    rewrite findall_two by assumption.
    rewrite !strptime_stamp by assumption.
    destruct (valid_datetime t1), (valid_datetime t2);
      try reflexivity; discriminate Hv.
Qed.

Lemma parse_pair_times_errors_witness :
  _parse_pair_times "S1A_20240229T081245" = None
  /\ _parse_pair_times "S1A_2024_02_29_08_12_45_0050000m.txt" = None
  /\ _parse_pair_times "S1A_2024_02_29_08_12_45_S1B_2023_02_29_09_00_07.txt" = None.
Proof.
  destruct (parse_pair_times_errors
              "S1A_20240229T081245" "" "" first_time second_time
              eq_refl eq_refl eq_refl eq_refl eq_refl eq_refl) as (H1 & _ & _).
  destruct (parse_pair_times_errors
              "S1A_" "_0050000m.txt" "" first_time second_time
              eq_refl eq_refl eq_refl eq_refl eq_refl eq_refl) as (_ & H2 & _).
  destruct (parse_pair_times_errors
              "S1A_" "_S1B_" ".txt" first_time
              {| year := 2023; month := 2; day := 29; hour := 9; minute := 0;
                 second := 7 |}
              eq_refl eq_refl eq_refl eq_refl eq_refl eq_refl) as (_ & _ & H3).
  split; [exact H1|]. split; [exact H2|exact (H3 eq_refl)].
Defined.

(** * Properties of the circular statistics *)

(** The two ends of the clamp.  circular_std is sqrt(-2 ln R') with R' the
    mean resultant length R clamped to [1e-12, 1].  For a math library
    with ln 1 = 0 it is zero (the value -0) whenever the computed R is 1 or
    more; for one whose ln 1e-12 is the binary64 nearest to the logarithm,
    it is sqrt(-2 ln 1e-12), about 7.434, whenever the computed R is at or
    below the clamp floor. *)
Theorem circular_std_clamped (E : Extern) :
  np_log E 1 = 0%float ->
  np_log E clamp_floor = (-0x1.ba18a998fffa0p+4)%float ->
  (forall a, circular_std E a
             = sqrt (-2 * np_log E (np_clip (resultant_length E a)
                                            clamp_floor clamp_ceiling))%float)
  /\ (forall a, PrimFloat.leb 1 (resultant_length E a) = true ->
                circular_std E a = (-0)%float
                /\ PrimFloat.eqb (circular_std E a) 0 = true)
  /\ (forall a, PrimFloat.leb (resultant_length E a) clamp_floor = true ->
                circular_std E a = 0x1.dbc41b3571826p+2%float
                /\ is_finite (circular_std E a) = true).
Proof.
  intros H1 Hf.
  assert (Hdef : forall a, circular_std E a
             = sqrt (-2 * np_log E (np_clip (resultant_length E a)
                                            clamp_floor clamp_ceiling))%float)
    by reflexivity.
  split; [exact Hdef|]. split.
  - intros a Ha. rewrite Hdef, (clip_above_one _ Ha), H1. split; reflexivity.
  - intros a Ha. rewrite Hdef, (clip_below_floor _ Ha), Hf. split; reflexivity.
Qed.

Lemma circular_std_clamped_witness :
  (PrimFloat.leb 1 (resultant_length RefLibm.ext (map np_deg2rad [45; 45]%float)) = true
   /\ PrimFloat.leb (resultant_length RefLibm.ext (map np_deg2rad [0; 90; 180; 270]%float))
                    clamp_floor = true)
  /\ circular_std RefLibm.ext (map np_deg2rad [45; 45]%float) = (-0)%float
  /\ circular_std RefLibm.ext (map np_deg2rad [0; 90; 180; 270]%float)
     = 0x1.dbc41b3571826p+2%float
  /\ is_finite (circular_std RefLibm.ext (map np_deg2rad [0; 90; 180; 270]%float)) = true.
Proof.
  assert (Ha : PrimFloat.leb 1 (resultant_length RefLibm.ext (map np_deg2rad [45; 45]%float))
               = true) by (vm_compute; reflexivity).
  assert (Hb : PrimFloat.leb
                 (resultant_length RefLibm.ext (map np_deg2rad [0; 90; 180; 270]%float))
                 clamp_floor = true) by (vm_compute; reflexivity).
  split; [auto|].
  split.
  - exact (proj1 (proj1 (proj2 (circular_std_clamped RefLibm.ext eq_refl eq_refl))
                    (map np_deg2rad [45; 45]%float) Ha)).
  - exact (proj2 (proj2 (circular_std_clamped RefLibm.ext eq_refl eq_refl))
             (map np_deg2rad [0; 90; 180; 270]%float) Hb).
Defined.

(** * Positions that are not finite *)

(** The run over positions that are not finite.  scipy builds no tree over
    a NaN or an infinite coordinate, and the preparation drops no row: with
    at least one iteration, a table holding one such position ends the run
    with ValueError in the first iteration, wherever the row stands and
    whatever its scene; a table of finite positions runs as
    [outlier_search] says; and without an iteration the prepared table is
    returned. *)
Theorem nonfinite_position_raises (E : Extern) (radius_km : float)
    (min_neighbors : Z) (df : list Row) (iter_count : nat) :
  outlier_search_checked E radius_km min_neighbors df 0 = Some (prepare E df, [])
  /\ (forallb finite_row df = true ->
      outlier_search_checked E radius_km min_neighbors df iter_count
      = Some (outlier_search E radius_km min_neighbors df iter_count))
  /\ (forallb finite_row df = false ->
      outlier_search_checked E radius_km min_neighbors df (S iter_count) = None).
Proof.
  split; [reflexivity|]. split.
  - intro H. unfold outlier_search_checked, outlier_search.
    apply loop_checked_finite. rewrite map_base_prepare.
    rewrite <- (forallb_perm _ _ _ (sort_values_perm df)). exact H.
  - intro H. unfold outlier_search_checked. cbn [loop_checked stable].
    rewrite tree_data_ok_prepare, H. reflexivity.
Qed.
